(** * psiaudio: stimulus queue and epoch capture

    A shallow embedding of [psiaudio/queue.py] and [psiaudio/pipeline.py]
    and the properties of the dispatch engine and of the epoch extractor.

    Conventions of the embedding.
    - Times in seconds ([t0], [duration], [delay], [fs]) are Python floats in
      the source.  They are represented by exact rationals [Q]; [py_round]
      is Python's [round] (half to even) on them.  Sample counts and sample
      indices are Python ints, here [Z].
    - A sample array is a [list sample] along its trailing (sample) axis.
      Samples are only moved around, never computed on.
    - A method that mutates [self] is a function in the state-and-exception
      monad [M]: it returns an [outcome] together with the queue as the
      exception (if any) left it.
    - [uuid.uuid4()] is a supply of fresh keys, [uuid_next].
    - Every callback registered with [connect] sees the same calls in the
      same order; that sequence is the [notified] log of the queue. *)

From Stdlib Require Import ZArith QArith Qround Lia Lqa String List Sorted.
From Stdlib Require Import DecimalString.
From stdpp Require Import gmap list.

Local Open Scope Z_scope.

(** ** Python primitives used by the two modules *)

Module Py.

Inductive exn :=
| QueueEmptyError
| KeyError (what : string)
| ValueError (what : string)
| TypeError (what : string)
| IndexError
| ZeroDivisionError
| StopIteration.

Inductive outcome (A : Type) :=
| Ok (a : A)
| Raise (e : exn).
Arguments Ok {A} a.
Arguments Raise {A} e.

(** [len(l)] *)
Definition len {A} (l : list A) : Z := Z.of_nat (length l).

(** [round(x)] on a float: nearest integer, ties to the even one. *)
Definition py_round (x : Q) : Z :=
  let f := Qfloor x in
  match Qcompare (x - inject_Z f) (1 # 2) with
  | Lt => f
  | Gt => f + 1
  | Eq => if Z.even f then f else f + 1
  end.

(** Normalisation of a slice bound against a length: a negative bound
    counts from the end, and every bound is clipped to [0, len]. *)
Definition py_clamp (len i : Z) : Z :=
  if i <? 0 then Z.max 0 (i + len) else Z.min i len.

(** [l[start:stop]] *)
Definition py_slice {A} (l : list A) (start stop : Z) : list A :=
  let n := Z.of_nat (length l) in
  let a := py_clamp n start in
  let b := py_clamp n stop in
  firstn (Z.to_nat (b - a)) (skipn (Z.to_nat a) l).

(** [l[:stop]] and [l[start:]] *)
Definition py_prefix {A} (l : list A) (stop : Z) : list A :=
  py_slice l 0 stop.
Definition py_suffix {A} (l : list A) (start : Z) : list A :=
  py_slice l start (Z.of_nat (length l)).

(** [l[i]] *)
Definition py_index {A} (l : list A) (i : Z) : outcome A :=
  let n := Z.of_nat (length l) in
  let j := if i <? 0 then i + n else i in
  if (j <? 0) || (n <=? j) then Raise IndexError
  else match nth_error l (Z.to_nat j) with
       | Some x => Ok x
       | None => Raise IndexError
       end.

(** [l.remove(x)]: drops the first occurrence, [None] when there is none
    (Python raises ValueError). *)
Fixpoint list_remove `{EqDecision A} (x : A) (l : list A) : option (list A) :=
  match l with
  | [] => None
  | y :: l' =>
      if decide (x = y) then Some l'
      else match list_remove x l' with
           | Some r => Some (y :: r)
           | None => None
           end
  end.

(** [collections.Counter(l).items()]: each distinct element with its
    number of occurrences, in order of first occurrence. *)
Fixpoint counter_add `{EqDecision A} (x : A) (c : list (A * Z)) : list (A * Z) :=
  match c with
  | [] => [(x, 1)]
  | (y, n) :: c' =>
      if decide (x = y) then (y, n + 1) :: c' else (y, n) :: counter_add x c'
  end.
Definition Counter `{EqDecision A} (l : list A) : list (A * Z) :=
  fold_left (fun c x => counter_add x c) l [].

(** [str.format] on a template whose replacement fields are all named,
    such as ['{param} must be ... {n}'].  A named field is looked up among
    the keyword arguments only; positional arguments serve the numbered
    fields, of which such a template has none. *)
Inductive pyval := PStr (s : string) | PInt (n : Z).

Definition py_str (v : pyval) : string :=
  match v with
  | PStr s => s
  | PInt n => NilZero.string_of_int (Z.to_int n)
  end.

Inductive piece := Lit (s : string) | Field (name : string).

Fixpoint kw_lookup (name : string) (kwargs : list (string * pyval)) : option pyval :=
  match kwargs with
  | [] => None
  | (k, v) :: rest => if String.eqb k name then Some v else kw_lookup name rest
  end.

Fixpoint str_format (tpl : list piece) (args : list pyval)
    (kwargs : list (string * pyval)) : outcome string :=
  match tpl with
  | [] => Ok EmptyString
  | Lit s :: rest =>
      match str_format rest args kwargs with
      | Ok r => Ok (s ++ r)%string
      | Raise e => Raise e
      end
  | Field name :: rest =>
      match kw_lookup name kwargs with
      | None => Raise (KeyError name)
      | Some v =>
          match str_format rest args kwargs with
          | Ok r => Ok (py_str v ++ r)%string
          | Raise e => Raise e
          end
      end
  end.

End Py.
Export Py.

(** ** queue.py *)

Module Queue.

Definition sample := Z.
Definition uuid := N.
Definition metadata := string.

(** [np.zeros(n)] *)
Definition np_zeros (n : Z) : outcome (list sample) :=
  if n <? 0 then Raise (ValueError "negative dimensions are not allowed")
  else Ok (repeat 0 (Z.to_nat n)).

(** [np.concatenate(arrays, axis=-1)] *)
Definition np_concatenate (arrays : list (list sample)) : outcome (list sample) :=
  match arrays with
  | [] => Raise (ValueError "need at least one array to concatenate")
  | _ => Ok (concat arrays)
  end.

(** *** Waveform producers *)

(** Modelled from the spec: the generator variant of the Waveform Producer
    ([reset], [next], [n_samples_remaining], [is_complete], [get_duration]);
    its classes are not part of queue.py.  A generator holds the samples of
    one trial and a read position; [next(n)] yields the next [n] samples,
    fewer on the final call. *)
Record generator := mk_generator {
  gen_wave : list sample;
  gen_pos : Z;
  gen_duration : Q
}.

Definition reset (g : generator) : generator :=
  {| gen_wave := gen_wave g; gen_pos := 0; gen_duration := gen_duration g |}.
Definition n_samples_remaining (g : generator) : Z :=
  Z.max 0 (len (gen_wave g) - gen_pos g).
Definition next (g : generator) (n : Z) : list sample * generator :=
  (py_slice (gen_wave g) (gen_pos g) (gen_pos g + n),
   {| gen_wave := gen_wave g; gen_pos := gen_pos g + Z.max 0 n;
      gen_duration := gen_duration g |}).
Definition is_complete (g : generator) : bool :=
  len (gen_wave g) <=? gen_pos g.
Definition get_duration (g : generator) : Q := gen_duration g.

(** A source is an ndarray or a generator object. *)
Inductive producer :=
| Waveform (w : list sample)
| Generator (g : generator).

(** *** Tokens, trial records, events *)

(** The iterator made by [as_iterator]. *)
Inductive delay_iterator :=
| Cycle (x : Q)            (* itertools.cycle([x]) *)
| Iter (rest : list Q).    (* iter(x), what is left of it *)

(** The [delays] argument: [None], a number, or a sequence. *)
Inductive delays_arg :=
| DNone
| DScalar (x : Q)
| DSeq (l : list Q).

Definition as_iterator (x : delays_arg) : delay_iterator :=
  match x with
  | DNone => Cycle 0
  | DSeq l => Iter l
  | DScalar x => Cycle x
  end.

Record token := mk_token {
  source : producer;
  trials : Z;
  requested_trials : Z;
  delays : delay_iterator;
  duration : Q;
  metadata_ : option metadata
}.

Definition with_trials (n : Z) (d : token) : token :=
  {| source := source d; trials := n; requested_trials := requested_trials d;
     delays := delays d; duration := duration d; metadata_ := metadata_ d |}.
Definition with_delays (it : delay_iterator) (d : token) : token :=
  {| source := source d; trials := trials d;
     requested_trials := requested_trials d;
     delays := it; duration := duration d; metadata_ := metadata_ d |}.

(** The [info] dictionary of a generated trial. *)
Record trial_info := mk_info {
  t0 : Q;                          (* Time re. acq. start *)
  info_duration : Q;               (* Duration of token *)
  key : uuid;                      (* Unique ID *)
  info_metadata : option metadata; (* Metadata re. token *)
  decrement : bool                 (* Automatically decr. trial ctr.? *)
}.

Inductive event :=
| added (info : trial_info)
| removed (info : trial_info)
| decrement_ (k : uuid).

Inductive queue_class :=
| FIFOSignalQueue
| InterleavedFIFOSignalQueue
| GroupedFIFOSignalQueue
| BlockedFIFOSignalQueue.

(** The attributes of a queue object.  [_i], [_complete] and [_group_size]
    belong to the subclasses that use them. *)
Record queue := mk_queue {
  kind : queue_class;             (* the class of the object *)
  _delay_samples : Z;             (* intertrial silence still to play *)
  _data : gmap uuid token;        (* token of each key *)
  _ordering : list uuid;          (* order of the keys added *)
  _source : option producer;      (* waveform of the current trial *)
  _samples : Z;                   (* total samples generated *)
  _paused : bool;                 (* is generation paused? *)
  _empty : bool;                  (* is the queue complete? *)
  _fs : option Q;                 (* sampling rate *)
  _t0 : Q;                        (* start of the queue re. acq. start *)
  _generated : list trial_info;   (* trials generated so far *)
  _i : Z;                         (* cursor (interleaved, grouped) *)
  _complete : bool;               (* flag of the interleaved queue *)
  _group_size : Z;                (* block size of the grouped queues *)
  notified : list event;          (* calls received by the listeners *)
  uuid_next : uuid                (* next key of uuid4 *)
}.

(** Assignment to one attribute. *)
Definition with_delay_samples (v : Z) (q : queue) : queue :=
  {| kind := kind q; _delay_samples := v; _data := _data q;
     _ordering := _ordering q; _source := _source q; _samples := _samples q;
     _paused := _paused q; _empty := _empty q; _fs := _fs q; _t0 := _t0 q;
     _generated := _generated q; _i := _i q; _complete := _complete q;
     _group_size := _group_size q; notified := notified q;
     uuid_next := uuid_next q |}.

Definition with_data (v : gmap uuid token) (q : queue) : queue :=
  {| kind := kind q; _delay_samples := _delay_samples q; _data := v;
     _ordering := _ordering q; _source := _source q; _samples := _samples q;
     _paused := _paused q; _empty := _empty q; _fs := _fs q; _t0 := _t0 q;
     _generated := _generated q; _i := _i q; _complete := _complete q;
     _group_size := _group_size q; notified := notified q;
     uuid_next := uuid_next q |}.

Definition with_ordering (v : list uuid) (q : queue) : queue :=
  {| kind := kind q; _delay_samples := _delay_samples q; _data := _data q;
     _ordering := v; _source := _source q; _samples := _samples q;
     _paused := _paused q; _empty := _empty q; _fs := _fs q; _t0 := _t0 q;
     _generated := _generated q; _i := _i q; _complete := _complete q;
     _group_size := _group_size q; notified := notified q;
     uuid_next := uuid_next q |}.

Definition with_source (v : option producer) (q : queue) : queue :=
  {| kind := kind q; _delay_samples := _delay_samples q; _data := _data q;
     _ordering := _ordering q; _source := v; _samples := _samples q;
     _paused := _paused q; _empty := _empty q; _fs := _fs q; _t0 := _t0 q;
     _generated := _generated q; _i := _i q; _complete := _complete q;
     _group_size := _group_size q; notified := notified q;
     uuid_next := uuid_next q |}.

Definition with_samples (v : Z) (q : queue) : queue :=
  {| kind := kind q; _delay_samples := _delay_samples q; _data := _data q;
     _ordering := _ordering q; _source := _source q; _samples := v;
     _paused := _paused q; _empty := _empty q; _fs := _fs q; _t0 := _t0 q;
     _generated := _generated q; _i := _i q; _complete := _complete q;
     _group_size := _group_size q; notified := notified q;
     uuid_next := uuid_next q |}.

Definition with_paused (v : bool) (q : queue) : queue :=
  {| kind := kind q; _delay_samples := _delay_samples q; _data := _data q;
     _ordering := _ordering q; _source := _source q; _samples := _samples q;
     _paused := v; _empty := _empty q; _fs := _fs q; _t0 := _t0 q;
     _generated := _generated q; _i := _i q; _complete := _complete q;
     _group_size := _group_size q; notified := notified q;
     uuid_next := uuid_next q |}.

Definition with_empty (v : bool) (q : queue) : queue :=
  {| kind := kind q; _delay_samples := _delay_samples q; _data := _data q;
     _ordering := _ordering q; _source := _source q; _samples := _samples q;
     _paused := _paused q; _empty := v; _fs := _fs q; _t0 := _t0 q;
     _generated := _generated q; _i := _i q; _complete := _complete q;
     _group_size := _group_size q; notified := notified q;
     uuid_next := uuid_next q |}.

Definition with_fs (v : option Q) (q : queue) : queue :=
  {| kind := kind q; _delay_samples := _delay_samples q; _data := _data q;
     _ordering := _ordering q; _source := _source q; _samples := _samples q;
     _paused := _paused q; _empty := _empty q; _fs := v; _t0 := _t0 q;
     _generated := _generated q; _i := _i q; _complete := _complete q;
     _group_size := _group_size q; notified := notified q;
     uuid_next := uuid_next q |}.

Definition with_t0 (v : Q) (q : queue) : queue :=
  {| kind := kind q; _delay_samples := _delay_samples q; _data := _data q;
     _ordering := _ordering q; _source := _source q; _samples := _samples q;
     _paused := _paused q; _empty := _empty q; _fs := _fs q; _t0 := v;
     _generated := _generated q; _i := _i q; _complete := _complete q;
     _group_size := _group_size q; notified := notified q;
     uuid_next := uuid_next q |}.

Definition with_generated (v : list trial_info) (q : queue) : queue :=
  {| kind := kind q; _delay_samples := _delay_samples q; _data := _data q;
     _ordering := _ordering q; _source := _source q; _samples := _samples q;
     _paused := _paused q; _empty := _empty q; _fs := _fs q; _t0 := _t0 q;
     _generated := v; _i := _i q; _complete := _complete q;
     _group_size := _group_size q; notified := notified q;
     uuid_next := uuid_next q |}.

Definition with_i (v : Z) (q : queue) : queue :=
  {| kind := kind q; _delay_samples := _delay_samples q; _data := _data q;
     _ordering := _ordering q; _source := _source q; _samples := _samples q;
     _paused := _paused q; _empty := _empty q; _fs := _fs q; _t0 := _t0 q;
     _generated := _generated q; _i := v; _complete := _complete q;
     _group_size := _group_size q; notified := notified q;
     uuid_next := uuid_next q |}.

Definition with_complete (v : bool) (q : queue) : queue :=
  {| kind := kind q; _delay_samples := _delay_samples q; _data := _data q;
     _ordering := _ordering q; _source := _source q; _samples := _samples q;
     _paused := _paused q; _empty := _empty q; _fs := _fs q; _t0 := _t0 q;
     _generated := _generated q; _i := _i q; _complete := v;
     _group_size := _group_size q; notified := notified q;
     uuid_next := uuid_next q |}.

Definition with_group_size (v : Z) (q : queue) : queue :=
  {| kind := kind q; _delay_samples := _delay_samples q; _data := _data q;
     _ordering := _ordering q; _source := _source q; _samples := _samples q;
     _paused := _paused q; _empty := _empty q; _fs := _fs q; _t0 := _t0 q;
     _generated := _generated q; _i := _i q; _complete := _complete q;
     _group_size := v; notified := notified q; uuid_next := uuid_next q |}.

Definition with_notified (v : list event) (q : queue) : queue :=
  {| kind := kind q; _delay_samples := _delay_samples q; _data := _data q;
     _ordering := _ordering q; _source := _source q; _samples := _samples q;
     _paused := _paused q; _empty := _empty q; _fs := _fs q; _t0 := _t0 q;
     _generated := _generated q; _i := _i q; _complete := _complete q;
     _group_size := _group_size q; notified := v;
     uuid_next := uuid_next q |}.

Definition with_uuid_next (v : uuid) (q : queue) : queue :=
  {| kind := kind q; _delay_samples := _delay_samples q; _data := _data q;
     _ordering := _ordering q; _source := _source q; _samples := _samples q;
     _paused := _paused q; _empty := _empty q; _fs := _fs q; _t0 := _t0 q;
     _generated := _generated q; _i := _i q; _complete := _complete q;
     _group_size := _group_size q; notified := notified q; uuid_next := v |}.

(** [__init__] of each class.  [RandomSignalQueue] and
    [BlockedRandomSignalQueue] draw from numpy's generators and are not
    part of this development. *)
Definition init (cls : queue_class) (fs : option Q) (group_size : Z) : queue :=
  {| kind := cls; _delay_samples := 0; _data := ∅; _ordering := [];
     _source := None; _samples := 0; _paused := false; _empty := false;
     _fs := fs; _t0 := 0%Q; _generated := [];
     _i := -1; _complete := false;
     _group_size := match cls with
                    | GroupedFIFOSignalQueue => group_size
                    | _ => 0
                    end;
     notified := []; uuid_next := 0%N |}.

(** *** The monad of methods *)

Definition M (A : Type) : Type := queue -> outcome A * queue.

Definition ret {A} (a : A) : M A := fun q => (Ok a, q).
Definition raise {A} (e : exn) : M A := fun q => (Raise e, q).
Definition bind {A B} (m : M A) (f : A -> M B) : M B :=
  fun q => match m q with
           | (Ok a, q') => f a q'
           | (Raise e, q') => (Raise e, q')
           end.
Definition gets {A} (f : queue -> A) : M A := fun q => (Ok (f q), q).
Definition modify (f : queue -> queue) : M unit := fun q => (Ok tt, f q).
Definition lift {A} (o : outcome A) : M A := fun q => (o, q).

Notation "x <- m ;; k" := (bind m (fun x => k))
  (at level 20, m at level 99, k at level 200, only parsing).
Notation "' pat <- m ;; k" := (bind m (fun x => match x with pat => k end))
  (at level 20, pat pattern, m at level 99, k at level 200, only parsing).
Notation "m ;;; k" := (bind m (fun _ => k))
  (at level 100, k at level 200, only parsing, right associativity).

(** [for x in l: body(x)] *)
Fixpoint for_each {A} (l : list A) (body : A -> M unit) : M unit :=
  match l with
  | [] => ret tt
  | x :: l' => body x ;;; for_each l' body
  end.

(** [self._fs] where a number is needed *)
Definition the_fs : M Q :=
  fs <- gets _fs ;;
  match fs with
  | Some fs => ret fs
  | None => raise (TypeError "unsupported operand type(s): NoneType")
  end.

(** [x / y] on floats *)
Definition py_div (x y : Q) : M Q :=
  if Qeq_bool y 0 then raise ZeroDivisionError else ret (x / y)%Q.

(** [self._data[key]] *)
Definition data_at (k : uuid) : M token :=
  d <- gets _data ;;
  match d !! k with
  | Some tok => ret tok
  | None => raise (KeyError "key")
  end.

(** [self._data[key]['trials'] += n] *)
Definition add_trials (k : uuid) (n : Z) : M unit :=
  tok <- data_at k ;;
  modify (fun q => with_data (<[k := with_trials (trials tok + n) tok]> (_data q)) q).

Definition get_ts : M Q :=
  s <- gets _samples ;;
  fs <- the_fs ;;
  py_div (inject_Z s) fs.

Definition remaining_trials (k : uuid) : M Z :=
  tok <- data_at k ;; ret (trials tok).

Definition _notify (e : event) : M unit :=
  modify (fun q => with_notified (notified q ++ [e]) q).

Definition rewind_samples (t : Q) : M unit :=
  get_ts ;;;                                    (* argument of log.debug *)
  fs <- the_fs ;;
  base <- gets _t0 ;;
  s <- gets _samples ;;
  let t_samples := py_round (t * fs) in
  let t0_samples := py_round (base * fs) in
  let new_sample := t_samples - t0_samples in
  if new_sample >? s then
    raise (ValueError "Cannot rewind past last sample generated.")
  else modify (with_samples (t_samples - t0_samples)).

Definition cancel (t delay : Q) : M unit :=
  g <- gets _generated ;;
  for_each (rev g) (fun info =>
    if Qle_bool (t0 info + info_duration info) t then ret tt
    else _notify (removed info)) ;;;
  src <- gets _source ;;
  match src with
  | Some _ =>
      g <- gets _generated ;;
      info <- lift (py_index g (-1)) ;;
      (if decrement info then add_trials (key info) 1 else ret tt) ;;;
      modify (with_source None)
  | None => ret tt
  end ;;;
  fs <- the_fs ;;
  modify (with_delay_samples (py_round (delay * fs))).

(** Requeues all trials scheduled after [t]. *)
Definition requeue (t : Q) : M unit :=
  g <- gets _generated ;;
  let to_requeue :=
    map key
      (List.filter (fun info => decrement info)
         (List.filter
            (fun info => negb (Qle_bool (t0 info + info_duration info) t))
            (rev g))) in
  for_each to_requeue (fun k =>
    o <- gets _ordering ;;
    if bool_decide (k ∈ o) then ret tt
    else modify (with_ordering (k :: o))) ;;;
  for_each (Counter to_requeue) (fun '(k, count) => add_trials k count).

Definition pause (t : option Q) : M unit :=
  modify (with_paused true) ;;;
  match t with
  | Some t => cancel t 0 ;;; requeue t ;;; rewind_samples t
  | None => ret tt
  end.

Definition resume (t : option Q) : M unit :=
  get_ts ;;;                                    (* argument of log.debug *)
  match t with
  | Some t => rewind_samples t
  | None => ret tt
  end ;;;
  modify (with_paused false).

Definition is_empty (q : queue) : bool := _empty q.

Definition set_fs (fs : Q) : M unit := modify (with_fs (Some fs)).
Definition set_t0 (t : Q) : M unit := modify (with_t0 t).

Definition _add_source (src : producer) (n : Z) (dl : delays_arg)
    (dur : option Q) (md : option metadata) : M uuid :=
  k <- gets uuid_next ;;
  modify (fun q => with_uuid_next (N.succ k) q) ;;;
  dur <- match dur with
         | Some d => ret d
         | None =>
             match src with
             | Waveform w => fs <- the_fs ;; py_div (inject_Z (len w)) fs
             | Generator g => ret (get_duration g)
             end
         end ;;
  let data := {| source := src; trials := n; requested_trials := n;
                 delays := as_iterator dl; duration := dur;
                 metadata_ := md |} in
  modify (fun q => with_data (<[k := data]> (_data q)) q) ;;;
  ret k.

(** [insert] passes one argument to [list.insert], which takes two. *)
Definition insert (src : producer) (n : Z) (dl : delays_arg)
    (dur : option Q) (md : option metadata) : M uuid :=
  k <- _add_source src n dl dur md ;;
  @raise unit (TypeError "insert expected 2 arguments, got 1") ;;;
  ret k.

Definition append (src : producer) (n : Z) (dl : delays_arg)
    (dur : option Q) (md : option metadata) : M uuid :=
  cls <- gets kind ;;
  match cls with
  | BlockedFIFOSignalQueue =>
      modify (fun q => with_group_size (_group_size q + 1) q)
  | _ => ret tt
  end ;;;
  k <- _add_source src n dl dur md ;;
  modify (fun q => with_ordering (_ordering q ++ [k]) q) ;;;
  ret k.

(** An argument of [extend] is a scalar ([np.iterable] is false) or a
    sequence. *)
Inductive param (A : Type) :=
| Scalar (x : A)
| Sequence (l : list A).
Arguments Scalar {A} x.
Arguments Sequence {A} l.

Definition base_err : list piece :=
  [Field "param"; Lit " must be a scalar or a sequence of length "; Field "n"].

(** The test of one argument of [extend]; the result is what [zip]
    iterates over, a cycle being cut at [n] elements. *)
Definition check_param {A} (name : string) (p : param A) (n : nat) : M (list A) :=
  match p with
  | Sequence l =>
      if bool_decide (length l = n) then ret l
      else
        msg <- lift (str_format base_err [PStr name; PInt (Z.of_nat n)] []) ;;
        raise (ValueError msg)
  | Scalar x => ret (repeat x n)
  end.

Fixpoint zip5 {A B C D E} (la : list A) (lb : list B) (lc : list C)
    (ld : list D) (le : list E) : list (A * B * C * D * E) :=
  match la, lb, lc, ld, le with
  | a :: la, b :: lb, c :: lc, d :: ld, e :: le =>
      (a, b, c, d, e) :: zip5 la lb lc ld le
  | _, _, _, _, _ => []
  end.

Fixpoint extend_loop (args : list (producer * Z * delays_arg * option Q * option metadata))
    (uuids : list uuid) : M (list uuid) :=
  match args with
  | [] => ret uuids
  | (src, n, dl, dur, md) :: rest =>
      k <- append src n dl dur md ;;
      extend_loop rest (uuids ++ [k])
  end.

Definition extend (sources : list producer) (n : param Z)
    (dl : param delays_arg) (dur : param (option Q))
    (md : param (option metadata)) : M (list uuid) :=
  let count := length sources in
  n <- check_param "trials" n count ;;
  dl <- check_param "delays" dl count ;;
  dur <- check_param "duration" dur count ;;
  md <- check_param "metadata" md count ;;
  extend_loop (zip5 sources n dl dur md) [].

Definition count_factories (q : queue) : Z := len (_ordering q).

(** Count remaining trials *)
Definition count_trials (q : queue) : Z :=
  match kind q with
  | InterleavedFIFOSignalQueue =>
      map_fold (fun _ v acc => acc + Z.max (trials v) 0) 0 (_data q)
  | _ => map_fold (fun _ v acc => acc + trials v) 0 (_data q)
  end.

(** Count total trials *)
Definition count_requested_trials (q : queue) : Z :=
  map_fold (fun _ v acc => acc + requested_trials v) 0 (_data q).

(** [x % y] *)
Definition py_mod (x y : Z) : M Z :=
  if y =? 0 then raise ZeroDivisionError else ret (x mod y).

Definition next_key : M uuid :=
  cls <- gets kind ;;
  match cls with
  | FIFOSignalQueue =>
      o <- gets _ordering ;;
      if len o =? 0 then raise QueueEmptyError
      else lift (py_index o 0)
  | InterleavedFIFOSignalQueue =>
      c <- gets _complete ;;
      if c then raise QueueEmptyError
      else
        i <- gets _i ;;
        o <- gets _ordering ;;
        i' <- py_mod (i + 1) (len o) ;;
        modify (with_i i') ;;;
        lift (py_index o i')
  | GroupedFIFOSignalQueue | BlockedFIFOSignalQueue =>
      o <- gets _ordering ;;
      if len o =? 0 then raise QueueEmptyError
      else
        i <- gets _i ;;
        gs <- gets _group_size ;;
        i' <- py_mod (i + 1) gs ;;
        modify (with_i i') ;;;
        lift (py_index o i')
  end.

(** Removes key from queue entirely, regardless of number of trials *)
Definition remove_key (k : uuid) : M unit :=
  o <- gets _ordering ;;
  match list_remove k o with
  | Some o' => modify (with_ordering o')
  | None => raise (ValueError "list.remove(x): x not in list")
  end.

Definition key_in_queue (k : uuid) : M unit :=
  o <- gets _ordering ;;
  if bool_decide (k ∈ o) then ret tt
  else raise (KeyError "{} not in queue").

(** [for key in keys: if self._data[key]['trials'] > 0: return False] *)
Fixpoint any_trials_left (keys : list uuid) : M bool :=
  match keys with
  | [] => ret false
  | k :: rest =>
      tok <- data_at k ;;
      if trials tok >? 0 then ret true else any_trials_left rest
  end.

(** Decrement trials for key.  Returns True if no trials left for key,
    False otherwise. *)
Definition decrement_key (k : uuid) (n : Z) : M bool :=
  cls <- gets kind ;;
  match cls with
  | FIFOSignalQueue =>
      key_in_queue k ;;;
      add_trials k (- n) ;;;
      left <- remaining_trials k ;;
      if left <=? 0 then remove_key k ;;; ret true
      else _notify (decrement_ k) ;;; ret false
  | InterleavedFIFOSignalQueue =>
      key_in_queue k ;;;
      add_trials k (- n) ;;;
      d <- gets _data ;;
      if bool_decide (map_Forall (fun _ tok => trials tok <= 0) d)
      then modify (with_complete true) ;;; ret true
      else ret false
  | GroupedFIFOSignalQueue | BlockedFIFOSignalQueue =>
      key_in_queue k ;;;
      add_trials k (- n) ;;;
      o <- gets _ordering ;;
      gs <- gets _group_size ;;
      (* Check to see if the group is complete. *)
      busy <- any_trials_left (py_prefix o gs) ;;
      if busy then ret false
      else
        (* If complete, remove the keys *)
        o <- gets _ordering ;;
        for_each (py_prefix o gs) remove_key ;;;
        ret true
  end.

(** Removes one trial of specified key from queue and returns waveform *)
Definition pop_key (k : uuid) (decr : bool) : M token :=
  data <- data_at k ;;
  (if decr then decrement_key k 1 ;;; ret tt else ret tt) ;;;
  ret data.

Definition pop_next (decr : bool) : M (uuid * token) :=
  k <- next_key ;;
  data <- pop_key k decr ;;
  ret (k, data).

Definition _get_samples_waveform (w : list sample) (samples : Z) : M (list sample) :=
  if samples >? len w then
    modify (with_source None) ;;; ret w
  else
    modify (with_source (Some (Waveform (py_suffix w samples)))) ;;;
    ret (py_prefix w samples).

Definition _get_samples_generator (g : generator) (samples : Z) : M (list sample) :=
  let samples := Z.min (n_samples_remaining g) samples in
  let '(waveform, g') := next g samples in
  (if is_complete g' then modify (with_source None)
   else modify (with_source (Some (Generator g')))) ;;;
  ret waveform.

(** [self._get_samples], bound by [next_trial] to the reader of the
    source it has just installed. *)
Definition _get_samples (src : producer) (samples : Z) : M (list sample) :=
  match src with
  | Waveform w => _get_samples_waveform w samples
  | Generator g => _get_samples_generator g samples
  end.

(** [next(data['delays'])]; the iterator lives in the token. *)
Definition next_delay (k : uuid) : M Q :=
  tok <- data_at k ;;
  match delays tok with
  | Cycle x => ret x
  | Iter [] => raise StopIteration
  | Iter (x :: rest) =>
      modify (fun q => with_data (<[k := with_delays (Iter rest) tok]> (_data q)) q) ;;;
      ret x
  end.

(** Setup the next trial.  The generator of a token is reset here before it
    is read, so the position of the one being played, kept in [_source], is
    the only one that matters. *)
Definition next_trial (decr : bool) : M unit :=
  '(k, data) <- pop_next decr ;;
  (* If generator, be sure to reset. *)
  modify (with_source (Some match source data with
                           | Generator g => Generator (reset g)
                           | Waveform w => Waveform w
                           end)) ;;;
  (* Now, determine the next ITI *)
  delay <- next_delay k ;;
  fs <- the_fs ;;
  modify (with_delay_samples (py_round (delay * fs))) ;;;
  ds <- gets _delay_samples ;;
  (if ds <? 0 then raise (ValueError "Invalid option for delay samples")
   else ret tt) ;;;
  base <- gets _t0 ;;
  s <- gets _samples ;;
  ts <- py_div (inject_Z s) fs ;;
  let info := {| t0 := (base + ts)%Q;
                 info_duration := duration data;
                 key := k;
                 info_metadata := metadata_ data;
                 decrement := decr |} in
  modify (fun q => with_generated (_generated q ++ [info]) q) ;;;
  _notify (added info).

(** Encodes logic for deciding what segment needs to be generated. *)
Definition _pop_buffer (samples : Z) (decr : bool) : M (list sample) :=
  paused <- gets _paused ;;
  if paused : bool then lift (np_zeros samples)
  else
    src <- gets _source ;;
    match src with
    | Some src => _get_samples src samples
    | None =>
        ds <- gets _delay_samples ;;
        if ds >? 0 then
          let n := Z.min ds samples in
          modify (with_delay_samples (ds - n)) ;;;
          lift (np_zeros n)
        else
          next_trial decr ;;; ret []
    end.

(** The loop of [pop_buffer].  [fuel] bounds the number of iterations;
    [None] is a run that needs more. *)
Fixpoint pop_buffer_loop (fuel : nat) (samples : Z) (decr : bool)
    (waveforms : list (list sample)) (q : queue)
    : option (outcome (list (list sample)) * queue) :=
  if samples >? 0 then
    match fuel with
    | O => None
    | S fuel =>
        match _pop_buffer samples decr q with
        | (Ok waveform, q) =>
            pop_buffer_loop fuel (samples - len waveform) decr
              (waveforms ++ [waveform])
              (with_samples (_samples q + len waveform) q)
        | (Raise QueueEmptyError, q) =>
            match np_zeros samples with
            | Ok waveform =>
                let q := with_empty true q in
                pop_buffer_loop fuel (samples - len waveform) decr
                  (waveforms ++ [waveform])
                  (with_samples (_samples q + len waveform) q)
            | Raise e => Some (Raise e, q)
            end
        | (Raise e, q) => Some (Raise e, q)
        end
    end
  else Some (Ok waveforms, q).

(** Return the requested number of samples *)
Definition pop_buffer (fuel : nat) (samples : Z) (decr : bool) (q : queue)
    : option (outcome (list sample) * queue) :=
  match pop_buffer_loop fuel samples decr [] q with
  | Some (Ok waveforms, q) => Some (np_concatenate waveforms, q)
  | Some (Raise e, q) => Some (Raise e, q)
  | None => None
  end.

Definition get_closest_key (t : Q) (q : queue) : option uuid :=
  match List.filter (fun info => Qle_bool (t0 info) t) (rev (_generated q)) with
  | info :: _ => Some (key info)
  | [] => None
  end.

Definition get_info (k : uuid) : M token := data_at k.


(** *** get_max_duration *)

(** [for x in l] collecting the values of [f(x)]. *)
Fixpoint for_all {A B} (l : list A) (f : A -> M B) : M (list B) :=
  match l with
  | [] => ret []
  | x :: l' => y <- f x ;; ys <- for_all l' f ;; ret (y :: ys)
  end.

(** [max(iterable)] on floats: the first of the largest. *)
Definition py_max (l : list Q) : outcome Q :=
  match l with
  | [] => Raise (ValueError "max() arg is an empty sequence")
  | x :: rest => Ok (fold_left (fun m y => if Qle_bool y m then m else y) rest x)
  end.

(** The local function [get_duration(source)] of [get_max_duration]: the
    duration of a generator is asked of it (see [generator]), an array has
    no [get_duration] and its length is divided by [self._fs]. *)
Definition get_duration_of (src : producer) : M Q :=
  match src with
  | Generator g => ret (get_duration g)
  | Waveform w => fs <- the_fs ;; py_div (inject_Z (len w)) fs
  end.

(** The tokens are taken in the order of [map_to_list]; the largest
    duration is the same number in any order. *)
Definition get_max_duration : M Q :=
  d <- gets _data ;;
  ds <- for_all (map snd (map_to_list d)) (fun tok => get_duration_of (source tok)) ;;
  lift (py_max ds).
End Queue.

(** ** pipeline.py *)

Module Pipeline.

Import Queue.

(** A request of the queue: the [info] dictionary of the 'added' event, to
    which [extract_epochs] adds two entries. *)
Record epoch_info := mk_epoch_info {
  trial : trial_info;
  poststim_time : option Q;
  epoch_size : option Q
}.

(** What the callback receives: [{'signal': ..., 'info': ...}], the signal
    being [None] for a missed epoch. *)
Record epoch := mk_epoch {
  signal : option (list sample);
  info : epoch_info
}.

(** *** capture_epoch *)

(** The local variables of the coroutine while it waits at [yield]. *)
Record capture := mk_capture {
  epoch_t0 : Z;
  epoch_samples : Z;
  capture_info : epoch_info;
  accumulated_data : list (list sample)
}.

(** The result of [send]: the coroutine is back at [yield], or it has
    called the callback and left the loop (StopIteration). *)
Inductive sent :=
| Yield (c : capture)
| Stop (e : epoch).

(** One turn of the loop of [capture_epoch], from [(yield)] to the next. *)
Definition capture_send (c : capture) (tlb : Z) (data : list sample) : sent :=
  let samples := len data in
  if epoch_t0 c <? tlb then
    (* We have missed the start of the epoch. *)
    Stop {| signal := None; info := capture_info c |}
  else if epoch_t0 c <=? tlb + samples then
    let i := epoch_t0 c - tlb in
    let d := Z.min (epoch_samples c) (samples - i) in
    let accumulated := accumulated_data c ++ [py_slice data i (i + d)] in
    let t0' := epoch_t0 c + d in
    let samples' := epoch_samples c - d in
    if samples' =? 0 then
      Stop {| signal := Some (concat accumulated); info := capture_info c |}
    else
      Yield {| epoch_t0 := t0'; epoch_samples := samples';
               capture_info := capture_info c;
               accumulated_data := accumulated |}
  else Yield c.

(** [capture_epoch(epoch_t0, epoch_samples, info, callback)], started. *)
Definition capture_epoch (t0 samples : Z) (i : epoch_info) : capture :=
  {| epoch_t0 := t0; epoch_samples := samples; capture_info := i;
     accumulated_data := [] |}.

(** [for prior_sample in prior_samples: epoch_coroutine.send(prior_sample)] *)
Fixpoint send_all (c : capture) (chunks : list (Z * list sample)) : sent :=
  match chunks with
  | [] => Yield c
  | (tlb, data) :: rest =>
      match capture_send c tlb data with
      | Yield c' => send_all c' rest
      | Stop e => Stop e
      end
  end.

(** *** extract_epochs *)

(** The arguments of [extract_epochs] that are numbers. *)
Record settings := mk_settings {
  fs : Q;
  cfg_epoch_size : Q;
  cfg_poststim_time : Q;
  buffer_size : Q
}.

Definition buffer_samples (cfg : settings) : Z :=
  py_round (buffer_size cfg * fs cfg).

Definition epoch_key : Type := Q * uuid.

Definition key_eqb (a b : epoch_key) : bool :=
  Qeq_bool (fst a) (fst b) && N.eqb (snd a) (snd b).

Definition key_of (i : trial_info) : epoch_key := (t0 i, key i).

(** The local variables of [extract_epochs] while it waits at [yield].
    [epoch_coroutines] is a dictionary; its items are kept in insertion
    order.  [empty_queue_cb] tells whether the callback is still set. *)
Record extractor := mk_extractor {
  tlb : Z;
  epoch_coroutines : list (epoch_key * capture);
  prior_samples : list (Z * list sample);
  empty_queue_cb : bool
}.

Definition start (cb : bool) : extractor :=
  {| tlb := 0; epoch_coroutines := []; prior_samples := [];
     empty_queue_cb := cb |}.

(** What one chunk makes the extractor do to the outside: the call of
    [target], if any, and whether [empty_queue_cb] was called. *)
Record effects := mk_effects {
  target : option (list epoch);
  empty_queue_called : bool
}.

Definition has_key (k : epoch_key) (d : list (epoch_key * capture)) : bool :=
  existsb (fun kc => key_eqb (fst kc) k) d.

Definition dict_pop (k : epoch_key) (d : list (epoch_key * capture))
    : list (epoch_key * capture) :=
  List.filter (fun kc => negb (key_eqb (fst kc) k)) d.

(** [skip.remove(key)] *)
Fixpoint skip_remove (k : epoch_key) (skip : list epoch_key) : list epoch_key :=
  match skip with
  | [] => []
  | k' :: rest => if key_eqb k' k then rest else k' :: skip_remove k rest
  end.

(** The loop over [removed_queue]. *)
Fixpoint process_removed (removed : list trial_info)
    (cos : list (epoch_key * capture)) (skip : list epoch_key)
    : list (epoch_key * capture) * list epoch_key :=
  match removed with
  | [] => (cos, skip)
  | i :: rest =>
      let md := key_of i in
      if has_key md cos then process_removed rest (dict_pop md cos) skip
      else process_removed rest cos (skip ++ [md])
  end.

(** Send the data to each coroutine; one that stops has delivered its
    epoch and is removed. *)
Fixpoint send_each (cos : list (epoch_key * capture)) (tlb : Z)
    (data : list sample) : list (epoch_key * capture) * list epoch :=
  match cos with
  | [] => ([], [])
  | (k, c) :: rest =>
      let '(cos', es) := send_each rest tlb data in
      match capture_send c tlb data with
      | Yield c' => ((k, c') :: cos', es)
      | Stop e => (cos', e :: es)
      end
  end.

(** The loop over [queue]. *)
Fixpoint process_queue (cfg : settings) (queue : list trial_info)
    (prior : list (Z * list sample)) (skip : list epoch_key)
    (cos : list (epoch_key * capture)) (epochs : list epoch)
    : outcome (list (epoch_key * capture) * list epoch) :=
  match queue with
  | [] => Ok (cos, epochs)
  | i :: rest =>
      let k := key_of i in
      if existsb (fun k' => key_eqb k' k) skip then
        process_queue cfg rest prior (skip_remove k skip) cos epochs
      else
        (* Figure out how many samples to capture for that epoch *)
        let t0 := py_round (Queue.t0 i * fs cfg) in
        let size := if Qeq_bool (cfg_epoch_size cfg) 0 then info_duration i
                    else cfg_epoch_size cfg in
        let i' := {| trial := i;
                     poststim_time := Some (cfg_poststim_time cfg);
                     epoch_size := Some size |} in
        let total_epoch_size := (size + cfg_poststim_time cfg)%Q in
        let samples := py_round (total_epoch_size * fs cfg) in
        match send_all (capture_epoch t0 samples i') prior with
        | Stop e => process_queue cfg rest prior skip cos (epochs ++ [e])
        | Yield c =>
            if has_key k cos then
              Raise (ValueError "Duplicate epochs not supported")
            else process_queue cfg rest prior skip (cos ++ [(k, c)]) epochs
        end
  end.

(** Discard the cached samples older than [buffer_samples]. *)
Fixpoint discard_old (prior : list (Z * list sample)) (tlb bs : Z)
    : outcome (list (Z * list sample)) :=
  match prior with
  | [] => Raise IndexError
  | (lb, data) :: rest =>
      let tub := lb + len data in
      if tub <? tlb - bs then discard_old rest tlb bs
      else Ok prior
  end.

(** One turn of the loop of [extract_epochs]: [data] is the chunk sent,
    [removed] and [queue] are what the two deques hold at that moment. *)
Definition extract_step (cfg : settings) (x : extractor)
    (data : list sample) (removed queue : list trial_info)
    : outcome (extractor * effects) :=
  let prior := prior_samples x ++ [(tlb x, data)] in
  let '(cos, skip) := process_removed removed (epoch_coroutines x) [] in
  let '(cos, epochs) := send_each cos (tlb x) data in
  match process_queue cfg queue prior skip cos epochs with
  | Raise e => Raise e
  | Ok (cos, epochs) =>
      let tlb' := tlb x + len data in
      let out := match epochs with
                 | [] => None
                 | _ => Some epochs
                 end in
      match discard_old prior tlb' (buffer_samples cfg) with
      | Raise e => Raise e
      | Ok prior =>
          let call := match cos with
                      | [] => empty_queue_cb x
                      | _ => false
                      end in
          Ok ({| tlb := tlb';
                 epoch_coroutines := cos;
                 prior_samples := prior;
                 empty_queue_cb := if call then false else empty_queue_cb x |},
              {| target := out; empty_queue_called := call |})
      end
  end.

(** A chunk with the contents of the two deques when it arrives. *)
Record delivery := mk_delivery {
  chunk : list sample;
  removals : list trial_info;
  requests : list trial_info
}.

(** The extractor driven by a sequence of deliveries; the effects are
    listed in order. *)
Fixpoint extract_run (cfg : settings) (x : extractor) (ds : list delivery)
    : outcome (extractor * list effects) :=
  match ds with
  | [] => Ok (x, [])
  | d :: rest =>
      match extract_step cfg x (chunk d) (removals d) (requests d) with
      | Raise e => Raise e
      | Ok (x', eff) =>
          match extract_run cfg x' rest with
          | Raise e => Raise e
          | Ok (x'', effs) => Ok (x'', eff :: effs)
          end
      end
  end.

End Pipeline.

(** ** Statements about queue.py: states and predicates *)

Module QueueSpec.

Import Queue.

(** *** Calls and what they keep *)

(** The result and the final state of a method call. *)
Definition result {A} (m : M A) (q : queue) : outcome A := fst (m q).
Definition after {A} (m : M A) (q : queue) : queue := snd (m q).

(** The state a call of [pop_buffer] leaves. *)
Definition state_of {A} (r : option (outcome A * queue)) (q : queue) : queue :=
  match r with
  | Some (_, q') => q'
  | None => q
  end.

(** A method that leaves a relation between the states before and after,
    whatever its result. *)
Definition keeps {A} (R : queue -> queue -> Prop) (m : M A) : Prop :=
  forall q, R q (after m q).

Definition same_ordering (q q' : queue) : Prop := _ordering q' = _ordering q.
Definition same_samples (q q' : queue) : Prop := _samples q' = _samples q.
Definition same_data (q q' : queue) : Prop := _data q' = _data q.
Definition same_source (q q' : queue) : Prop := _source q' = _source q.

(** *** The queues of the scenarios *)

(** A 5-sample waveform and a FIFO queue at 100 Hz, as in the first
    scenario of the specification, and the queue with one trial of the
    waveform queued. *)
Definition ramp : producer := Waveform [1; 2; 3; 4; 5].
Definition fifo_100Hz : queue := init FIFOSignalQueue (Some 100%Q) 0.
Definition one_ramp : queue :=
  after (append ramp 1 (DSeq [0%Q]) None None) fifo_100Hz.



Definition fifo_10Hz : queue := init FIFOSignalQueue (Some 10%Q) 0.

(** *** extend *)

(** A sequence argument of [extend] of the wrong length. *)
Definition mismatched {A} (p : param A) (n : nat) : Prop :=
  match p with
  | Sequence l => length l <> n
  | Scalar _ => False
  end.

(** *** The interleaved queue *)

(** No token has a trial left. *)
Definition no_trials_left (d : gmap uuid token) : Prop :=
  map_Forall (fun _ tok => trials tok <= 0) d.

#[global] Instance no_trials_left_dec d : Decision (no_trials_left d).
Proof. unfold no_trials_left. apply _. Defined.



(** *** The loop of pop_buffer *)

(** The configurations of the loop of [pop_buffer(n)] started in [q0]:
    after [i] iterations that raised nothing, [samples] are still to be
    produced, [ws] has been collected and the queue is [q]. *)
Inductive loop_reaches (decr : bool) (n : Z) (q0 : queue)
    : nat -> Z -> list (list sample) -> queue -> Prop :=
| reaches_start : loop_reaches decr n q0 0 n [] q0
| reaches_next i samples ws q w q1 :
    loop_reaches decr n q0 i samples ws q ->
    0 < samples ->
    _pop_buffer samples decr q = (Ok w, q1) ->
    loop_reaches decr n q0 (S i) (samples - len w) (ws ++ [w])
      (with_samples (_samples q1 + len w) q1).

(** The state of the loop of [pop_buffer(8)] on [one_ramp] after it has
    started the trial, and after it has played its five samples. *)
Definition one_ramp_started : queue :=
  with_samples (_samples (after (_pop_buffer 8 true) one_ramp) + 0)
    (after (_pop_buffer 8 true) one_ramp).
Definition one_ramp_played : queue :=
  with_samples (_samples (after (_pop_buffer 8 true) one_ramp_started) + 5)
    (after (_pop_buffer 8 true) one_ramp_started).

(** *** The FIFO queue on which every call returns *)


(** The read position of a generator being played is not negative. *)
Definition source_ok (src : option producer) : Prop :=
  match src with
  | Some (Generator g) => 0 <= gen_pos g
  | _ => True
  end.











(** *** Every call ends when the waveforms have samples *)

(** A source that is not an empty waveform. *)
Definition nonempty (src : producer) : Prop :=
  match src with
  | Waveform w => w <> []
  | Generator g => gen_wave g <> []
  end.

(** A generator being played is not complete. *)
Definition source_valid (src : option producer) : Prop :=
  match src with
  | Some (Generator g) => 0 <= gen_pos g < len (gen_wave g)
  | _ => True
  end.

(** Every waveform has a sample, and a generator being played is not
    complete. *)
Definition well_sourced (q : queue) : Prop :=
  map_Forall (fun _ tok => nonempty (source tok)) (_data q) /\
  source_valid (_source q).



(** *** The times of the records *)

(** The times [t0] of the records given to the listeners of 'added', in
    the order of the calls. *)
Definition added_t0s (log : list event) : list Q :=
  flat_map (fun e => match e with
                     | added info => [t0 info]
                     | _ => []
                     end) log.







(** What the methods other than [pop_buffer] and [rewind_samples] leave
    alone. *)
Definition frame (q q' : queue) : Prop :=
  _samples q' = _samples q /\ _t0 q' = _t0 q /\ _fs q' = _fs q /\
  added_t0s (notified q') = added_t0s (notified q) /\
  (_source q' = _source q \/ _source q' = None) /\
  (map_Forall (fun _ tok => nonempty (source tok)) (_data q) ->
   map_Forall (fun _ tok => nonempty (source tok)) (_data q')).

(** The calls of a session. *)
Inductive call :=
| call_pop_buffer (fuel : nat) (samples : Z) (decr : bool)
| call_append (src : producer) (n : Z) (dl : delays_arg) (dur : option Q)
    (md : option metadata)
| call_cancel (t delay : Q)
| call_requeue (t : Q)
| call_pause (t : option Q)
| call_resume (t : option Q)
| call_rewind_samples (t : Q).

(** The state after a call, whether it returned or raised; a call of
    [pop_buffer] that [fuel] iterations do not finish leaves the state as
    it was. *)
Definition run_call (c : call) (q : queue) : queue :=
  match c with
  | call_pop_buffer fuel samples decr =>
      state_of (pop_buffer fuel samples decr q) q
  | call_append src n dl dur md => after (append src n dl dur md) q
  | call_cancel t delay => after (cancel t delay) q
  | call_requeue t => after (requeue t) q
  | call_pause t => after (pause t) q
  | call_resume t => after (resume t) q
  | call_rewind_samples t => after (rewind_samples t) q
  end.

Definition run_session (cs : list call) (q : queue) : queue :=
  fold_left (fun q c => run_call c q) cs q.


(** A session that pauses at time 0 in the middle of its first trial. *)
Definition rewound_session : list call :=
  [ call_append (Waveform (repeat 7 10)) 2 (DScalar 0) None None;
    call_pop_buffer 10 5 true;
    call_pause (Some 0%Q);
    call_resume None;
    call_pop_buffer 10 5 true ].


(** A session that never sets the sample clock. *)
Definition forward_session : list call :=
  [ call_append (Waveform (repeat 7 10)) 3 (DScalar 0) None None;
    call_pop_buffer 10 5 true;
    call_cancel (1 # 4) 0;
    call_requeue (1 # 4);
    call_pause None;
    call_pop_buffer 10 5 true;
    call_resume None;
    call_pop_buffer 10 25 true ].

(** *** Requests cut in two *)

(** A method that never raises QueueEmptyError. *)
Definition quiet {A} (m : M A) : Prop :=
  forall q q', m q <> (Raise QueueEmptyError, q').

(** The read position of a generator that is not negative stays so. *)
Definition source_stays_ok (q q' : queue) : Prop :=
  source_ok (_source q) -> source_ok (_source q').

(** *** Adding tokens *)

(** The duration that [_add_source] stores. *)
Definition stored_duration (src : producer) (dur : option Q) (fs : option Q)
    : option Q :=
  match dur, src, fs with
  | Some d, _, _ => Some d
  | None, Generator g, _ => Some (get_duration g)
  | None, Waveform w, Some f =>
      if Qeq_bool f 0 then None else Some (inject_Z (len w) / f)%Q
  | None, Waveform w, None => None
  end.

(** The token that [_add_source] stores. *)
Definition new_token (src : producer) (n : Z) (dl : delays_arg) (d : Q)
    (md : option metadata) : token :=
  {| source := src; trials := n; requested_trials := n;
     delays := as_iterator dl; duration := d; metadata_ := md |}.

(** [append] of the blocked queue counts the token in its block. *)
Definition counted (q : queue) : queue :=
  match kind q with
  | BlockedFIFOSignalQueue => with_group_size (_group_size q + 1) q
  | _ => q
  end.

(** *** extend *)

(** The value of an argument of [extend] for the source of rank [i]. *)
Definition param_at {A} (p : param A) (i : nat) : option A :=
  match p with
  | Scalar x => Some x
  | Sequence l => l !! i
  end.

(** Two ramps with one and two trials. *)
Definition two_ramps : outcome (list uuid) * queue :=
  extend [ramp; ramp] (Sequence [1; 2]) (Scalar DNone) (Scalar None)
    (Scalar None) fifo_100Hz.

(** *** Counting trials *)

(** What a token counts for in [count_trials]. *)
Definition left_of (cls : queue_class) (tok : token) : Z :=
  match cls with
  | InterleavedFIFOSignalQueue => Z.max (trials tok) 0
  | _ => trials tok
  end.

(** The sum of a quantity over the tokens. *)
Definition sum_over (f : token -> Z) (d : gmap uuid token) : Z :=
  map_fold (fun _ v acc => acc + f v) 0 d.

Definition same_kind (q q' : queue) : Prop := kind q' = kind q.

(** *** Trials taken back *)

(** A trial that ends after [t]. *)
Definition ends_after (t : Q) (info : trial_info) : bool :=
  negb (Qle_bool (t0 info + info_duration info) t).

(** The keys of the trials that end after [t] and were counted, the last
    generated first: [to_requeue] in [requeue]. *)
Definition to_requeue (t : Q) (g : list trial_info) : list uuid :=
  map key (List.filter (fun info => decrement info)
             (List.filter (ends_after t) (rev g))).

(** The number of times a key occurs. *)
Definition occurrences (k : uuid) (l : list uuid) : Z :=
  len (List.filter (fun x => N.eqb x k) l).

(** The ordering after the keys [ks] have been put back: one not in it
    goes to its front. *)
Definition put_back (o ks : list uuid) : list uuid :=
  fold_left (fun o k => if bool_decide (k ∈ o) then o else k :: o) ks o.

(** [n] trials given back to the token of a key. *)
Definition give_back (d : gmap uuid token) (kn : uuid * Z) : gmap uuid token :=
  match d !! kn.1 with
  | Some tok => <[kn.1 := with_trials (trials tok + kn.2) tok]> d
  | None => d
  end.

(** The count of a key in the items of a Counter. *)
Definition total_for (k : uuid) (c : list (uuid * Z)) : Z :=
  foldr (fun (kn : uuid * Z) acc => if N.eqb kn.1 k then kn.2 + acc else acc)
    0 c.

(** A queue that has started the first of three trials of one second. *)
Definition one_trial_started : queue :=
  run_session
    [ call_append (Waveform (repeat 7 10)) 3 (DScalar 0) None None;
      call_pop_buffer 10 5 true ]
    fifo_10Hz.

(** *** A trial cancelled *)





(** *** The grouped queues *)

(** A queue of class [GroupedFIFOSignalQueue] or [BlockedFIFOSignalQueue]. *)
Definition grouped (q : queue) : Prop :=
  kind q = GroupedFIFOSignalQueue \/ kind q = BlockedFIFOSignalQueue.

(** The keys of the first group, [self._ordering[:self._group_size]]. *)
Definition first_group (q : queue) : list uuid :=
  py_prefix (_ordering q) (_group_size q).

(** Some key of [keys] has a trial left. *)
Definition busy (d : gmap uuid token) (keys : list uuid) : bool :=
  existsb (fun k => match d !! k with
                    | Some tok => trials tok >? 0
                    | None => false
                    end) keys.

(** Two tokens in a group of two, with one trial and two trials. *)
Definition two_in_a_group : queue :=
  after (append (Waveform [3; 4]) 2 DNone None None)
    (after (append (Waveform [1; 2]) 1 DNone None None)
       (init GroupedFIFOSignalQueue (Some 1%Q) 2)).

(** A blocked queue that has played its one token and is given another. *)
Definition blocked_reused : queue :=
  run_session
    [ call_append (Waveform [1; 2]) 1 DNone None None;
      call_pop_buffer 10 3 true;
      call_append (Waveform [3; 4]) 1 DNone None None ]
    (init BlockedFIFOSignalQueue (Some 1%Q) 0).

(** *** The longest source *)

(** The duration of the source of a token at the rate [f]. *)
Definition source_duration (f : Q) (tok : token) : Q :=
  match source tok with
  | Generator g => get_duration g
  | Waveform w => (inject_Z (len w) / f)%Q
  end.

(** *** A trial and its delay *)





(** *** What every session keeps *)

(** The records given to the listeners of 'added', in the order of the
    calls. *)
Definition added_records (log : list event) : list trial_info :=
  flat_map (fun e => match e with
                     | added info => [info]
                     | _ => []
                     end) log.

(** The books of the queue agree: every key queued and every key of a
    trial generated has a token, and the listeners of 'added' have received
    the trials generated, each once and in order. *)
Record consistent (q : queue) : Prop := {
  keys_queued : forall k, k ∈ _ordering q -> is_Some (_data q !! k);
  keys_generated : forall info, info ∈ _generated q -> is_Some (_data q !! key info);
  log_generated : added_records (notified q) = _generated q
}.

(** An exception other than KeyError, raised with the books in order. *)
Definition lawful (e : exn) (q : queue) : Prop :=
  consistent q /\ forall s, e <> KeyError s.

(** The method returns a value and a state that satisfy [Q], or raises a
    lawful exception. *)
Definition yields {A} (r : outcome A * queue) (Q : A -> queue -> Prop) : Prop :=
  match r with
  | (Ok a, q') => Q a q'
  | (Raise e, q') => lawful e q'
  end.

(** The exception a call raises, if any. *)
Definition call_raises (c : call) (q : queue) : option exn :=
  let raised {A} (r : outcome A) : option exn :=
    match r with
    | Raise e => Some e
    | Ok _ => None
    end in
  match c with
  | call_pop_buffer fuel samples decr =>
      match pop_buffer fuel samples decr q with
      | Some (r, _) => raised r
      | None => None
      end
  | call_append src n dl dur md => raised (result (append src n dl dur md) q)
  | call_cancel t delay => raised (result (cancel t delay) q)
  | call_requeue t => raised (result (requeue t) q)
  | call_pause t => raised (result (pause t) q)
  | call_resume t => raised (result (resume t) q)
  | call_rewind_samples t => raised (result (rewind_samples t) q)
  end.

(** The exceptions raised in a session, in order. *)
Fixpoint session_raises (cs : list call) (q : queue) : list exn :=
  match cs with
  | [] => []
  | c :: cs =>
      match call_raises c q with
      | Some e => e :: session_raises cs (run_call c q)
      | None => session_raises cs (run_call c q)
      end
  end.

(** *** A trial whose delay cannot be played *)

(** The trials generated and the records given to the listeners of
    'added' are the same. *)
Definition same_log (q q' : queue) : Prop :=
  _generated q' = _generated q /\
  added_records (notified q') = added_records (notified q).


End QueueSpec.

(** ** Statements about pipeline.py: states and predicates *)

Module PipelineSpec.

Import Queue Pipeline.

(** The coroutine after it has taken the [d] samples [taken], the epoch
    it delivers when they complete it, and the epoch it delivers when it
    has missed the start. *)
Definition took (c : capture) (d : Z) (taken : list sample) : capture :=
  {| epoch_t0 := epoch_t0 c + d;
     epoch_samples := epoch_samples c - d;
     capture_info := capture_info c;
     accumulated_data := accumulated_data c ++ [taken] |}.

Definition completed (c : capture) (taken : list sample) : epoch :=
  {| signal := Some (concat (accumulated_data c ++ [taken]));
     info := capture_info c |}.

Definition missed (c : capture) : epoch :=
  {| signal := None; info := capture_info c |}.

(** The index after the last sample of a cached chunk. *)
Definition tub (c : Z * list sample) : Z := fst c + len (snd c).

(** No cached chunk ends before the lookback window. *)
Definition within_lookback (cfg : settings) (x : extractor) : Prop :=
  Forall (fun c => tlb x - buffer_samples cfg <= tub c) (prior_samples x).

(** The cached chunks are in the order of their ends, and none ends after
    the samples acquired. *)
Definition cache_ordered (x : extractor) : Prop :=
  StronglySorted Z.le (map tub (prior_samples x)) /\
  Forall (fun c => tub c <= tlb x) (prior_samples x).

(** What [extract_epochs] computes from a request. *)
Definition request_start (cfg : settings) (r : trial_info) : Z :=
  py_round (Queue.t0 r * fs cfg).
Definition request_size (cfg : settings) (r : trial_info) : Q :=
  if Qeq_bool (cfg_epoch_size cfg) 0 then info_duration r
  else cfg_epoch_size cfg.
Definition request_samples (cfg : settings) (r : trial_info) : Z :=
  py_round ((request_size cfg r + cfg_poststim_time cfg) * fs cfg).
Definition request_info (cfg : settings) (r : trial_info) : epoch_info :=
  {| trial := r;
     poststim_time := Some (cfg_poststim_time cfg);
     epoch_size := Some (request_size cfg r) |}.

(** A chunk that arrives with both deques empty, and one that arrives with
    the request [r] in the queue. *)
Definition plain (c : list sample) : delivery :=
  {| chunk := c; removals := []; requests := [] |}.
Definition asking (r : trial_info) (c : list sample) : delivery :=
  {| chunk := c; removals := []; requests := [r] |}.

(** The epochs given to [target], in order. *)
Definition emitted (effs : list effects) : list epoch :=
  flat_map (fun e => match target e with
                     | Some es => es
                     | None => []
                     end) effs.

(** Successive chunks with the index of their first sample. *)
Fixpoint tagged (t : Z) (chunks : list (list sample)) : list (Z * list sample) :=
  match chunks with
  | [] => []
  | c :: rest => (t, c) :: tagged (t + len c) rest
  end.



(** *** Concrete requests and deliveries *)

(** A request at 1 s for an epoch of 2 s at 1 Hz, with 10 s of lookback. *)
Definition cfg_1Hz : settings :=
  {| fs := 1; cfg_epoch_size := 2; cfg_poststim_time := 0; buffer_size := 10 |}.
Definition request_1s : trial_info :=
  {| Queue.t0 := 1; info_duration := 5; key := 0%N; info_metadata := None;
     decrement := true |}.

(** A coroutine started for the two samples from sample 3 on. *)
Definition waiting_at_3 : capture :=
  capture_epoch 3 2 (request_info cfg_1Hz request_1s).

(** Three chunks of three samples at 1 Hz with 2 s of lookback. *)
Definition cfg_short : settings :=
  {| fs := 1; cfg_epoch_size := 2; cfg_poststim_time := 0; buffer_size := 2 |}.
Definition three_chunks : list delivery :=
  map plain [[1; 2; 3]; [4; 5; 6]; [7; 8; 9]].

(** *** The extractor during a run *)

(** The chunks and the requests that a sequence of deliveries has brought. *)
Definition chunks_of (ds : list delivery) : list (list sample) :=
  map chunk ds.

Definition requests_of (ds : list delivery) : list trial_info :=
  flat_map requests ds.

(** The cache holds the last chunks of the stream, each with the index of
    its first sample, and [tlb] counts the samples of the stream.  The
    chunks dropped all end before the lookback window. *)
Definition cache_tail (cfg : settings) (chunks : list (list sample))
    (x : extractor) : Prop :=
  tlb x = len (concat chunks) /\
  exists old kept,
    chunks = old ++ kept /\
    prior_samples x = tagged (len (concat old)) kept /\
    (chunks <> [] -> kept <> []) /\
    (old = [] \/ len (concat old) < tlb x - buffer_samples cfg).

(** The number of calls of [empty_queue_cb], and whether the extractor
    still has the callback to call. *)
Definition calls (effs : list effects) : nat :=
  length (List.filter empty_queue_called effs).

Definition pending (x : extractor) : nat :=
  if empty_queue_cb x then 1%nat else 0%nat.

(** Two requests with the same key and start come with the first chunk. *)
Definition asked_twice : delivery :=
  {| chunk := [10]; removals := []; requests := [request_1s; request_1s] |}.

(** A negative [buffer_size]. *)
Definition cfg_negative : settings :=
  {| fs := 1; cfg_epoch_size := 2; cfg_poststim_time := 0;
     buffer_size := -(1) |}.

(** *** The captures in progress *)

(** A capture between two chunks, the next of which starts at sample [t]:
    it answers one of the requests [reqs], its start is not behind [t],
    and what it has with what it still needs is what the request asks
    for. *)
Record in_progress (cfg : settings) (reqs : list trial_info) (t : Z)
    (c : capture) : Prop := {
  prog_req : exists r, In r reqs /\ capture_info c = request_info cfg r /\
               len (concat (accumulated_data c)) + epoch_samples c
               = request_samples cfg r;
  prog_ahead : t <= epoch_t0 c;
  prog_left : 0 <= epoch_samples c
}.

(** The index of the oldest sample in the cache; when the cache is empty,
    of the next sample to come. *)
Definition cache_start (x : extractor) : Z :=
  match prior_samples x with
  | [] => tlb x
  | c :: _ => fst c
  end.

(** An epoch that answers one of the requests [reqs]: it has the
    information of the request, and its signal, if it has one, has the
    number of samples asked for. *)
Definition answers (cfg : settings) (reqs : list trial_info) (e : epoch)
    : Prop :=
  exists r, In r reqs /\ info e = request_info cfg r /\
    forall sig, signal e = Some sig -> len sig = request_samples cfg r.

(** A missed epoch of a turn of the loop: its request came with this
    chunk, for samples older than the cache. *)
Definition missed_late (cfg : settings) (queue : list trial_info) (t : Z)
    (e : epoch) : Prop :=
  signal e = None ->
  exists r, In r queue /\ info e = request_info cfg r /\
    request_start cfg r < t.

(** The extractor without the capture of key [k]. *)
Definition forget (k : epoch_key) (x : extractor) : extractor :=
  {| tlb := tlb x;
     epoch_coroutines := dict_pop k (epoch_coroutines x);
     prior_samples := prior_samples x;
     empty_queue_cb := empty_queue_cb x |}.

(** The request for the 2 samples from sample 1 comes with the third of
    three chunks of 3 samples, with 2 samples of lookback. *)
Definition asked_late : delivery := asking request_1s [7; 8; 9].

(** The extractor that has the first sample of the epoch of [request_1s]
    and waits for the second. *)
Definition one_capture : extractor :=
  {| tlb := 2;
     epoch_coroutines :=
       [(key_of request_1s,
         took (capture_epoch 1 2 (request_info cfg_1Hz request_1s)) 1 [11])];
     prior_samples := [(0, [10; 11])];
     empty_queue_cb := false |}.

(** The extractor after the deliveries [hist]. *)
Definition running (cfg : settings) (hist : list delivery) (x : extractor)
    : Prop :=
  cache_tail cfg (chunks_of hist) x /\
  Forall (fun kc => in_progress cfg (requests_of hist) (tlb x) (snd kc))
    (epoch_coroutines x).

End PipelineSpec.

(** ** Properties of the Python primitives *)

Module PyProofs.

Lemma len_nonneg {A} (l : list A) : 0 <= len l.
Proof. unfold len. lia. Qed.

Lemma len_app {A} (l1 l2 : list A) : len (l1 ++ l2) = len l1 + len l2.
Proof. unfold len. rewrite length_app. lia. Qed.

(** *** Slices with bounds that are not negative *)

Lemma py_slice_firstn_skipn {A} (l : list A) a b :
  0 <= a -> 0 <= b ->
  py_slice l a b = firstn (Z.to_nat (b - a)) (skipn (Z.to_nat a) l).
Proof.
  intros Ha Hb. unfold py_slice, py_clamp.
  destruct (a <? 0) eqn:E1; [lia|]. destruct (b <? 0) eqn:E2; [lia|].
  destruct (Z.le_gt_cases a (Z.of_nat (length l))) as [Hal|Hal].
  - rewrite (Z.min_l a) by lia.
    destruct (Z.le_gt_cases b (Z.of_nat (length l))) as [Hbl|Hbl].
    + rewrite Z.min_l by lia. reflexivity.
    + rewrite Z.min_r by lia.
      rewrite !firstn_all2; [reflexivity | |]; rewrite length_skipn; lia.
  - rewrite (Z.min_r a) by lia.
    rewrite !skipn_all2 by lia. rewrite !firstn_nil. reflexivity.
Qed.

Lemma py_prefix_firstn {A} (l : list A) n :
  0 <= n -> py_prefix l n = firstn (Z.to_nat n) l.
Proof.
  intros H. unfold py_prefix. rewrite py_slice_firstn_skipn by lia.
  rewrite Z.sub_0_r. reflexivity.
Qed.

Lemma py_suffix_skipn {A} (l : list A) n :
  0 <= n -> py_suffix l n = skipn (Z.to_nat n) l.
Proof.
  intros H. unfold py_suffix. rewrite py_slice_firstn_skipn by lia.
  apply firstn_all2. rewrite length_skipn. lia.
Qed.

Lemma py_slice_length_le {A} (l : list A) a m :
  0 <= m -> len (py_slice l a (a + m)) <= m.
Proof.
  intros H. unfold len, py_slice, py_clamp.
  rewrite length_firstn, length_skipn.
  destruct (a <? 0) eqn:E1; destruct (a + m <? 0) eqn:E2; lia.
Qed.

Lemma py_slice_length {A} (l : list A) a m :
  0 <= a -> 0 <= m -> a + m <= len l -> len (py_slice l a (a + m)) = m.
Proof.
  intros Ha Hm Hl. rewrite py_slice_firstn_skipn by lia.
  unfold len in *. rewrite length_firstn, length_skipn. lia.
Qed.

Lemma firstn_plus {A} (l : list A) n m :
  firstn (n + m) l = firstn n l ++ firstn m (skipn n l).
Proof.
  revert l. induction n as [|n IH]; intros l; simpl; [reflexivity|].
  destruct l; simpl; [rewrite firstn_nil; reflexivity|].
  rewrite IH. reflexivity.
Qed.

Lemma py_slice_app {A} (s : list A) x y z :
  0 <= x <= y -> y <= z ->
  py_slice s x y ++ py_slice s y z = py_slice s x z.
Proof.
  intros Hxy Hyz. rewrite !py_slice_firstn_skipn by lia.
  replace (Z.to_nat (z - x)) with (Z.to_nat (y - x) + Z.to_nat (z - y))%nat by lia.
  rewrite firstn_plus. f_equal. rewrite skipn_skipn.
  replace (Z.to_nat (y - x) + Z.to_nat x)%nat with (Z.to_nat y) by lia.
  reflexivity.
Qed.



(** *** Indexing and removal *)



Lemma list_remove_head `{EqDecision A} (k : A) rest :
  list_remove k (k :: rest) = Some rest.
Proof. simpl. destruct (decide (k = k)); [reflexivity | congruence]. Qed.

End PyProofs.

(** ** Properties of queue.py *)

Module QueueProofs.

Import Queue QueueSpec PyProofs.

(** *** Reasoning about methods *)

(** [keeps R m]: the method [m] leaves the relation [R] between the states
    before and after, whatever its result. *)

Section Keeps.
Context (R : queue -> queue -> Prop) `{!PreOrder R}.

Lemma keeps_ret {A} (a : A) : keeps R (ret a).
Proof. intros q. unfold after. simpl. reflexivity. Qed.
Lemma keeps_raise {A} e : keeps R (@raise A e).
Proof. intros q. unfold after. simpl. reflexivity. Qed.
Lemma keeps_gets {A} (f : queue -> A) : keeps R (gets f).
Proof. intros q. unfold after. simpl. reflexivity. Qed.
Lemma keeps_lift {A} (o : outcome A) : keeps R (lift o).
Proof. intros q. unfold after. simpl. reflexivity. Qed.
Lemma keeps_modify f : (forall q, R q (f q)) -> keeps R (modify f).
Proof. intros H q. apply H. Qed.
Lemma keeps_bind {A B} (m : M A) (f : A -> M B) :
  keeps R m -> (forall a, keeps R (f a)) -> keeps R (bind m f).
Proof.
  intros Hm Hf q. specialize (Hm q). unfold after, bind in *.
  destruct (m q) as [[a|e] q']; simpl in *; [|exact Hm].
  etransitivity; [exact Hm | apply Hf].
Qed.
Lemma keeps_for_each {A} (l : list A) body :
  (forall x, keeps R (body x)) -> keeps R (for_each l body).
Proof.
  intros H. induction l as [|x l IH]; simpl.
  - apply keeps_ret.
  - apply keeps_bind; auto.
Qed.
Lemma keeps_the_fs : keeps R the_fs.
Proof.
  apply keeps_bind; [apply keeps_gets|].
  intros [f|]; [apply keeps_ret | apply keeps_raise].
Qed.
Lemma keeps_py_div x y : keeps R (py_div x y).
Proof. unfold py_div. destruct (Qeq_bool y 0); [apply keeps_raise | apply keeps_ret]. Qed.
Lemma keeps_py_mod x y : keeps R (py_mod x y).
Proof. unfold py_mod. destruct (y =? 0); [apply keeps_raise | apply keeps_ret]. Qed.
Lemma keeps_data_at k : keeps R (data_at k).
Proof.
  apply keeps_bind; [apply keeps_gets|].
  intros d. destruct (d !! k); [apply keeps_ret | apply keeps_raise].
Qed.
Lemma keeps_get_ts : keeps R get_ts.
Proof.
  apply keeps_bind; [apply keeps_gets|]. intros s.
  apply keeps_bind; [apply keeps_the_fs|]. intros f. apply keeps_py_div.
Qed.
Lemma keeps_key_in_queue k : keeps R (key_in_queue k).
Proof.
  apply keeps_bind; [apply keeps_gets|]. intros o.
  destruct (bool_decide (k ∈ o)); [apply keeps_ret | apply keeps_raise].
Qed.
End Keeps.

(** Splits a goal [keeps R m] along the structure of [m], leaving the
    state updates. *)
Ltac keeps_step :=
  lazymatch goal with
  | |- keeps ?R (ret _) => apply (keeps_ret R)
  | |- keeps ?R (raise _) => apply (keeps_raise R)
  | |- keeps ?R (gets _) => apply (keeps_gets R)
  | |- keeps ?R (lift _) => apply (keeps_lift R)
  | |- keeps ?R the_fs => apply (keeps_the_fs R)
  | |- keeps ?R (py_div _ _) => apply (keeps_py_div R)
  | |- keeps ?R (py_mod _ _) => apply (keeps_py_mod R)
  | |- keeps ?R (data_at _) => apply (keeps_data_at R)
  | |- keeps ?R get_ts => apply (keeps_get_ts R)
  | |- keeps ?R (key_in_queue _) => apply (keeps_key_in_queue R)
  | |- keeps ?R (for_each _ _) => apply (keeps_for_each R); intros
  | |- keeps ?R (bind _ _) => apply (keeps_bind R); [|intros]
  | |- keeps ?R (modify _) => apply (keeps_modify R); intros
  | |- keeps _ (match ?x with _ => _ end) => destruct x
  end.
Ltac keeps_auto := repeat keeps_step.

(** Running a method step by step. *)
Lemma bind_run {A B} (m : M A) (f : A -> M B) q a q' :
  m q = (Ok a, q') -> bind m f q = f a q'.
Proof. unfold bind. intros ->. reflexivity. Qed.
Lemma bind_fail {A B} (m : M A) (f : A -> M B) q e q' :
  m q = (Raise e, q') -> bind m f q = (Raise e, q').
Proof. unfold bind. intros ->. reflexivity. Qed.
Lemma bind_gets {A B} (g : queue -> A) (f : A -> M B) q :
  bind (gets g) f q = f (g q) q.
Proof. reflexivity. Qed.
Lemma bind_modify {B} (g : queue -> queue) (f : unit -> M B) q :
  bind (modify g) f q = f tt (g q).
Proof. reflexivity. Qed.
Lemma bind_ret {A B} (a : A) (f : A -> M B) q : bind (ret a) f q = f a q.
Proof. reflexivity. Qed.
Lemma bind_lift_Ok {A B} (a : A) (f : A -> M B) q :
  bind (lift (Ok a)) f q = f a q.
Proof. reflexivity. Qed.
Lemma bind_raise {A B} e (f : A -> M B) q :
  bind (raise e) f q = (Raise e, q).
Proof. reflexivity. Qed.

Ltac qsimpl :=
  cbn [kind _delay_samples _data _ordering _source _samples _paused _empty
       _fs _t0 _generated _i _complete _group_size notified uuid_next
       with_delay_samples with_data with_ordering with_source with_samples
       with_paused with_empty with_fs with_t0 with_generated with_i
       with_complete with_group_size with_notified with_uuid_next
       source trials requested_trials delays duration metadata_
       with_trials with_delays] in *.

Lemma bind_assoc {A B C} (m : M A) (f : A -> M B) (g : B -> M C) q :
  bind (bind m f) g q = bind m (fun a => bind (f a) g) q.
Proof. unfold bind. destruct (m q) as [[a|e] q']; reflexivity. Qed.

Ltac mrun :=
  repeat first
    [ rewrite bind_assoc | rewrite bind_gets | rewrite bind_modify
    | rewrite bind_ret | rewrite bind_lift_Ok | rewrite bind_raise
    | progress cbv beta iota ];
  qsimpl.

Lemma data_at_Some k tok q : _data q !! k = Some tok -> data_at k q = (Ok tok, q).
Proof. intros H. unfold data_at. mrun. rewrite H. reflexivity. Qed.


Lemma add_trials_Some k n tok q :
  _data q !! k = Some tok ->
  add_trials k n q
    = (Ok tt, with_data (<[k := with_trials (trials tok + n) tok]> (_data q)) q).
Proof.
  intros H. unfold add_trials. rewrite (bind_run _ _ _ _ _ (data_at_Some _ _ _ H)).
  reflexivity.
Qed.

Lemma bind_Ok {A B} (m : M A) (f : A -> M B) q b q' :
  bind m f q = (Ok b, q') ->
  exists a q1, m q = (Ok a, q1) /\ f a q1 = (Ok b, q').
Proof.
  unfold bind. destruct (m q) as [[a|e] q1]; [eauto | discriminate].
Qed.

Lemma data_at_Ok k tok q q' : data_at k q = (Ok tok, q') -> _data q !! k = Some tok.
Proof.
  unfold data_at. mrun. destruct (_data q !! k); [|discriminate].
  intros [= <- _]. reflexivity.
Qed.

(** *** insert *)

#[local] Instance same_ordering_preorder : PreOrder same_ordering.
Proof.
  split; [intros q; reflexivity|].
  intros a b c H1 H2. unfold same_ordering in *. congruence.
Qed.

Lemma _add_source_ordering src n dl dur md :
  keeps same_ordering (_add_source src n dl dur md).
Proof. unfold _add_source. keeps_auto; reflexivity. Qed.

(** C8: [insert] never returns a key.  It stores the token and then calls
    [list.insert] with a single argument, so every call ends in an
    exception and the ordering is left as it was: nothing is prepended. *)
Theorem insert_always_raises src n dl dur md q :
  (exists e, result (insert src n dl dur md) q = Raise e) /\
  _ordering (after (insert src n dl dur md) q) = _ordering q.
Proof.
  pose proof (_add_source_ordering src n dl dur md q) as Ho.
  unfold result, after, insert, bind, same_ordering in *.
  destruct (_add_source src n dl dur md q) as [[k|e] q']; cbn [fst snd] in *.
  - split; [eexists; reflexivity | exact Ho].
  - split; [eexists; reflexivity | exact Ho].
Qed.

(** On the FIFO queue of the first scenario the exception is the
    TypeError of [list.insert]; the token has been stored all the same. *)
Example insert_ramp_raises :
  result (insert ramp 1 (DSeq [0%Q]) None None) fifo_100Hz
    = Raise (TypeError "insert expected 2 arguments, got 1") /\
  _ordering (after (insert ramp 1 (DSeq [0%Q]) None None) fifo_100Hz) = [] /\
  source <$> (_data (after (insert ramp 1 (DSeq [0%Q]) None None) fifo_100Hz) !! 0%N)
    = Some ramp.
Proof. vm_compute. auto. Qed.

(** *** extend *)

Lemma check_param_cases {A} name (p : param A) n q :
  (~ mismatched p n /\
   exists l, check_param name p n q = (Ok l, q) /\ length l = n) \/
  (mismatched p n /\ check_param name p n q = (Raise (KeyError "param"), q)).
Proof.
  destruct p as [x|l]; simpl.
  - left. split; [tauto|]. eexists. split; [reflexivity|]. apply repeat_length.
  - destruct (bool_decide (length l = n)) eqn:E.
    + apply bool_decide_eq_true in E. left. split; [tauto|]. eauto.
    + apply bool_decide_eq_false in E. right. split; [exact E | reflexivity].
Qed.

(** Whatever argument of [extend] has the wrong length, the exception is
    the KeyError of [str.format]: the template names its fields and the
    call passes the values by position. *)
Lemma extend_mismatch sources n dl dur md q :
  mismatched n (length sources) \/ mismatched dl (length sources) \/
  mismatched dur (length sources) \/ mismatched md (length sources) ->
  extend sources n dl dur md q = (Raise (KeyError "param"), q).
Proof.
  intros H. unfold extend.
  unfold bind at 1.
  destruct (check_param_cases "trials" n (length sources) q)
    as [[N1 [l1 [-> _]]]|[_ ->]]; [|reflexivity].
  unfold bind at 1.
  destruct (check_param_cases "delays" dl (length sources) q)
    as [[N2 [l2 [-> _]]]|[_ ->]]; [|reflexivity].
  unfold bind at 1.
  destruct (check_param_cases "duration" dur (length sources) q)
    as [[N3 [l3 [-> _]]]|[_ ->]]; [|reflexivity].
  unfold bind at 1.
  destruct (check_param_cases "metadata" md (length sources) q)
    as [[N4 [l4 [-> _]]]|[_ ->]]; [|reflexivity].
  tauto.
Qed.

(** With keyword arguments the template would give the message. *)
Example base_err_with_keywords :
  str_format base_err [] [("param", PStr "trials"); ("n", PInt 2)]%string
    = Ok "trials must be a scalar or a sequence of length 2"%string.
Proof. reflexivity. Qed.

(** C9: [extend] with two sources and a one-element [trials] does not fail
    with the size-mismatch error "trials must be a scalar or a sequence of
    length 2": formatting that message raises KeyError('param'), which is
    what the caller gets. *)
Theorem extend_mismatch_raises_KeyError :
  result (extend [ramp; ramp] (Sequence [1]) (Scalar DNone) (Scalar None)
            (Scalar None)) fifo_100Hz
    = Raise (KeyError "param") /\
  forall msg,
    result (extend [ramp; ramp] (Sequence [1]) (Scalar DNone) (Scalar None)
              (Scalar None)) fifo_100Hz
      <> Raise (ValueError msg).
Proof.
  unfold result. rewrite extend_mismatch by (left; simpl; lia).
  split; [reflexivity | discriminate].
Qed.

Lemma append_ok_ordering src n dl dur md q k q' :
  append src n dl dur md q = (Ok k, q') ->
  _ordering q' = _ordering q ++ [k] /\ k = uuid_next q.
Proof.
  unfold append.
  cbv [bind gets modify ret raise _add_source the_fs py_div].
  destruct (kind q); destruct dur as [d|]; try destruct src as [w|g];
    cbn; try destruct (_fs q) as [f|]; cbn;
    try destruct (Qeq_bool f 0); cbn; intros [= <- <-]; auto.
Qed.

Lemma extend_loop_keys args : forall uuids q ks q',
  extend_loop args uuids q = (Ok ks, q') ->
  exists new, ks = uuids ++ new /\ length new = length args /\
    _ordering q' = _ordering q ++ new.
Proof.
  induction args as [|[[[[src n] dl] dur] md] args IH]; intros uuids q ks q' H.
  - injection H as <- <-. exists []. rewrite !app_nil_r. auto.
  - simpl in H. unfold bind at 1 in H.
    destruct (append src n dl dur md q) as [[k|e] q1] eqn:E; [|discriminate].
    apply append_ok_ordering in E as [Eo _].
    apply IH in H as (new & -> & Hl & Ho).
    exists (k :: new). rewrite <- app_assoc. simpl.
    split; [reflexivity|]. split; [lia|].
    rewrite Ho, Eo, <- app_assoc. reflexivity.
Qed.

Lemma zip5_length {A B C D E} (la : list A) : forall (lb : list B)
    (lc : list C) (ld : list D) (le : list E),
  length lb = length la -> length lc = length la ->
  length ld = length la -> length le = length la ->
  length (zip5 la lb lc ld le) = length la.
Proof.
  induction la as [|a la IH]; intros [|b lb] [|c lc] [|d ld] [|e le];
    simpl; try discriminate; auto.
Qed.

(** The other half of the behaviour of [extend]: when no sequence has the
    wrong length and every [append] goes through, one key per source is
    appended to the ordering and the keys are returned in that order. *)
Lemma extend_returns_keys sources n dl dur md q ks q' :
  extend sources n dl dur md q = (Ok ks, q') ->
  length ks = length sources /\ _ordering q' = _ordering q ++ ks.
Proof.
  unfold extend. intros H.
  unfold bind at 1 in H.
  destruct (check_param_cases "trials" n (length sources) q)
    as [[_ [l1 [E1 L1]]]|[_ E1]]; rewrite E1 in H; [|discriminate].
  unfold bind at 1 in H.
  destruct (check_param_cases "delays" dl (length sources) q)
    as [[_ [l2 [E2 L2]]]|[_ E2]]; rewrite E2 in H; [|discriminate].
  unfold bind at 1 in H.
  destruct (check_param_cases "duration" dur (length sources) q)
    as [[_ [l3 [E3 L3]]]|[_ E3]]; rewrite E3 in H; [|discriminate].
  unfold bind at 1 in H.
  destruct (check_param_cases "metadata" md (length sources) q)
    as [[_ [l4 [E4 L4]]]|[_ E4]]; rewrite E4 in H; [|discriminate].
  apply extend_loop_keys in H as (new & -> & Hl & Ho).
  simpl. rewrite Hl, zip5_length by assumption. auto.
Qed.

(** *** decrement_key of the base class *)



(** *** The interleaved queue *)


Section Interleaved.
Context (q : queue) (Hk : kind q = InterleavedFIFOSignalQueue).





End Interleaved.




(** *** pop_buffer on an empty queue *)

Lemma loop_reaches_run decr n q0 i samples ws q :
  loop_reaches decr n q0 i samples ws q ->
  forall fuel,
    pop_buffer_loop (i + fuel) n decr [] q0
      = pop_buffer_loop fuel samples decr ws q.
Proof.
  induction 1 as [|i samples ws q w q1 Hr IH Hpos Hstep]; intros fuel.
  - reflexivity.
  - replace (S i + fuel)%nat with (i + S fuel)%nat by lia.
    rewrite IH. simpl.
    destruct (samples >? 0) eqn:E; [|lia].
    rewrite Hstep. reflexivity.
Qed.

Lemma loop_reaches_total decr n q0 i samples ws q :
  loop_reaches decr n q0 i samples ws q ->
  len (concat ws) + samples = n.
Proof.
  induction 1 as [|i samples ws q w q1 Hr IH Hpos Hstep].
  - reflexivity.
  - unfold len in *. rewrite concat_app, length_app. simpl.
    rewrite app_nil_r. lia.
Qed.

Lemma len_zeros n : 0 <= n -> len (repeat (0 : sample) (Z.to_nat n)) = n.
Proof. intros H. unfold len. rewrite repeat_length. lia. Qed.

Lemma pop_buffer_loop_empty fuel samples decr ws q q1 :
  0 < samples ->
  _pop_buffer samples decr q = (Raise QueueEmptyError, q1) ->
  pop_buffer_loop (S fuel) samples decr ws q
    = Some (Ok (ws ++ [repeat 0 (Z.to_nat samples)]),
            with_samples (_samples q1 + samples) (with_empty true q1)).
Proof.
  intros Hpos Hstep. simpl.
  destruct (samples >? 0) eqn:E; [|lia].
  rewrite Hstep. unfold np_zeros.
  destruct (samples <? 0) eqn:E1; [lia|].
  rewrite len_zeros by lia. rewrite Z.sub_diag.
  destruct fuel; reflexivity.
Qed.

Lemma _pop_buffer_queue_empty samples decr q :
  _paused q = false -> _source q = None -> _delay_samples q <= 0 ->
  result next_key q = Raise QueueEmptyError ->
  _pop_buffer samples decr q = (Raise QueueEmptyError, after next_key q).
Proof.
  unfold result, after. intros Hp Hs Hd Hn.
  unfold _pop_buffer, next_trial, pop_next.
  cbv [bind gets modify ret raise lift]. rewrite Hp, Hs.
  destruct (_delay_samples q >? 0) eqn:E; [lia|].
  destruct (next_key q) as [r q1]. simpl in *. subst r. reflexivity.
Qed.

Lemma pop_buffer_loop_no_QueueEmpty fuel : forall samples decr ws q q',
  pop_buffer_loop fuel samples decr ws q <> Some (Raise QueueEmptyError, q').
Proof.
  induction fuel as [|fuel IH]; intros samples decr ws q q'; simpl.
  - destruct (samples >? 0); discriminate.
  - destruct (samples >? 0) eqn:E; [|discriminate].
    destruct (_pop_buffer samples decr q) as [[w|e] q1]; [apply IH|].
    destruct e; try discriminate.
    unfold np_zeros. destruct (samples <? 0) eqn:E1; [lia|]. apply IH.
Qed.

Lemma pop_buffer_no_QueueEmpty fuel samples decr q q' :
  pop_buffer fuel samples decr q <> Some (Raise QueueEmptyError, q').
Proof.
  unfold pop_buffer.
  pose proof (pop_buffer_loop_no_QueueEmpty fuel samples decr [] q) as H.
  destruct (pop_buffer_loop fuel samples decr [] q) as [[[ws|e] q1]|];
    [| |discriminate].
  - unfold np_concatenate. destruct ws; discriminate.
  - intros [= -> ->]. eapply H. reflexivity.
Qed.

(** C5: whenever, in the loop of [pop_buffer(n)], [next_key] raises
    QueueEmptyError (the queue is not paused, has no source and no delay to
    play), the call returns normally: its buffer is what had been collected
    followed by zeros for all the samples still to produce, it has exactly
    [n] samples, and [is_empty()] is true afterwards.  And no call of
    [pop_buffer] ever ends in QueueEmptyError. *)
Theorem pop_buffer_pads_with_silence :
  (forall decr n q0 i samples ws q fuel,
     loop_reaches decr n q0 i samples ws q ->
     0 < samples ->
     _paused q = false -> _source q = None -> _delay_samples q <= 0 ->
     result next_key q = Raise QueueEmptyError ->
     exists q',
       pop_buffer (i + S fuel) n decr q0
         = Some (Ok (concat ws ++ repeat 0 (Z.to_nat samples)), q') /\
       len (concat ws ++ repeat 0 (Z.to_nat samples)) = n /\
       is_empty q' = true) /\
  (forall fuel n decr q0 q',
     pop_buffer fuel n decr q0 <> Some (Raise QueueEmptyError, q')).
Proof.
  split; [|intros; apply pop_buffer_no_QueueEmpty].
  intros decr n q0 i samples ws q fuel Hr Hpos Hp Hs Hd Hn.
  eexists. split; [|split].
  - unfold pop_buffer. rewrite (loop_reaches_run _ _ _ _ _ _ _ Hr).
    erewrite pop_buffer_loop_empty;
      [|assumption|apply _pop_buffer_queue_empty; assumption].
    unfold np_concatenate.
    destruct (ws ++ [repeat 0 (Z.to_nat samples)]) eqn:E.
    { destruct ws; discriminate. }
    rewrite <- E, concat_app. simpl. rewrite app_nil_r. reflexivity.
  - pose proof (loop_reaches_total _ _ _ _ _ _ _ Hr).
    unfold len in *. rewrite length_app, repeat_length. lia.
  - reflexivity.
Qed.

(** [pop_buffer(8)] on the queue of the first scenario: the five samples of
    the trial, then three zeros. *)
Lemma one_ramp_reaches :
  loop_reaches true 8 one_ramp 2 3 [[]; [1; 2; 3; 4; 5]] one_ramp_played.
Proof.
  apply (reaches_next true 8 one_ramp 1 8 [[]] one_ramp_started [1; 2; 3; 4; 5]
           (after (_pop_buffer 8 true) one_ramp_started)).
  - apply (reaches_next true 8 one_ramp 0 8 [] one_ramp []
             (after (_pop_buffer 8 true) one_ramp)).
    + apply reaches_start.
    + reflexivity.
    + vm_compute. reflexivity.
  - reflexivity.
  - vm_compute. reflexivity.
Defined.

Lemma pop_buffer_pads_with_silence_witness :
  loop_reaches true 8 one_ramp 2 3 [[]; [1; 2; 3; 4; 5]] one_ramp_played /\
  result next_key one_ramp_played = Raise QueueEmptyError /\
  exists q',
    pop_buffer 3 8 true one_ramp = Some (Ok [1; 2; 3; 4; 5; 0; 0; 0], q') /\
    is_empty q' = true.
Proof.
  split; [exact one_ramp_reaches|]. split; [vm_compute; reflexivity|].
  destruct (proj1 pop_buffer_pads_with_silence true 8 one_ramp 2%nat 3
              [[]; [1; 2; 3; 4; 5]] one_ramp_played 0%nat one_ramp_reaches)
    as (q' & Hrun & _ & Hempty).
  - reflexivity.
  - reflexivity.
  - reflexivity.
  - vm_compute. discriminate.
  - vm_compute. reflexivity.
  - exists q'. split; [exact Hrun | exact Hempty].
Defined.

(** *** pop_buffer returns what it is asked for *)

#[local] Instance same_samples_preorder : PreOrder same_samples.
Proof.
  split; [intros q; reflexivity|].
  intros a b c H1 H2. unfold same_samples in *. congruence.
Qed.

Lemma keeps_any_trials_left R `{!PreOrder R} keys :
  keeps R (any_trials_left keys).
Proof.
  induction keys as [|k keys IH]; simpl; keeps_auto. exact IH.
Qed.

Ltac keeps_methods :=
  unfold _pop_buffer, _get_samples, _get_samples_waveform,
    _get_samples_generator, next_trial, pop_next, next_key, pop_key,
    decrement_key, next_delay, remaining_trials, remove_key, _notify,
    add_trials;
  repeat first
    [ keeps_step
    | lazymatch goal with
      | |- keeps ?R (any_trials_left _) => apply (keeps_any_trials_left R)
      | |- keeps _ (let '(_, _) := ?x in _) => destruct x
      end ].

Lemma _pop_buffer_samples samples decr :
  keeps same_samples (_pop_buffer samples decr).
Proof. keeps_methods; reflexivity. Qed.

Lemma np_zeros_Ok n w : np_zeros n = Ok w -> 0 <= n /\ w = repeat 0 (Z.to_nat n).
Proof.
  unfold np_zeros. destruct (n <? 0) eqn:E; [discriminate|].
  intros [= <-]. split; [lia | reflexivity].
Qed.

(** A step of the loop never returns more than it was asked for. *)
Lemma _pop_buffer_length samples decr q w q1 :
  0 < samples ->
  _pop_buffer samples decr q = (Ok w, q1) ->
  len w <= samples.
Proof.
  intros Hpos. unfold _pop_buffer.
  cbv [bind gets lift]. destruct (_paused q).
  { intros [= E _]. apply np_zeros_Ok in E as [_ ->]. rewrite len_zeros; lia. }
  destruct (_source q) as [[w0|g]|].
  - unfold _get_samples, _get_samples_waveform.
    destruct (samples >? len w0) eqn:E; cbv [bind modify ret].
    + intros [= <- _]. lia.
    + intros [= <- _]. rewrite py_prefix_firstn by lia.
      unfold len in *. rewrite length_firstn. lia.
  - unfold _get_samples, _get_samples_generator, next.
    cbv [bind modify ret].
    match goal with |- context [is_complete ?g'] => destruct (is_complete g') end;
      intros [= <- _].
    all: etransitivity;
      [apply py_slice_length_le; unfold n_samples_remaining; lia | lia].
  - destruct (_delay_samples q >? 0) eqn:E.
    + cbv [modify]. intros [= E' _].
      apply np_zeros_Ok in E' as [_ ->]. rewrite len_zeros; lia.
    + destruct (next_trial decr q) as [[[]|e] q2]; [|discriminate].
      cbv [ret]. intros [= <- _]. unfold len. simpl. lia.
Qed.

Lemma pop_buffer_loop_exact fuel : forall samples decr ws q ws' q',
  0 <= samples ->
  pop_buffer_loop fuel samples decr ws q = Some (Ok ws', q') ->
  exists new, ws' = ws ++ new /\ len (concat new) = samples /\
    _samples q' = _samples q + samples /\ (0 < samples -> new <> []).
Proof.
  induction fuel as [|fuel IH]; intros samples decr ws q ws' q' Hs; simpl.
  - destruct (samples >? 0) eqn:E; [discriminate|].
    intros [= <- <-]. exists []. rewrite app_nil_r.
    repeat split; try (unfold len; simpl; lia).
  - destruct (samples >? 0) eqn:E.
    2:{ intros [= <- <-]. exists []. rewrite app_nil_r.
        repeat split; try (unfold len; simpl; lia). }
    assert (Hpos : 0 < samples) by lia.
    pose proof (_pop_buffer_samples samples decr q) as Hk.
    unfold same_samples, after in Hk.
    destruct (_pop_buffer samples decr q) as [[w|e] q1] eqn:Estep.
    + pose proof (_pop_buffer_length _ _ _ _ _ Hpos Estep) as Hw.
      intros H. apply IH in H as (new & -> & Hlen & Hsam & _); [|lia].
      exists (w :: new). rewrite <- app_assoc. split; [reflexivity|].
      simpl in *. unfold len in *. rewrite length_app.
      repeat split; try lia. discriminate.
    + destruct e; try discriminate.
      unfold np_zeros. destruct (samples <? 0) eqn:E1; [lia|].
      rewrite len_zeros by lia.
      intros H. apply IH in H as (new & -> & Hlen & Hsam & _); [|lia].
      exists (repeat 0 (Z.to_nat samples) :: new).
      rewrite <- app_assoc. split; [reflexivity|].
      simpl in *. unfold len in *. rewrite length_app, repeat_length.
      repeat split; try lia. discriminate.
Qed.


(** *** Every call returns on a ready FIFO queue *)



Lemma Qeq_bool_false f : ~ (f == 0)%Q -> Qeq_bool f 0 = false.
Proof.
  intros H. destruct (Qeq_bool f 0) eqn:E; [|reflexivity].
  apply Qeq_bool_iff in E. contradiction.
Qed.

Lemma with_data_same q : with_data (_data q) q = q.
Proof. destruct q; reflexivity. Qed.










(** *** The times of the records *)

#[local] Instance frame_preorder : PreOrder frame.
Proof.
  split.
  - intros q. unfold frame. tauto.
  - intros a b c (H1 & H2 & H3 & H4 & H5 & H6) (G1 & G2 & G3 & G4 & G5 & G6).
    unfold frame. repeat split; try congruence; auto.
    destruct G5 as [G5|G5]; [rewrite G5; exact H5 | right; exact G5].
Qed.


Lemma source_valid_frame q q' :
  frame q q' -> source_valid (_source q) -> source_valid (_source q').
Proof.
  intros (_ & _ & _ & _ & [H|H] & _) Hv; rewrite H; [exact Hv | exact I].
Qed.




















#[local] Instance same_data_preorder : PreOrder same_data.
Proof.
  split; [intros q; reflexivity|].
  intros a b c H1 H2. unfold same_data in *. congruence.
Qed.
#[local] Instance same_source_preorder : PreOrder same_source.
Proof.
  split; [intros q; reflexivity|].
  intros a b c H1 H2. unfold same_source in *. congruence.
Qed.

Lemma next_key_data : keeps same_data next_key.
Proof. unfold next_key. keeps_auto; reflexivity. Qed.


Lemma pop_next_data decr q k data q0 :
  pop_next decr q = (Ok (k, data), q0) -> _data q !! k = Some data.
Proof.
  unfold pop_next, pop_key. intros H.
  apply bind_Ok in H as (k' & qa & Hk & H).
  pose proof (next_key_data q) as Hd. unfold after, same_data in Hd.
  rewrite Hk in Hd. simpl in Hd.
  apply bind_Ok in H as (tok & qb & H & Hret). injection Hret as <- <- _.
  apply bind_Ok in H as (tok' & qc & Hat & H).
  apply data_at_Ok in Hat. rewrite Hd in Hat.
  apply bind_Ok in H as (u & qd & _ & Hret). injection Hret as <- _.
  exact Hat.
Qed.















(** *** Samples requested, samples produced *)

Lemma well_sourced_frame q q' :
  well_sourced q -> frame q q' -> well_sourced q'.
Proof.
  intros [H1 H2] Hf. split.
  - apply Hf, H1.
  - eapply source_valid_frame; eassumption.
Qed.











(** *** Requests cut in two *)

(** The samples collected do not depend on what was collected before. *)
Lemma pop_buffer_loop_acc fuel : forall samples decr ws q,
  pop_buffer_loop fuel samples decr ws q =
    match pop_buffer_loop fuel samples decr [] q with
    | Some (Ok new, q') => Some (Ok (ws ++ new), q')
    | Some (Raise e, q') => Some (Raise e, q')
    | None => None
    end.
Proof.
  induction fuel as [|fuel IH]; intros samples decr ws q; simpl.
  - destruct (samples >? 0); [reflexivity|]. rewrite app_nil_r. reflexivity.
  - destruct (samples >? 0); [|rewrite app_nil_r; reflexivity].
    destruct (_pop_buffer samples decr q) as [[w|e] q1].
    + rewrite (IH _ _ (ws ++ [w])), (IH _ _ ([] ++ [w])).
      destruct (pop_buffer_loop fuel _ decr [] _) as [[[new|e] q']|];
        try reflexivity.
      simpl. rewrite <- app_assoc. reflexivity.
    + destruct e; try reflexivity.
      destruct (np_zeros samples) as [w|e]; [|reflexivity].
      rewrite (IH _ _ (ws ++ [w])), (IH _ _ ([] ++ [w])).
      destruct (pop_buffer_loop fuel _ decr [] _) as [[[new|e] q']|];
        try reflexivity.
      simpl. rewrite <- app_assoc. reflexivity.
Qed.

(** A run that ends, ends the same with more iterations allowed. *)
Lemma pop_buffer_loop_more fuel : forall extra samples decr ws q r,
  pop_buffer_loop fuel samples decr ws q = Some r ->
  pop_buffer_loop (fuel + extra) samples decr ws q = Some r.
Proof.
  induction fuel as [|fuel IH]; intros extra samples decr ws q r; simpl.
  - destruct (samples >? 0) eqn:E; [discriminate|].
    intros <-. destruct extra; simpl; rewrite E; reflexivity.
  - destruct (samples >? 0) eqn:E; [|auto].
    destruct (_pop_buffer samples decr q) as [[w|e] q1]; [apply IH|].
    destruct e; auto.
    destruct (np_zeros samples); [apply IH|auto].
Qed.

Lemma zeros_app a b :
  0 <= a -> 0 <= b ->
  repeat (0 : sample) (Z.to_nat (a + b))
    = repeat 0 (Z.to_nat a) ++ repeat 0 (Z.to_nat b).
Proof.
  intros Ha Hb. rewrite Z2Nat.inj_add by lia. apply repeat_app.
Qed.

Lemma quiet_ret {A} (a : A) : quiet (ret a).
Proof. intros q q'. discriminate. Qed.

Lemma quiet_gets {A} (f : queue -> A) : quiet (gets f).
Proof. intros q q'. discriminate. Qed.

Lemma quiet_modify f : quiet (modify f).
Proof. intros q q'. discriminate. Qed.

Lemma quiet_raise {A} e : e <> QueueEmptyError -> quiet (@raise A e).
Proof. intros He q q'. unfold raise. congruence. Qed.

Lemma quiet_bind {A B} (m : M A) (f : A -> M B) :
  quiet m -> (forall a, quiet (f a)) -> quiet (bind m f).
Proof.
  intros Hm Hf q q'. unfold bind.
  destruct (m q) as [[a|e] q1] eqn:E; [apply Hf|].
  intros [= -> ->]. exact (Hm _ _ E).
Qed.

Lemma quiet_for_each {A} (l : list A) body :
  (forall x, quiet (body x)) -> quiet (for_each l body).
Proof.
  intros Hb. induction l as [|x l IH]; simpl.
  - apply quiet_ret.
  - apply quiet_bind; [apply Hb | intros; exact IH].
Qed.

Lemma quiet_py_index {A} (l : list A) i : quiet (lift (py_index l i)).
Proof.
  intros q q'. unfold lift, py_index.
  destruct (_ || _); [discriminate|].
  destruct (nth_error _ _); discriminate.
Qed.

Ltac quiet_step :=
  lazymatch goal with
  | |- quiet (ret _) => apply quiet_ret
  | |- quiet (gets _) => apply quiet_gets
  | |- quiet (modify _) => apply quiet_modify
  | |- quiet (raise _) => apply quiet_raise; discriminate
  | |- quiet (lift (py_index _ _)) => apply quiet_py_index
  | |- quiet (for_each _ _) => apply quiet_for_each; intros
  | |- quiet (bind _ _) => apply quiet_bind; [|intros]
  | |- quiet (match ?x with _ => _ end) => destruct x
  end.

Lemma quiet_any_trials_left keys : quiet (any_trials_left keys).
Proof.
  induction keys as [|k keys IH]; simpl.
  - apply quiet_ret.
  - unfold data_at. repeat quiet_step. exact IH.
Qed.

Lemma quiet_pop_key k decr : quiet (pop_key k decr).
Proof.
  unfold pop_key, decrement_key, key_in_queue, add_trials, remaining_trials,
    remove_key, _notify, data_at.
  repeat first [quiet_step | apply quiet_any_trials_left].
Qed.

Lemma quiet_after_pop_next decr (kd : uuid * token) :
  quiet (let '(k, data) := kd in
    modify (with_source (Some match source data with
                             | Generator g => Generator (reset g)
                             | Waveform w => Waveform w
                             end)) ;;;
    delay <- next_delay k ;;
    fs <- the_fs ;;
    modify (with_delay_samples (py_round (delay * fs))) ;;;
    ds <- gets _delay_samples ;;
    (if ds <? 0 then raise (ValueError "Invalid option for delay samples")
     else ret tt) ;;;
    base <- gets _t0 ;;
    s <- gets _samples ;;
    ts <- py_div (inject_Z s) fs ;;
    let info := {| t0 := (base + ts)%Q;
                   info_duration := duration data;
                   key := k;
                   info_metadata := metadata_ data;
                   decrement := decr |} in
    modify (fun q => with_generated (_generated q ++ [info]) q) ;;;
    _notify (added info)).
Proof.
  destruct kd as [k data].
  unfold next_delay, the_fs, py_div, _notify, data_at.
  repeat quiet_step.
Qed.

Ltac never_empty :=
  lazymatch goal with
  | |- ?m ?q = (Raise QueueEmptyError, _) -> _ =>
      let H := fresh in
      let Hq := fresh in
      intros H; exfalso;
      assert (Hq : quiet m) by (unfold py_mod; repeat quiet_step);
      exact (Hq _ _ H)
  end.

(** [next_key] finds the queue empty before it changes anything, and from
    attributes that [pop_buffer] leaves alone. *)
Lemma next_key_empty_again q q1 :
  next_key q = (Raise QueueEmptyError, q1) ->
  q1 = q /\
  forall s e,
    next_key (with_samples s (with_empty e q))
      = (Raise QueueEmptyError, with_samples s (with_empty e q)).
Proof.
  unfold next_key. mrun.
  destruct (kind q) eqn:Hk; mrun.
  2:{ destruct (_complete q) eqn:E; mrun; [|never_empty].
      intros [= <-]. split; [reflexivity|]. intros s e. mrun. rewrite Hk. mrun.
      rewrite E. reflexivity. }
  all: destruct (len (_ordering q) =? 0) eqn:E; mrun; [|never_empty].
  all: intros [= <-]; split; [reflexivity|]; intros s e; mrun; rewrite Hk; mrun.
  all: rewrite E; reflexivity.
Qed.

Lemma next_trial_empty decr q q1 :
  next_trial decr q = (Raise QueueEmptyError, q1) ->
  next_key q = (Raise QueueEmptyError, q1).
Proof.
  unfold next_trial.
  destruct (pop_next decr q) as [[kd|e] q0] eqn:E.
  { rewrite (bind_run _ _ _ _ _ E).
    intros H. destruct (quiet_after_pop_next decr kd _ _ H). }
  rewrite (bind_fail _ _ _ _ _ E). intros [= -> ->].
  revert E. unfold pop_next.
  destruct (next_key q) as [[k|e] q0] eqn:E.
  - rewrite (bind_run _ _ _ _ _ E). intros H. exfalso. revert H.
    apply quiet_bind; [apply quiet_pop_key|]. intros; apply quiet_ret.
  - rewrite (bind_fail _ _ _ _ _ E). intros [= -> ->]. reflexivity.
Qed.

Lemma next_trial_next_key_raises decr q e q1 :
  next_key q = (Raise e, q1) -> next_trial decr q = (Raise e, q1).
Proof.
  intros H. unfold next_trial, pop_next.
  rewrite !bind_assoc. apply bind_fail. exact H.
Qed.

(** When the queue is empty the loop finds it empty again, however many
    samples it is asked for. *)
Lemma _pop_buffer_empty_again samples decr q q1 :
  _pop_buffer samples decr q = (Raise QueueEmptyError, q1) ->
  q1 = q /\
  (forall samples', _pop_buffer samples' decr q = (Raise QueueEmptyError, q)) /\
  forall samples' s e,
    _pop_buffer samples' decr (with_samples s (with_empty e q))
      = (Raise QueueEmptyError, with_samples s (with_empty e q)).
Proof.
  unfold _pop_buffer. mrun.
  destruct (_paused q) eqn:Hp; mrun.
  { unfold np_zeros. destruct (samples <? 0); discriminate. }
  destruct (_source q) as [[w0|g]|] eqn:Hs; mrun.
  - unfold _get_samples, _get_samples_waveform.
    destruct (samples >? len w0); mrun; discriminate.
  - unfold _get_samples, _get_samples_generator.
    destruct (next g _) as [w g']. destruct (is_complete g'); mrun; discriminate.
  - destruct (_delay_samples q >? 0) eqn:Ed; mrun.
    { unfold np_zeros. destruct (_ <? 0); discriminate. }
    destruct (next_trial decr q) as [[[]|e] q2] eqn:En.
    { rewrite (bind_run _ _ _ _ _ En). discriminate. }
    rewrite (bind_fail _ _ _ _ _ En). intros [= -> ->].
    apply next_trial_empty in En as Hk.
    apply next_key_empty_again in Hk as [-> Hagain].
    split; [reflexivity|]. split.
    + intros samples'. mrun. rewrite Hp. mrun. rewrite Hs. mrun. rewrite Ed.
      exact (bind_fail _ _ _ _ _ En).
    + intros samples' s e.
      mrun. rewrite Hp. mrun. rewrite Hs. mrun. rewrite Ed.
      apply bind_fail, next_trial_next_key_raises, Hagain.
Qed.

Lemma with_samples_twice s s' q :
  with_samples s (with_samples s' q) = with_samples s q.
Proof. reflexivity. Qed.

#[local] Instance source_stays_ok_preorder : PreOrder source_stays_ok.
Proof.
  split; [intros q; exact id|].
  intros a b c H1 H2 H. apply H2, H1, H.
Qed.

Lemma next_trial_source_ok decr : keeps source_stays_ok (next_trial decr).
Proof.
  keeps_methods; unfold source_stays_ok; qsimpl; auto.
  intros _. destruct (source t); simpl; [exact I|lia].
Qed.

(** The read position of a generator never becomes negative. *)
Lemma _pop_buffer_source_ok samples decr q r q1 :
  source_ok (_source q) ->
  _pop_buffer samples decr q = (r, q1) ->
  source_ok (_source q1).
Proof.
  intros Hok. unfold _pop_buffer. mrun.
  destruct (_paused q) eqn:Hp; mrun.
  { intros [= _ <-]. exact Hok. }
  destruct (_source q) as [[w0|g]|] eqn:Hs; mrun.
  - unfold _get_samples, _get_samples_waveform.
    destruct (samples >? len w0); mrun; intros [= _ <-]; exact I.
  - unfold _get_samples, _get_samples_generator, next.
    match goal with |- context [is_complete ?g'] => destruct (is_complete g') end;
      mrun; intros [= _ <-]; simpl in *; lia.
  - destruct (_delay_samples q >? 0) eqn:Ed; mrun.
    { intros [= _ <-]. qsimpl. rewrite Hs. exact I. }
    pose proof (next_trial_source_ok decr q) as Hk. unfold after in Hk.
    destruct (next_trial decr q) as [[[]|e] q2] eqn:En.
    + rewrite (bind_run _ _ _ _ _ En). intros [= _ <-]. apply Hk. rewrite Hs. exact I.
    + rewrite (bind_fail _ _ _ _ _ En). intros [= _ <-]. apply Hk. rewrite Hs. exact I.
Qed.

(** One iteration asked for [a] samples against one asked for [a + b]:
    the same, or the first part of it. *)
Lemma _pop_buffer_cut a b decr q w q1 :
  0 < a -> 0 < b -> source_ok (_source q) ->
  _pop_buffer a decr q = (Ok w, q1) ->
  _pop_buffer (a + b) decr q = (Ok w, q1) \/
  (len w = a /\ exists w2 q2 q3,
     _pop_buffer b decr (with_samples (_samples q1 + a) q1) = (Ok w2, q2) /\
     _pop_buffer (a + b) decr q = (Ok (w ++ w2), q3) /\
     with_samples (_samples q3 + (a + len w2)) q3
       = with_samples (_samples q2 + len w2) q2).
Proof.
  intros Ha Hb Hok. unfold _pop_buffer. mrun.
  destruct (_paused q) eqn:Hp; mrun.
  { unfold np_zeros.
    destruct (a <? 0) eqn:E1; [lia|]. destruct (b <? 0) eqn:E2; [lia|].
    destruct (a + b <? 0) eqn:E3; [lia|].
    intros [= <- <-]. right. rewrite len_zeros by lia. split; [reflexivity|].
    eexists _, _, _. rewrite Hp. mrun. split; [reflexivity|].
    rewrite zeros_app by lia. split; [reflexivity|].
    rewrite len_zeros by lia. unfold with_samples; qsimpl. f_equal. lia. }
  destruct (_source q) as [[w0|g]|] eqn:Hs; mrun.
  - unfold _get_samples, _get_samples_waveform.
    destruct (a >? len w0) eqn:E; mrun; intros [= <- <-].
    + left. destruct (a + b >? len w0) eqn:E'; [reflexivity|lia].
    + right. rewrite py_prefix_firstn, py_suffix_skipn by lia.
      assert (Hl : len (firstn (Z.to_nat a) w0) = a).
      { unfold len in *. rewrite length_firstn. lia. }
      assert (Hl' : len (skipn (Z.to_nat a) w0) = len w0 - a).
      { unfold len in *. rewrite length_skipn. lia. }
      split; [exact Hl|].
      destruct (b >? len w0 - a) eqn:E1.
      * destruct (a + b >? len w0) eqn:E2; [|lia].
        eexists _, _, _. split; [|split].
        -- mrun. rewrite Hp. mrun. rewrite Hl', E1. mrun. reflexivity.
        -- mrun. rewrite firstn_skipn. reflexivity.
        -- unfold with_samples, with_source; qsimpl. f_equal. lia.
      * destruct (a + b >? len w0) eqn:E2; [lia|].
        eexists _, _, _. split; [|split].
        -- mrun. rewrite Hp. mrun. rewrite Hl', E1. mrun. reflexivity.
        -- mrun. rewrite !py_prefix_firstn by lia.
           rewrite Z2Nat.inj_add, firstn_plus by lia. reflexivity.
        -- rewrite !py_suffix_skipn by lia. rewrite skipn_skipn.
           unfold with_samples, with_source; qsimpl.
           rewrite (Nat.add_comm (Z.to_nat b)), Z2Nat.inj_add by lia.
           f_equal. lia.
  - simpl in Hok.
    unfold _get_samples, _get_samples_generator, next, n_samples_remaining,
      is_complete.
    cbn [gen_wave gen_pos].
    set (L := len (gen_wave g)). set (pos := gen_pos g) in *.
    destruct (Z_le_gt_dec (Z.max 0 (L - pos)) a) as [Hrem|Hrem].
    + intros Hrun. left.
      replace (Z.min (Z.max 0 (L - pos)) (a + b))
        with (Z.min (Z.max 0 (L - pos)) a) by lia.
      exact Hrun.
    + rewrite (Z.min_r _ a), (Z.max_r 0 a) by lia.
      destruct (L <=? pos + a) eqn:E; [lia|]. mrun. intros [= <- <-].
      right.
      assert (Hl : len (py_slice (gen_wave g) pos (pos + a)) = a).
      { apply py_slice_length; fold L; lia. }
      split; [exact Hl|].
      set (n2 := Z.min (L - (pos + a)) b).
      assert (Hn2 : 0 < n2 <= b) by lia.
      replace (Z.min (Z.max 0 (L - pos)) (a + b)) with (a + n2) by lia.
      rewrite (Z.max_r 0 (a + n2)) by lia.
      destruct (L <=? pos + a + n2) eqn:E'.
      all: eexists (py_slice (gen_wave g) (pos + a) (pos + a + n2)), _, _.
      all: split; [|split].
      all: try (rewrite py_slice_app by lia;
                replace (pos + (a + n2)) with (pos + a + n2) by lia;
                rewrite E'; mrun; reflexivity).
      all: try (mrun; rewrite Hp; mrun;
                unfold _get_samples, _get_samples_generator, next,
                  n_samples_remaining, is_complete;
                cbn [gen_wave gen_pos]; fold L;
                rewrite (Z.max_r 0 (L - (pos + a))) by lia; fold n2;
                rewrite (Z.max_r 0 n2) by lia;
                rewrite E'; mrun; reflexivity).
      all: unfold with_samples, with_source; qsimpl; f_equal; lia.
  - destruct (_delay_samples q >? 0) eqn:Ed; [|auto].
    set (ds := _delay_samples q) in *.
    destruct (Z_le_gt_dec ds a) as [Hds|Hds].
    { intros Hrun. left. rewrite (Z.min_l ds (a + b)) by lia.
      rewrite (Z.min_l ds a) in Hrun by lia. exact Hrun. }
    rewrite (Z.min_r ds a) by lia. mrun. unfold np_zeros.
    destruct (a <? 0) eqn:E1; [lia|]. intros [= <- <-]. right.
    rewrite len_zeros by lia. split; [reflexivity|].
    set (n2 := Z.min (ds - a) b).
    assert (Hn2 : 0 < n2 <= b) by lia.
    replace (Z.min ds (a + b)) with (a + n2) by lia.
    eexists (repeat 0 (Z.to_nat n2)), _, _. split; [|split].
    + mrun. rewrite Hp. mrun. rewrite Hs. mrun.
      destruct (ds - a >? 0) eqn:E2; [|lia]. mrun. fold n2.
      unfold np_zeros. destruct (n2 <? 0) eqn:E3; [lia|]. reflexivity.
    + mrun. unfold np_zeros. destruct (a + n2 <? 0) eqn:E3; [lia|].
      rewrite zeros_app by lia. reflexivity.
    + rewrite len_zeros by lia.
      unfold with_samples, with_delay_samples; qsimpl. f_equal; lia.
Qed.

(** The loop asked for [a] samples and then, from where it stopped, for
    [b]: asked for [a + b] at once, it collects the same samples and stops
    in the same state. *)
Lemma pop_buffer_loop_split decr f1 : forall a b q t1 q1 f2 t2 q2,
  0 <= a -> 0 < b -> source_ok (_source q) ->
  pop_buffer_loop f1 a decr [] q = Some (Ok t1, q1) ->
  pop_buffer_loop f2 b decr [] q1 = Some (Ok t2, q2) ->
  exists t,
    pop_buffer_loop (f1 + f2) (a + b) decr [] q = Some (Ok t, q2) /\
    concat t = concat t1 ++ concat t2.
Proof.
  induction f1 as [|f1 IH]; intros a b q t1 q1 f2 t2 q2 Ha Hb Hok H1 H2.
  - simpl in H1. destruct (a >? 0) eqn:E; [discriminate|].
    injection H1 as <- <-. assert (a = 0) by lia. subst a.
    exists t2. split; [exact H2 | reflexivity].
  - simpl in H1. destruct (a >? 0) eqn:E.
    2:{ injection H1 as <- <-. assert (a = 0) by lia. subst a.
        exists t2. split; [|reflexivity].
        rewrite Nat.add_comm. apply pop_buffer_loop_more. exact H2. }
    assert (Ha' : 0 < a) by lia.
    destruct (_pop_buffer a decr q) as [[w|e] q'] eqn:Es.
    + pose proof (_pop_buffer_length _ _ _ _ _ Ha' Es) as Hlen.
      pose proof (_pop_buffer_source_ok _ _ _ _ _ Hok Es) as Hok'.
      rewrite pop_buffer_loop_acc in H1.
      destruct (pop_buffer_loop f1 (a - len w) decr [] _)
        as [[[new|e] q1']|] eqn:Erest; try discriminate.
      injection H1 as <- <-.
      destruct (_pop_buffer_cut a b decr q w q' Ha' Hb Hok Es)
        as [Hsame|(Hfull & w2 & q2' & q3 & Hb2 & Hab & Hst)].
      * destruct (IH (a - len w) b (with_samples (_samples q' + len w) q')
                    new q1' f2 t2 q2) as (t & Ht & Hc);
          try assumption; try lia.
        exists (w :: t). split.
        -- simpl. destruct (a + b >? 0) eqn:E'; [|lia]. rewrite Hsame.
           rewrite pop_buffer_loop_acc.
           replace (a + b - len w) with (a - len w + b) by lia.
           rewrite Ht. reflexivity.
        -- simpl. rewrite Hc, app_assoc. reflexivity.
      * rewrite Hfull, Z.sub_diag in Erest.
        assert (new = [] /\ q1' = with_samples (_samples q' + a) q') as [-> ->].
        { destruct f1; simpl in Erest; injection Erest as <- <-; auto. }
        destruct f2 as [|f2]; simpl in H2;
          (destruct (b >? 0) eqn:E'; [|lia]); [discriminate|].
        rewrite Hb2 in H2. rewrite pop_buffer_loop_acc in H2.
        destruct (pop_buffer_loop f2 (b - len w2) decr [] _)
          as [[[new|e] q2'']|] eqn:Erest2; try discriminate.
        injection H2 as <- <-.
        exists ((w ++ w2) :: new). split.
        -- simpl. destruct (a + b >? 0) eqn:E''; [|lia]. rewrite Hab.
           rewrite pop_buffer_loop_acc.
           replace (len (w ++ w2)) with (a + len w2)
             by (rewrite len_app; lia).
           rewrite Hst.
           replace (a + b - (a + len w2)) with (b - len w2) by lia.
           replace (f1 + S f2)%nat with (f2 + S f1)%nat by lia.
           rewrite (pop_buffer_loop_more _ _ _ _ _ _ _ Erest2). reflexivity.
        -- simpl. rewrite !app_nil_r, app_assoc. reflexivity.
    + destruct e; try discriminate.
      apply _pop_buffer_empty_again in Es as (-> & Hhere & Hagain).
      unfold np_zeros in H1. destruct (a <? 0) eqn:E1; [lia|].
      rewrite len_zeros, Z.sub_diag in H1 by lia.
      assert (t1 = [repeat 0 (Z.to_nat a)] /\
              q1 = with_samples (_samples q + a) (with_empty true q)) as [-> ->].
      { destruct f1; simpl in H1; injection H1 as <- <-; auto. }
      destruct f2 as [|f2]; simpl in H2;
        (destruct (b >? 0) eqn:E'; [|lia]); [discriminate|].
      rewrite Hagain in H2.
      unfold np_zeros in H2. destruct (b <? 0) eqn:E2; [lia|].
      rewrite len_zeros, Z.sub_diag in H2 by lia.
      assert (t2 = [repeat 0 (Z.to_nat b)] /\
              q2 = with_samples (_samples q + a + b) (with_empty true q))
        as [-> ->].
      { destruct f2; simpl in H2; injection H2 as <- <-; auto. }
      exists [repeat 0 (Z.to_nat (a + b))]. split.
      * simpl. destruct (a + b >? 0) eqn:E''; [|lia].
        rewrite Hhere. unfold np_zeros. destruct (a + b <? 0) eqn:E3; [lia|].
        rewrite len_zeros, Z.sub_diag by lia.
        replace (_samples q + (a + b)) with (_samples q + a + b) by lia.
        destruct (f1 + S f2)%nat; reflexivity.
      * simpl. rewrite !app_nil_r. apply zeros_app; lia.
Qed.

Lemma np_concatenate_Ok arrays w :
  np_concatenate arrays = Ok w -> w = concat arrays /\ arrays <> [].
Proof.
  destruct arrays; [discriminate|]. intros [= <-]. split; [reflexivity|discriminate].
Qed.

(** X1: a request cut in two.  If [pop_buffer(a)] returns [w1] and, called
    next, [pop_buffer(b)] returns [w2], then [pop_buffer(a + b)] called in
    their place returns [w1] followed by [w2] and leaves the queue in the
    same state, the listeners having received the same calls: the samples
    that the queue plays do not depend on the sizes of the requests. *)
Theorem pop_buffer_in_two_calls q a b decr f1 f2 w1 q1 w2 q2 :
  source_ok (_source q) -> 0 < a -> 0 < b ->
  pop_buffer f1 a decr q = Some (Ok w1, q1) ->
  pop_buffer f2 b decr q1 = Some (Ok w2, q2) ->
  pop_buffer (f1 + f2) (a + b) decr q = Some (Ok (w1 ++ w2), q2).
Proof.
  intros Hok Ha Hb. unfold pop_buffer.
  destruct (pop_buffer_loop f1 a decr [] q) as [[[t1|e] q1']|] eqn:E1;
    try discriminate.
  intros [= H1 <-]. apply np_concatenate_Ok in H1 as [-> _].
  destruct (pop_buffer_loop f2 b decr [] q1') as [[[t2|e] q2']|] eqn:E2;
    try discriminate.
  intros [= H2 <-]. apply np_concatenate_Ok in H2 as [-> _].
  destruct (pop_buffer_loop_split decr f1 a b q t1 q1' f2 t2 q2')
    as (t & Ht & Hc); try assumption; try lia.
  rewrite Ht.
  apply pop_buffer_loop_exact in Ht as (new & Hnew & _ & _ & Hne); [|lia].
  simpl in Hnew. subst new. unfold np_concatenate.
  destruct t; [exfalso; apply Hne; [lia|reflexivity]|].
  rewrite Hc. reflexivity.
Qed.

(** The queue of the first scenario asked for three samples and then for
    four, and asked for seven. *)
Lemma pop_buffer_in_two_calls_witness :
  exists q1 q2,
    pop_buffer 3 3 true one_ramp = Some (Ok [1; 2; 3], q1) /\
    pop_buffer 3 4 true q1 = Some (Ok [4; 5; 0; 0], q2) /\
    pop_buffer (3 + 3) (3 + 4) true one_ramp
      = Some (Ok ([1; 2; 3] ++ [4; 5; 0; 0]), q2).
Proof.
  exists (state_of (pop_buffer 3 3 true one_ramp) one_ramp).
  exists (state_of (pop_buffer 3 4 true
                      (state_of (pop_buffer 3 3 true one_ramp) one_ramp))
            one_ramp).
  assert (H1 : pop_buffer 3 3 true one_ramp
               = Some (Ok [1; 2; 3],
                       state_of (pop_buffer 3 3 true one_ramp) one_ramp))
    by (vm_compute; reflexivity).
  assert (H2 : pop_buffer 3 4 true
                 (state_of (pop_buffer 3 3 true one_ramp) one_ramp)
               = Some (Ok [4; 5; 0; 0],
                       state_of (pop_buffer 3 4 true
                                   (state_of (pop_buffer 3 3 true one_ramp)
                                      one_ramp)) one_ramp))
    by (vm_compute; reflexivity).
  split; [exact H1|]. split; [exact H2|].
  exact (pop_buffer_in_two_calls one_ramp 3 4 true 3 3 _ _ _ _
           I eq_refl eq_refl H1 H2).
Defined.

(** *** Pausing *)

Lemma get_ts_Some f q :
  _fs q = Some f -> ~ (f == 0)%Q ->
  get_ts q = (Ok (inject_Z (_samples q) / f)%Q, q).
Proof.
  intros Hf Hz. unfold get_ts, the_fs, py_div. mrun. rewrite Hf. mrun.
  rewrite Qeq_bool_false by exact Hz. reflexivity.
Qed.

Lemma pop_buffer_paused q n decr fuel :
  _paused q = true -> 0 < n ->
  pop_buffer (S fuel) n decr q
    = Some (Ok (repeat 0 (Z.to_nat n)), with_samples (_samples q + n) q).
Proof.
  intros Hp Hn. unfold pop_buffer. simpl.
  destruct (n >? 0) eqn:E; [|lia].
  unfold _pop_buffer. mrun. rewrite Hp. unfold lift, np_zeros.
  destruct (n <? 0) eqn:E1; [lia|].
  rewrite len_zeros, Z.sub_diag by lia.
  destruct fuel; simpl; rewrite app_nil_r; reflexivity.
Qed.

(** X2: a pause.  Between [pause()] and [resume()] a call [pop_buffer(n)]
    returns [n] zeros, and after [resume()] the queue is as it was before
    [pause()] but for the [n] samples counted: no trial was started or
    counted, no delay was used and no listener was called. *)
Theorem pause_plays_silence q f n decr fuel :
  _fs q = Some f -> ~ (f == 0)%Q -> _paused q = false -> 0 < n ->
  exists q1 q2,
    pause None q = (Ok tt, q1) /\
    pop_buffer (S fuel) n decr q1 = Some (Ok (repeat 0 (Z.to_nat n)), q2) /\
    resume None q2 = (Ok tt, with_samples (_samples q + n) q).
Proof.
  intros Hf Hz Hp Hn.
  exists (with_paused true q), (with_samples (_samples q + n) (with_paused true q)).
  split; [reflexivity|]. split.
  - exact (pop_buffer_paused (with_paused true q) n decr fuel eq_refl Hn).
  - set (q2 := with_samples (_samples q + n) (with_paused true q)).
    assert (Hf2 : _fs q2 = Some f) by exact Hf.
    unfold resume. rewrite (bind_run _ _ _ _ _ (get_ts_Some f q2 Hf2 Hz)).
    subst q2. mrun. unfold modify, with_paused, with_samples. qsimpl. rewrite Hp.
    reflexivity.
Qed.

Lemma pause_plays_silence_witness :
  exists q1 q2,
    pause None one_ramp = (Ok tt, q1) /\
    pop_buffer 1 4 true q1 = Some (Ok [0; 0; 0; 0], q2) /\
    resume None q2 = (Ok tt, with_samples 4 one_ramp).
Proof.
  apply (pause_plays_silence one_ramp 100 4 true 0).
  - reflexivity.
  - discriminate.
  - reflexivity.
  - lia.
Defined.

(** *** Rewinding *)


(** *** Adding tokens *)

Lemma append_run src n dl dur md q :
  append src n dl dur md q =
    match stored_duration src dur (_fs q) with
    | Some d =>
        (Ok (uuid_next q),
         with_ordering (_ordering q ++ [uuid_next q])
           (with_data (<[uuid_next q := new_token src n dl d md]> (_data q))
              (with_uuid_next (N.succ (uuid_next q)) (counted q))))
    | None =>
        (Raise match _fs q with
               | Some _ => ZeroDivisionError
               | None => TypeError "unsupported operand type(s): NoneType"
               end,
         with_uuid_next (N.succ (uuid_next q)) (counted q))
    end.
Proof.
  unfold append, _add_source, counted, stored_duration. mrun.
  destruct (kind q) eqn:Hk; mrun.
  all: destruct dur as [d|]; mrun; [reflexivity|].
  all: destruct src as [w|g]; mrun; [|reflexivity].
  all: unfold the_fs, py_div; mrun.
  all: destruct (_fs q) as [f|]; mrun; [|reflexivity].
  all: destruct (Qeq_bool f 0); mrun; reflexivity.
Qed.

(** X4: a token added is a token found.  When [append] returns a key, that
    key is the one drawn, [get_info] of it returns the token as it was given
    (with the duration given, or that of the source), [remaining_trials] is
    the number of trials asked for, the key is last in the ordering, and the
    other tokens are as they were. *)
Theorem append_then_get_info src n dl dur md q k q' :
  append src n dl dur md q = (Ok k, q') ->
  exists d,
    stored_duration src dur (_fs q) = Some d /\
    k = uuid_next q /\
    get_info k q' = (Ok (new_token src n dl d md), q') /\
    remaining_trials k q' = (Ok n, q') /\
    _ordering q' = _ordering q ++ [k] /\
    count_factories q' = count_factories q + 1 /\
    forall k', k' <> k -> _data q' !! k' = _data q !! k'.
Proof.
  rewrite append_run.
  destruct (stored_duration src dur (_fs q)) as [d|]; [|discriminate].
  intros [= <- <-]. exists d. split; [reflexivity|]. split; [reflexivity|].
  assert (Hd : _data (with_ordering (_ordering q ++ [uuid_next q])
                 (with_data (<[uuid_next q := new_token src n dl d md]> (_data q))
                    (with_uuid_next (N.succ (uuid_next q)) (counted q))))
               !! uuid_next q = Some (new_token src n dl d md)).
  { qsimpl. unfold counted. destruct (kind q); qsimpl; apply lookup_insert_eq. }
  split; [exact (data_at_Some _ _ _ Hd)|]. split.
  { unfold remaining_trials. rewrite (bind_run _ _ _ _ _ (data_at_Some _ _ _ Hd)).
    reflexivity. }
  unfold count_factories, counted.
  destruct (kind q); qsimpl; rewrite len_app; repeat split;
    intros; apply lookup_insert_ne; congruence.
Qed.

Lemma append_then_get_info_witness :
  exists d,
    stored_duration ramp None (_fs fifo_100Hz) = Some d /\
    0%N = uuid_next fifo_100Hz /\
    get_info 0%N one_ramp = (Ok (new_token ramp 1 (DSeq [0%Q]) d None), one_ramp) /\
    remaining_trials 0%N one_ramp = (Ok 1, one_ramp) /\
    _ordering one_ramp = _ordering fifo_100Hz ++ [0%N] /\
    count_factories one_ramp = count_factories fifo_100Hz + 1 /\
    forall k', k' <> 0%N -> _data one_ramp !! k' = _data fifo_100Hz !! k'.
Proof.
  apply (append_then_get_info ramp 1 (DSeq [0%Q]) None None fifo_100Hz 0%N one_ramp).
  vm_compute. reflexivity.
Defined.

(** *** extend *)

Lemma repeat_lookup {A} (x : A) n i : (i < n)%nat -> repeat x n !! i = Some x.
Proof.
  revert i. induction n as [|n IH]; intros i Hi; [lia|].
  destruct i as [|i]; simpl; [reflexivity|]. apply IH. lia.
Qed.

Lemma check_param_Ok {A} name (p : param A) n q l q' :
  check_param name p n q = (Ok l, q') ->
  q' = q /\ length l = n /\ forall i, (i < n)%nat -> l !! i = param_at p i.
Proof.
  unfold check_param. destruct p as [x|l0].
  - intros [= <- <-]. split; [reflexivity|]. split; [apply repeat_length|].
    intros i Hi. simpl. apply repeat_lookup. exact Hi.
  - case_bool_decide as Hl.
    + intros [= <- <-]. auto.
    + simpl. discriminate.
Qed.

Lemma zip5_lookup {A B C D E} (la : list A) : forall (lb : list B)
    (lc : list C) (ld : list D) (le : list E) i a,
  length lb = length la -> length lc = length la ->
  length ld = length la -> length le = length la ->
  la !! i = Some a ->
  exists b c d e,
    lb !! i = Some b /\ lc !! i = Some c /\ ld !! i = Some d /\
    le !! i = Some e /\ zip5 la lb lc ld le !! i = Some (a, b, c, d, e).
Proof.
  induction la as [|a0 la IH]; intros lb lc ld le i a Hb Hc Hd He Ha.
  { destruct i; discriminate. }
  destruct lb as [|b0 lb]; [discriminate|]. destruct lc as [|c0 lc]; [discriminate|].
  destruct ld as [|d0 ld]; [discriminate|]. destruct le as [|e0 le]; [discriminate|].
  destruct i as [|i]; simpl in *.
  - injection Ha as <-. eauto 10.
  - apply IH; auto; lia.
Qed.

(** The keys drawn are new: later tokens leave the earlier ones alone. *)
Lemma extend_loop_tokens args : forall uuids q ks q',
  extend_loop args uuids q = (Ok ks, q') ->
  (uuid_next q <= uuid_next q')%N /\
  (forall k, (k < uuid_next q)%N -> _data q' !! k = _data q !! k) /\
  firstn (length uuids) ks = uuids /\
  forall i src n dl dur md,
    args !! i = Some (src, n, dl, dur, md) ->
    exists k d,
      ks !! (length uuids + i)%nat = Some k /\ (uuid_next q <= k)%N /\
      _data q' !! k = Some (new_token src n dl d md) /\
      (dur = None \/ dur = Some d).
Proof.
  induction args as [|[[[[src0 n0] dl0] dur0] md0] args IH];
    intros uuids q ks q'; simpl.
  - intros [= <- <-]. split; [lia|]. split; [auto|].
    split; [apply firstn_all|]. intros i ? ? ? ? ? Hi. destruct i; discriminate.
  - intros H.
    destruct (append src0 n0 dl0 dur0 md0 q) as [[k|e] q1] eqn:Ea.
    2:{ rewrite (bind_fail _ _ _ _ _ Ea) in H. discriminate. }
    rewrite (bind_run _ _ _ _ _ Ea) in H.
    rewrite append_run in Ea.
    destruct (stored_duration src0 dur0 (_fs q)) as [d0|] eqn:Ed; [|discriminate].
    injection Ea as <- <-.
    apply IH in H as (Hle & Hold & Hfirst & Hall).
    revert Hle Hold Hfirst Hall. qsimpl. rewrite length_app. simpl.
    intros Hle Hold Hfirst Hall.
    assert (Hk : _data q' !! uuid_next q = Some (new_token src0 n0 dl0 d0 md0)).
    { rewrite Hold by lia. apply lookup_insert_eq. }
    split; [lia|]. split; [|split].
    + intros k Hlt. rewrite Hold by lia. apply lookup_insert_ne; lia.
    + replace (take (length uuids) ks)
        with (take (length uuids) (take (length uuids + 1) ks)).
      2:{ rewrite take_take. f_equal. lia. }
      rewrite Hfirst. apply take_app_length.
    + intros i src n dl dur md Hi. destruct i as [|i]; simpl in Hi.
      * injection Hi as -> -> -> -> ->.
        exists (uuid_next q), d0. split; [|split; [lia|split; [exact Hk|]]].
        -- rewrite Nat.add_0_r, <- (lookup_take_lt ks (length uuids + 1)) by lia.
           rewrite Hfirst. apply list_lookup_middle. reflexivity.
        -- unfold stored_duration in Ed. destruct dur as [d|]; [|auto].
           injection Ed as ->. auto.
      * destruct (Hall i src n dl dur md Hi) as (k & d & Hks & Hge & Hd & Hdur).
        exists k, d. replace (length uuids + S i)%nat
          with (length uuids + 1 + i)%nat by lia.
        repeat split; auto. lia.
Qed.

Lemma stored_duration_Some src dur f :
  ~ (f == 0)%Q -> exists d, stored_duration src dur (Some f) = Some d.
Proof.
  intros Hz. unfold stored_duration.
  destruct dur as [d|]; [eauto|]. destruct src as [w|g]; [|eauto].
  rewrite Qeq_bool_false by exact Hz. eauto.
Qed.

Lemma extend_loop_returns f args : forall uuids q,
  _fs q = Some f -> ~ (f == 0)%Q ->
  exists ks q', extend_loop args uuids q = (Ok ks, q').
Proof.
  intros uuids q Hf Hz. revert uuids q Hf.
  induction args as [|[[[[src0 n0] dl0] dur0] md0] args IH]; intros uuids q Hf;
    simpl.
  - eauto.
  - destruct (stored_duration_Some src0 dur0 f Hz) as [d Hd].
    pose proof (append_run src0 n0 dl0 dur0 md0 q) as Ha.
    rewrite Hf, Hd in Ha. rewrite (bind_run _ _ _ _ _ Ha).
    apply IH. unfold counted. destruct (kind q); exact Hf.
Qed.

(** X5: [extend] is [append] for each source in turn.  When it returns,
    it returns one key for each source, in order, which are the keys added
    to the ordering; the token of the key of rank [i] has the source of
    rank [i] and the trials, delays and metadata given for it, as a scalar
    for all or in a sequence.  And it returns whenever the sequences have
    the length of the sources and the sampling rate is set and not zero. *)
Theorem extend_stores_each_source sources n dl dur md q :
  (forall ks q',
     extend sources n dl dur md q = (Ok ks, q') ->
     length ks = length sources /\
     _ordering q' = _ordering q ++ ks /\
     forall i src, sources !! i = Some src ->
       exists k tok,
         ks !! i = Some k /\ _data q' !! k = Some tok /\
         source tok = src /\
         Some (trials tok) = param_at n i /\
         Some (requested_trials tok) = param_at n i /\
         Some (delays tok) = as_iterator <$> param_at dl i /\
         Some (metadata_ tok) = param_at md i) /\
  (forall f,
     _fs q = Some f -> ~ (f == 0)%Q ->
     ~ mismatched n (length sources) -> ~ mismatched dl (length sources) ->
     ~ mismatched dur (length sources) -> ~ mismatched md (length sources) ->
     exists ks q', extend sources n dl dur md q = (Ok ks, q')).
Proof.
  split.
  - intros ks q' H.
    destruct (extend_returns_keys _ _ _ _ _ _ _ _ H) as [Hlen Hord].
    split; [exact Hlen|]. split; [exact Hord|].
    intros i src Hi. revert H. unfold extend.
    destruct (check_param "trials" n (length sources) q) as [[ln|e] q1] eqn:E1.
    2:{ rewrite (bind_fail _ _ _ _ _ E1). discriminate. }
    rewrite (bind_run _ _ _ _ _ E1).
    apply check_param_Ok in E1 as (-> & Hn & Hnl).
    destruct (check_param "delays" dl (length sources) q) as [[ldl|e] q1] eqn:E2.
    2:{ rewrite (bind_fail _ _ _ _ _ E2). discriminate. }
    rewrite (bind_run _ _ _ _ _ E2).
    apply check_param_Ok in E2 as (-> & Hdl & Hdll).
    destruct (check_param "duration" dur (length sources) q) as [[ldur|e] q1] eqn:E3.
    2:{ rewrite (bind_fail _ _ _ _ _ E3). discriminate. }
    rewrite (bind_run _ _ _ _ _ E3).
    apply check_param_Ok in E3 as (-> & Hdur & Hdurl).
    destruct (check_param "metadata" md (length sources) q) as [[lmd|e] q1] eqn:E4.
    2:{ rewrite (bind_fail _ _ _ _ _ E4). discriminate. }
    rewrite (bind_run _ _ _ _ _ E4).
    apply check_param_Ok in E4 as (-> & Hmd & Hmdl).
    intros H. apply extend_loop_tokens in H as (_ & _ & _ & Hall).
    destruct (zip5_lookup sources ln ldl ldur lmd i src Hn Hdl Hdur Hmd Hi)
      as (a & b & c & d & Ha & Hb & Hc & Hd & Hz).
    destruct (Hall _ _ _ _ _ _ Hz) as (k & d' & Hk & _ & Htok & _).
    assert (Hlt : (i < length sources)%nat) by (eapply lookup_lt_Some; eassumption).
    exists k, (new_token src a b d' d). simpl in Hk.
    repeat split; try assumption; simpl.
    + rewrite <- Hnl, Ha by exact Hlt. reflexivity.
    + rewrite <- Hnl, Ha by exact Hlt. reflexivity.
    + rewrite <- Hdll, Hb by exact Hlt. reflexivity.
    + rewrite <- Hmdl, Hd by exact Hlt. reflexivity.
  - intros f Hf Hz H1 H2 H3 H4. unfold extend.
    destruct (check_param_cases "trials" n (length sources) q)
      as [(_ & l1 & E1 & _)|[? _]]; [|contradiction].
    destruct (check_param_cases "delays" dl (length sources) q)
      as [(_ & l2 & E2 & _)|[? _]]; [|contradiction].
    destruct (check_param_cases "duration" dur (length sources) q)
      as [(_ & l3 & E3 & _)|[? _]]; [|contradiction].
    destruct (check_param_cases "metadata" md (length sources) q)
      as [(_ & l4 & E4 & _)|[? _]]; [|contradiction].
    rewrite (bind_run _ _ _ _ _ E1), (bind_run _ _ _ _ _ E2),
      (bind_run _ _ _ _ _ E3), (bind_run _ _ _ _ _ E4).
    apply (extend_loop_returns f); assumption.
Qed.

Lemma extend_stores_each_source_witness :
  exists ks q',
    two_ramps = (Ok ks, q') /\
    length ks = 2%nat /\
    exists k tok,
      ks !! 1%nat = Some k /\ _data q' !! k = Some tok /\
      source tok = ramp /\ Some (trials tok) = Some 2.
Proof.
  destruct (proj2 (extend_stores_each_source [ramp; ramp] (Sequence [1; 2])
                     (Scalar DNone) (Scalar None) (Scalar None) fifo_100Hz)
              100%Q) as (ks & q' & H).
  - reflexivity.
  - discriminate.
  - simpl. lia.
  - simpl. tauto.
  - simpl. tauto.
  - simpl. tauto.
  - exists ks, q'. split; [exact H|].
    destruct (proj1 (extend_stores_each_source [ramp; ramp] (Sequence [1; 2])
                       (Scalar DNone) (Scalar None) (Scalar None) fifo_100Hz)
                ks q' H) as (Hlen & _ & Hall).
    split; [exact Hlen|].
    destruct (Hall 1%nat ramp eq_refl) as (k & tok & Hk & Htok & Hsrc & Htr & _).
    exists k, tok. auto.
Defined.

(** *** The trial played at a time *)

Lemma filter_first {A} (p : A -> bool) (l : list A) :
  match List.filter p l with
  | x :: _ =>
      exists pre post, l = pre ++ x :: post /\ p x = true /\
        Forall (fun y => p y = false) pre
  | [] => Forall (fun y => p y = false) l
  end.
Proof.
  induction l as [|a l IH]; simpl; [constructor|].
  destruct (p a) eqn:E.
  - exists [], l. auto.
  - destruct (List.filter p l) as [|x r].
    + constructor; assumption.
    + destruct IH as (pre & post & -> & Hx & Hpre).
      exists (a :: pre), post. auto.
Qed.

Lemma Qle_bool_false x y : Qle_bool x y = false -> (y < x)%Q.
Proof.
  intros H. apply Qnot_le_lt. intros Hle.
  apply Qle_bool_iff in Hle. congruence.
Qed.

(** X6: [get_closest_key(t)] is the key of the last trial generated among
    those that start at [t] or before: every trial generated after it
    starts after [t].  It is [None] exactly when every trial generated
    starts after [t]. *)
Theorem get_closest_key_latest q t :
  match get_closest_key t q with
  | Some k =>
      exists earlier info later,
        _generated q = earlier ++ info :: later /\ key info = k /\
        (t0 info <= t)%Q /\ Forall (fun i => (t < t0 i)%Q) later
  | None => Forall (fun i => (t < t0 i)%Q) (_generated q)
  end.
Proof.
  unfold get_closest_key.
  pose proof (filter_first (fun info => Qle_bool (t0 info) t) (rev (_generated q)))
    as H.
  destruct (List.filter _ (rev (_generated q))) as [|info r].
  - apply Forall_rev in H. rewrite rev_involutive in H.
    eapply Forall_impl; [exact H|]. intros i. apply Qle_bool_false.
  - destruct H as (pre & post & Hg & Hx & Hpre).
    exists (rev post), info, (rev pre). repeat split.
    + apply (f_equal (@rev _)) in Hg. rewrite rev_involutive in Hg.
      rewrite Hg, rev_app_distr. simpl. rewrite <- app_assoc. reflexivity.
    + apply Qle_bool_iff. exact Hx.
    + apply Forall_rev. eapply Forall_impl; [exact Hpre|].
      intros i. apply Qle_bool_false.
Qed.

(** *** Counting trials *)

Lemma count_trials_sum q : count_trials q = sum_over (left_of (kind q)) (_data q).
Proof. unfold count_trials, sum_over, left_of. destruct (kind q); reflexivity. Qed.

Lemma sum_over_delete f (d : gmap uuid token) k tok :
  d !! k = Some tok -> sum_over f d = sum_over f (delete k d) + f tok.
Proof.
  intros H. unfold sum_over.
  rewrite (map_fold_delete_L _ _ k tok d); [reflexivity| |exact H].
  intros. lia.
Qed.

(** Replacing a token changes the sum by the difference. *)
Lemma sum_over_replace f (d : gmap uuid token) k tok tok' :
  d !! k = Some tok ->
  sum_over f (<[k := tok']> d) = sum_over f d - f tok + f tok'.
Proof.
  intros H.
  rewrite (sum_over_delete f (<[k := tok']> d) k tok') by apply lookup_insert_eq.
  rewrite (sum_over_delete f d k tok) by exact H.
  rewrite delete_insert_eq. lia.
Qed.

Lemma sum_over_new f (d : gmap uuid token) k tok :
  d !! k = None -> sum_over f (<[k := tok]> d) = sum_over f d + f tok.
Proof.
  intros H. unfold sum_over. rewrite map_fold_insert_L; [reflexivity| |exact H].
  intros. lia.
Qed.

#[local] Instance same_kind_preorder : PreOrder same_kind.
Proof.
  split; [intros q; reflexivity|].
  intros a b c H1 H2. unfold same_kind in *. congruence.
Qed.

Lemma next_trial_kind decr : keeps same_kind (next_trial decr).
Proof. keeps_methods; reflexivity. Qed.

(** [decrement_key], when it returns, has taken [n] trials from the token
    of the key and touched no other token, whatever the class. *)
Lemma decrement_key_data k n q b q' :
  decrement_key k n q = (Ok b, q') ->
  exists tok, _data q !! k = Some tok /\
    _data q' = <[k := with_trials (trials tok - n) tok]> (_data q).
Proof.
  unfold decrement_key, key_in_queue. mrun.
  assert (Hrest : forall (rest : M bool),
    keeps same_data rest ->
    bind (add_trials k (- n)) (fun _ => rest) q = (Ok b, q') ->
    exists tok, _data q !! k = Some tok /\
      _data q' = <[k := with_trials (trials tok - n) tok]> (_data q)).
  { intros rest Hk. destruct (_data q !! k) as [tok|] eqn:Ed.
    - rewrite (bind_run _ _ _ _ _ (add_trials_Some k (- n) tok q Ed)).
      intros Hr. exists tok. split; [reflexivity|].
      specialize (Hk (with_data (<[k := with_trials (trials tok + - n) tok]> (_data q)) q)).
      unfold after, same_data in Hk. rewrite Hr in Hk. exact Hk.
    - unfold add_trials, data_at. mrun. rewrite Ed. mrun. discriminate. }
  destruct (kind q); mrun.
  all: destruct (bool_decide (k ∈ _ordering q)); mrun; [|discriminate].
  all: apply Hrest; keeps_methods; reflexivity.
Qed.

Lemma pop_next_run decr q k data q0 :
  pop_next decr q = (Ok (k, data), q0) ->
  _data q !! k = Some data /\
  _data q0 = if decr then <[k := with_trials (trials data - 1) data]> (_data q)
             else _data q.
Proof.
  intros H. pose proof (pop_next_data _ _ _ _ _ H) as Hd.
  split; [exact Hd|]. revert H. unfold pop_next.
  pose proof (next_key_data q) as Hk. unfold after, same_data in Hk.
  destruct (next_key q) as [[k'|e] qa] eqn:En; simpl in Hk.
  2:{ rewrite (bind_fail _ _ _ _ _ En). discriminate. }
  rewrite (bind_run _ _ _ _ _ En). unfold pop_key.
  destruct (_data qa !! k') as [tok|] eqn:Ed.
  2:{ unfold data_at. mrun. rewrite Ed. mrun. discriminate. }
  rewrite bind_assoc, (bind_run _ _ _ _ _ (data_at_Some _ _ _ Ed)).
  destruct decr.
  - destruct (decrement_key k' 1 qa) as [[b|e] qb] eqn:Edec.
    2:{ mrun. rewrite (bind_fail _ _ _ _ _ Edec). discriminate. }
    mrun. rewrite (bind_run _ _ _ _ _ Edec). mrun.
    intros [= -> -> <-].
    apply decrement_key_data in Edec as (tok' & Htok & ->).
    rewrite Hk in *. congruence.
  - mrun. intros [= -> -> <-]. exact Hk.
Qed.

(** The tokens after [next_trial]: the one of the trial has given one
    trial, if trials are counted, and one delay. *)
Lemma next_trial_data decr q q1 :
  next_trial decr q = (Ok tt, q1) ->
  exists k tok tok',
    _data q !! k = Some tok /\ _data q1 = <[k := tok']> (_data q) /\
    trials tok' = trials tok - (if decr then 1 else 0) /\
    requested_trials tok' = requested_trials tok /\
    source tok' = source tok.
Proof.
  unfold next_trial.
  destruct (pop_next decr q) as [[[k data]|e] q0] eqn:E0.
  2:{ rewrite (bind_fail _ _ _ _ _ E0). discriminate. }
  rewrite (bind_run _ _ _ _ _ E0). mrun.
  apply pop_next_run in E0 as [Hd H0].
  set (tok0 := if decr then with_trials (trials data - 1) data else data).
  assert (Htok0 : _data q0 !! k = Some tok0).
  { rewrite H0. subst tok0. destruct decr; [apply lookup_insert_eq|exact Hd]. }
  assert (H0' : _data q0 = <[k := tok0]> (_data q)).
  { rewrite H0. subst tok0. destruct decr; [reflexivity|].
    symmetry. apply insert_id. exact Hd. }
  assert (Htr : trials tok0 = trials data - (if decr then 1 else 0)).
  { subst tok0. destruct decr; simpl; lia. }
  assert (Hrq : requested_trials tok0 = requested_trials data)
    by (subst tok0; destruct decr; reflexivity).
  assert (Hsrc : source tok0 = source data)
    by (subst tok0; destruct decr; reflexivity).
  clearbody tok0.
  set (qs := with_source _ q0).
  assert (Hqs : _data qs !! k = Some tok0) by exact Htok0.
  assert (Hrest : forall x q2 (rest : Q -> M unit),
    (forall x, keeps same_data (rest x)) ->
    bind (ret x) rest q2 = (Ok tt, q1) -> _data q1 = _data q2).
  { intros x q2 rest Hk. rewrite bind_ret. intros Hr.
    specialize (Hk x q2). unfold after, same_data in Hk. rewrite Hr in Hk.
    exact Hk. }
  unfold next_delay.
  rewrite bind_assoc, (bind_run _ _ _ _ _ (data_at_Some _ _ _ Hqs)).
  destruct (delays tok0) as [x|[|x rest]] eqn:Edl.
  - intros Hr. apply Hrest in Hr.
    2:{ intros; unfold _notify; keeps_auto; reflexivity. }
    exists k, data, tok0. rewrite Hr. subst qs. qsimpl. auto.
  - mrun. discriminate.
  - rewrite bind_assoc, bind_modify. intros Hr. apply Hrest in Hr.
    2:{ intros; unfold _notify; keeps_auto; reflexivity. }
    exists k, data, (with_delays (Iter rest) tok0). rewrite Hr.
    subst qs. qsimpl. rewrite H0', insert_insert_eq. auto.
Qed.

Lemma sum_over_nonneg f (d : gmap uuid token) :
  (forall tok, 0 <= f tok) -> 0 <= sum_over f d.
Proof.
  intros Hf. induction d as [|k tok d Hk IH] using map_ind.
  - unfold sum_over. rewrite map_fold_empty. lia.
  - rewrite sum_over_new by exact Hk. specialize (Hf tok). lia.
Qed.

(** X7: what a trial costs.  When [next_trial] returns, the total of the
    requested trials is what it was.  In the queues other than the
    interleaved one, [count_trials()] has gone down by one if trials are
    counted ([decrement] true) and is what it was if they are not.  In the
    interleaved queue, which counts no token for less than zero,
    [count_trials()] has gone down by one at most and is not negative. *)
Theorem next_trial_counts decr q q1 :
  next_trial decr q = (Ok tt, q1) ->
  count_requested_trials q1 = count_requested_trials q /\
  (kind q <> InterleavedFIFOSignalQueue ->
   count_trials q1 = count_trials q - (if decr then 1 else 0)) /\
  (kind q = InterleavedFIFOSignalQueue ->
   count_trials q - (if decr then 1 else 0) <= count_trials q1 <= count_trials q /\
   0 <= count_trials q1).
Proof.
  intros H. pose proof (next_trial_kind decr q) as Hk.
  unfold after, same_kind in Hk. rewrite H in Hk. simpl in Hk.
  apply next_trial_data in H as (k & tok & tok' & Hd & Hd1 & Htr & Hrq & _).
  split; [|split].
  - change (sum_over requested_trials (_data q1) = sum_over requested_trials (_data q)).
    rewrite Hd1, (sum_over_replace _ _ _ _ _ Hd). lia.
  - intros Hc. rewrite !count_trials_sum, Hk, Hd1, (sum_over_replace _ _ _ _ _ Hd).
    unfold left_of. destruct (kind q); try contradiction; lia.
  - intros Hc. rewrite !count_trials_sum, Hk, Hc.
    split; [|apply sum_over_nonneg; intros; simpl; lia].
    rewrite Hd1, (sum_over_replace _ _ _ _ _ Hd). simpl. destruct decr; lia.
Qed.

Lemma next_trial_counts_witness :
  exists q1,
    next_trial true one_ramp = (Ok tt, q1) /\
    count_requested_trials q1 = 1 /\ count_trials q1 = 0.
Proof.
  exists (after (next_trial true) one_ramp).
  assert (H : next_trial true one_ramp = (Ok tt, after (next_trial true) one_ramp))
    by (vm_compute; reflexivity).
  split; [exact H|].
  destruct (next_trial_counts true one_ramp _ H) as (Hr & Hc & _).
  split.
  - rewrite Hr. vm_compute. reflexivity.
  - rewrite Hc by discriminate. vm_compute. reflexivity.
Defined.

(** *** Trials taken back *)

Lemma with_ordering_same q : with_ordering (_ordering q) q = q.
Proof. destruct q. reflexivity. Qed.

Lemma with_notified_same q : with_notified (notified q) q = q.
Proof. destruct q. reflexivity. Qed.

Lemma with_source_same q : with_source (_source q) q = q.
Proof. destruct q. reflexivity. Qed.

(** The first loop of [requeue]. *)
Lemma requeue_ordering ks : forall q,
  for_each ks (fun k =>
    o <- gets _ordering ;;
    if bool_decide (k ∈ o) then ret tt
    else modify (with_ordering (k :: o))) q
  = (Ok tt, with_ordering (put_back (_ordering q) ks) q).
Proof.
  induction ks as [|k ks IH]; intros q; simpl.
  - unfold put_back. simpl. rewrite with_ordering_same. reflexivity.
  - mrun. unfold put_back. simpl. case_bool_decide as Hin; mrun.
    + rewrite IH. reflexivity.
    + rewrite IH. reflexivity.
Qed.

Lemma put_back_spec ks : forall o,
  (exists new, put_back o ks = new ++ o) /\
  (forall k, k ∈ put_back o ks <-> k ∈ o \/ k ∈ ks) /\
  (NoDup o -> NoDup (put_back o ks)).
Proof.
  induction ks as [|k ks IH]; intros o; unfold put_back; simpl.
  - split; [exists []; reflexivity|]. split; [|auto].
    intros k. rewrite elem_of_nil. tauto.
  - fold (put_back (if bool_decide (k ∈ o) then o else k :: o) ks).
    destruct (IH (if bool_decide (k ∈ o) then o else k :: o))
      as ((new & Hnew) & Hin & Hnd).
    case_bool_decide as Hk.
    + split; [eauto|]. split; [|exact Hnd].
      intros k'. rewrite Hin, elem_of_cons.
      split; [tauto|]. intros [?|[->|?]]; auto.
    + split; [exists (new ++ [k]); rewrite Hnew, <- app_assoc; reflexivity|].
      split.
      * intros k'. rewrite Hin, !elem_of_cons. tauto.
      * intros Ho. apply Hnd. constructor; assumption.
Qed.

Lemma with_trials_same tok : with_trials (trials tok + 0) tok = tok.
Proof. destruct tok. unfold with_trials. simpl. f_equal. apply Z.add_0_r. Qed.

Lemma give_back_lookup d kn (k : uuid) :
  give_back d kn !! k =
    (fun tok => with_trials (trials tok + (if N.eqb kn.1 k then kn.2 else 0)) tok)
      <$> d !! k.
Proof.
  unfold give_back. destruct kn as [k0 n]. simpl.
  destruct (d !! k0) as [tok0|] eqn:E0.
  - destruct (N.eqb_spec k0 k) as [<-|Hne].
    + rewrite lookup_insert_eq, E0. reflexivity.
    + rewrite lookup_insert_ne by exact Hne.
      destruct (d !! k) as [tok|]; simpl; [rewrite with_trials_same|]; reflexivity.
  - destruct (N.eqb_spec k0 k) as [<-|Hne].
    + rewrite E0. reflexivity.
    + destruct (d !! k) as [tok|]; simpl; [rewrite with_trials_same|]; reflexivity.
Qed.

Lemma give_back_all_lookup c : forall d (k : uuid),
  fold_left give_back c d !! k =
    (fun tok => with_trials (trials tok + total_for k c) tok) <$> d !! k.
Proof.
  induction c as [|kn c IH]; intros d k; simpl.
  - destruct (d !! k) as [tok|]; simpl; [rewrite with_trials_same|]; reflexivity.
  - rewrite IH, give_back_lookup.
    destruct (d !! k) as [tok|]; simpl; [|reflexivity].
    apply (f_equal (fun n => Some (with_trials n tok))). simpl.
    destruct (N.eqb kn.1 k); lia.
Qed.

(** The second loop of [requeue], when the keys have tokens. *)
Lemma requeue_trials c : forall q,
  Forall (fun kn => is_Some (_data q !! kn.1)) c ->
  for_each c (fun '(k, count) => add_trials k count) q
  = (Ok tt, with_data (fold_left give_back c (_data q)) q).
Proof.
  induction c as [|[k n] c IH]; intros q Hc; simpl.
  - rewrite with_data_same. reflexivity.
  - inversion Hc as [|? ? [tok Hk] Hc']; subst. simpl in Hk.
    rewrite (bind_run _ _ _ _ _ (add_trials_Some k n tok q Hk)).
    rewrite IH.
    + replace (give_back (_data q) (k, n))
        with (<[k := with_trials (trials tok + n) tok]> (_data q))
        by (unfold give_back; simpl; rewrite Hk; reflexivity).
      reflexivity.
    + qsimpl. eapply Forall_impl; [exact Hc'|].
      intros [k' n'] [tok' Hk']. simpl in *.
      destruct (decide (k = k')) as [->|Hne].
      * rewrite lookup_insert_eq. eauto.
      * rewrite lookup_insert_ne by exact Hne. eauto.
Qed.

Lemma total_for_counter_add (k x : uuid) c :
  total_for k (counter_add x c)
    = total_for k c + (if N.eqb x k then 1 else 0).
Proof.
  induction c as [|[y n] c IH]; simpl.
  - destruct (N.eqb x k); lia.
  - destruct (decide (x = y)) as [->|Hne]; simpl.
    + destruct (N.eqb y k); lia.
    + rewrite IH. destruct (N.eqb y k); lia.
Qed.

Lemma counter_add_keys (x : uuid) c (P : uuid -> Prop) :
  P x -> Forall (fun kn : uuid * Z => P kn.1) c ->
  Forall (fun kn : uuid * Z => P kn.1) (counter_add x c).
Proof.
  intros Hx Hc. induction Hc as [|[y n] c Hy Hc IH]; simpl.
  - constructor; [exact Hx|constructor].
  - destruct (decide (x = y)); constructor; auto.
Qed.

(** [Counter] counts each key as many times as it occurs. *)
Lemma Counter_counts (l : list uuid) (k : uuid) :
  total_for k (Counter l) = occurrences k l.
Proof.
  unfold Counter, occurrences.
  assert (H : forall c,
    total_for k (fold_left (fun c x => counter_add x c) l c)
      = total_for k c + len (List.filter (fun x => N.eqb x k) l)).
  { induction l as [|x l IH]; intros c; simpl.
    - unfold len. simpl. lia.
    - rewrite IH, total_for_counter_add.
      destruct (N.eqb x k); unfold len; simpl; lia. }
  rewrite H. simpl. lia.
Qed.

Lemma Counter_keys (l : list uuid) (P : uuid -> Prop) :
  Forall P l -> Forall (fun kn : uuid * Z => P kn.1) (Counter l).
Proof.
  unfold Counter. intros Hl.
  assert (H : forall c, Forall (fun kn : uuid * Z => P kn.1) c ->
    Forall (fun kn : uuid * Z => P kn.1)
      (fold_left (fun c x => counter_add x c) l c)).
  { induction Hl as [|x l Hx Hl IH]; intros c Hc; simpl; [exact Hc|].
    apply IH, counter_add_keys; assumption. }
  apply H. constructor.
Qed.

(** [requeue] when the trials to take back have tokens. *)
Lemma requeue_run t q :
  Forall (fun k => is_Some (_data q !! k)) (to_requeue t (_generated q)) ->
  requeue t q =
    (Ok tt,
     with_data (fold_left give_back (Counter (to_requeue t (_generated q)))
                  (_data q))
       (with_ordering (put_back (_ordering q) (to_requeue t (_generated q))) q)).
Proof.
  intros Hk. unfold requeue. mrun.
  fold (ends_after t). fold (to_requeue t (_generated q)).
  rewrite (bind_run _ _ _ _ _ (requeue_ordering _ q)).
  rewrite requeue_trials; [reflexivity|].
  exact (Counter_keys _ (fun k => is_Some (_data q !! k)) Hk).
Qed.

(** X8: trials given back.  [requeue(t)] takes the trials generated that
    end after [t] and were counted at their start.  When their keys have
    tokens it returns, and then every token has as many trials more as it
    has trials among those; the keys of those trials that were no longer in
    the ordering have been put at its front, the others have kept their
    place, and no key has been put in twice; the sample count, the source
    and the calls received by the listeners are as they were. *)
Theorem requeue_gives_back t q :
  Forall (fun k => is_Some (_data q !! k)) (to_requeue t (_generated q)) ->
  exists q',
    requeue t q = (Ok tt, q') /\
    (forall k : uuid,
       _data q' !! k =
         (fun tok =>
            with_trials (trials tok + occurrences k (to_requeue t (_generated q)))
              tok) <$> _data q !! k) /\
    (exists new, _ordering q' = new ++ _ordering q) /\
    (forall k, k ∈ _ordering q' <->
               k ∈ _ordering q \/ k ∈ to_requeue t (_generated q)) /\
    (NoDup (_ordering q) -> NoDup (_ordering q')) /\
    _samples q' = _samples q /\ _source q' = _source q /\
    notified q' = notified q /\ _generated q' = _generated q.
Proof.
  intros Hk. eexists. split; [apply requeue_run; exact Hk|].
  qsimpl.
  destruct (put_back_spec (to_requeue t (_generated q)) (_ordering q))
    as (Hnew & Hin & Hnd).
  split; [|auto 10].
  intros k. rewrite give_back_all_lookup, Counter_counts. reflexivity.
Qed.

Lemma requeue_gives_back_witness :
  exists q',
    requeue (1 # 4) one_trial_started = (Ok tt, q') /\
    trials <$> _data one_trial_started !! 0%N = Some 2 /\
    trials <$> _data q' !! 0%N = Some 3 /\
    _ordering q' = [0%N].
Proof.
  destruct (requeue_gives_back (1 # 4) one_trial_started) as (q' & Hr & Hd & _).
  { vm_compute. constructor; [|constructor]. eexists. reflexivity. }
  exists q'. split; [exact Hr|]. split; [vm_compute; reflexivity|].
  split; [rewrite Hd; vm_compute; reflexivity|].
  vm_compute in Hr. injection Hr as <-. reflexivity.
Defined.

(** *** A trial cancelled *)

Lemma cancel_notifies t l : forall q,
  for_each l (fun info =>
    if Qle_bool (t0 info + info_duration info) t then ret tt
    else _notify (removed info)) q
  = (Ok tt,
     with_notified (notified q ++ map removed (List.filter (ends_after t) l)) q).
Proof.
  induction l as [|info l IH]; intros q; simpl.
  - rewrite app_nil_r, with_notified_same. reflexivity.
  - unfold ends_after at 1.
    destruct (Qle_bool (t0 info + info_duration info) t); simpl; mrun.
    + apply IH.
    + unfold _notify. mrun. rewrite IH. qsimpl.
      rewrite <- app_assoc. reflexivity.
Qed.

Lemma py_index_last {A} (l : list A) :
  py_index l (-1) = match last l with
                    | Some x => Ok x
                    | None => Raise IndexError
                    end.
Proof.
  destruct l as [|a l _] using rev_ind; [reflexivity|].
  rewrite last_snoc. unfold py_index.
  rewrite length_app. simpl length.
  change (-1 <? 0) with true. cbv iota.
  assert (Hn : -1 + Z.of_nat (length l + 1) = Z.of_nat (length l)) by lia.
  rewrite Hn.
  destruct (Z.of_nat (length l) <? 0) eqn:E1; [lia|].
  destruct (Z.leb_spec (Z.of_nat (length l + 1)) (Z.of_nat (length l)));
    [lia|].
  simpl. rewrite Nat2Z.id, nth_error_app2, Nat.sub_diag by lia. reflexivity.
Qed.








(** *** The grouped queues *)

Lemma py_prefix_take {A} (l : list A) n :
  exists m, py_prefix l n = take m l.
Proof.
  unfold py_prefix, py_slice. eexists.
  replace (Z.to_nat (py_clamp (Z.of_nat (length l)) 0)) with 0%nat.
  - reflexivity.
  - unfold py_clamp. simpl. lia.
Qed.

Lemma any_trials_left_run keys : forall q,
  Forall (fun k => is_Some (_data q !! k)) keys ->
  any_trials_left keys q = (Ok (busy (_data q) keys), q).
Proof.
  induction keys as [|k keys IH]; intros q Hk; simpl; [reflexivity|].
  inversion Hk as [|? ? [tok Htok] Hk']; subst.
  rewrite (bind_run _ _ _ _ _ (data_at_Some _ _ _ Htok)). rewrite Htok.
  destruct (trials tok >? 0); [reflexivity|]. apply IH. exact Hk'.
Qed.

(** The keys of a prefix of the ordering removed one by one. *)
Lemma remove_keys_prefix keys : forall q rest,
  _ordering q = keys ++ rest ->
  for_each keys remove_key q = (Ok tt, with_ordering rest q).
Proof.
  induction keys as [|k keys IH]; intros q rest Ho; simpl.
  - simpl in Ho. rewrite <- Ho, with_ordering_same. reflexivity.
  - unfold remove_key at 1. mrun. rewrite Ho.
    change ((k :: keys) ++ rest) with (k :: (keys ++ rest)).
    rewrite list_remove_head. mrun.
    rewrite (IH _ rest) by reflexivity. reflexivity.
Qed.

(** X11: in the grouped queues keys leave the ordering a group at a time.
    [decrement_key(key, n)] takes [n] trials from the token of the key.
    While some key of the first group has a trial left it returns False and
    the ordering is as it was, also when the key itself has none left.
    When no key of the first group has a trial left it returns True and the
    whole group has left the ordering. *)
Theorem grouped_decrement_key q k n tok :
  grouped q ->
  k ∈ _ordering q ->
  _data q !! k = Some tok ->
  Forall (fun k' => is_Some (_data q !! k')) (first_group q) ->
  let d' := <[k := with_trials (trials tok - n) tok]> (_data q) in
  decrement_key k n q =
    if busy d' (first_group q)
    then (Ok false, with_data d' q)
    else (Ok true,
          with_ordering (drop (length (first_group q)) (_ordering q))
            (with_data d' q)).
Proof.
  intros Hg Hin Htok Hgroup d'.
  assert (Hrun : decrement_key k n q =
    (key_in_queue k ;;;
     add_trials k (- n) ;;;
     o <- gets _ordering ;;
     gs <- gets _group_size ;;
     busy <- any_trials_left (py_prefix o gs) ;;
     if busy then ret false
     else
       o <- gets _ordering ;;
       for_each (py_prefix o gs) remove_key ;;;
       ret true) q).
  { unfold decrement_key. mrun. destruct Hg as [-> | ->]; reflexivity. }
  rewrite Hrun. unfold key_in_queue. mrun.
  rewrite bool_decide_eq_true_2 by exact Hin. mrun.
  rewrite (bind_run _ _ _ _ _ (add_trials_Some k (- n) tok q Htok)). mrun.
  fold (first_group q). fold d'.
  assert (Hgroup' : Forall (fun k' => is_Some (_data (with_data d' q) !! k'))
                      (first_group q)).
  { eapply Forall_impl; [exact Hgroup|]. intros k' [tok' Hk']. qsimpl.
    subst d'. destruct (decide (k = k')) as [->|Hne].
    - rewrite lookup_insert_eq. eauto.
    - rewrite lookup_insert_ne by exact Hne. eauto. }
  rewrite (bind_run _ _ _ _ _
             (any_trials_left_run (first_group q) (with_data d' q) Hgroup')).
  qsimpl. destruct (busy d' (first_group q)); [reflexivity|]. mrun.
  fold (first_group q).
  destruct (py_prefix_take (_ordering q) (_group_size q)) as [m Hm].
  unfold first_group. rewrite Hm.
  assert (Ho : _ordering (with_data d' q)
               = take m (_ordering q) ++ drop (length (take m (_ordering q)))
                                           (_ordering q)).
  { qsimpl. rewrite length_take.
    destruct (Nat.le_ge_cases m (length (_ordering q))) as [Hle|Hge].
    - rewrite Nat.min_l by exact Hle. symmetry. apply take_drop.
    - rewrite Nat.min_r by exact Hge.
      rewrite take_ge, drop_all, app_nil_r by exact Hge. reflexivity. }
  rewrite (bind_run _ _ _ _ _ (remove_keys_prefix _ _ _ Ho)). reflexivity.
Qed.

Lemma grouped_decrement_key_witness :
  exists q',
    decrement_key 0%N 1 two_in_a_group = (Ok false, q') /\
    _ordering q' = [0%N; 1%N] /\
    trials <$> _data q' !! 0%N = Some 0 /\
    exists q'',
      decrement_key 1%N 2 q' = (Ok true, q'') /\ _ordering q'' = [].
Proof.
  pose proof (grouped_decrement_key two_in_a_group 0%N 1
                {| source := Waveform [1; 2]; trials := 1; requested_trials := 1;
                   delays := Cycle 0; duration := (2 # 1)%Q; metadata_ := None |})
    as H.
  eexists. split; [|split; [|split]].
  - rewrite H.
    + vm_compute. reflexivity.
    + left. reflexivity.
    + vm_compute. apply list_elem_of_In. simpl. auto.
    + vm_compute. reflexivity.
    + vm_compute. repeat constructor; eexists; reflexivity.
  - reflexivity.
  - vm_compute. reflexivity.
  - eexists. split; vm_compute; reflexivity.
Defined.

(** The loop of [pop_buffer] lets through what [next_key] raises. *)
Lemma pop_buffer_next_key_raises q n decr fuel e q1 :
  _paused q = false -> _source q = None -> _delay_samples q <= 0 -> 0 < n ->
  next_key q = (Raise e, q1) -> e <> QueueEmptyError ->
  pop_buffer (S fuel) n decr q = Some (Raise e, q1).
Proof.
  intros Hp Hs Hd Hn Hk He.
  assert (Hstep : _pop_buffer n decr q = (Raise e, q1)).
  { unfold _pop_buffer. mrun. rewrite Hp. mrun. rewrite Hs. mrun.
    destruct (Z.gtb_spec (_delay_samples q) 0); [lia|].
    apply bind_fail, next_trial_next_key_raises. exact Hk. }
  unfold pop_buffer. simpl.
  destruct (Z.gtb_spec n 0); [|lia]. rewrite Hstep.
  destruct e; try reflexivity. contradiction.
Qed.

(** X12: a group that is not full.  In a grouped queue that has to start a
    trial, [next_key] takes the key of rank [(_i + 1) % _group_size] of the
    ordering, whatever the number of keys.  With a group size of zero and a
    key queued, [pop_buffer] ends in ZeroDivisionError; with fewer keys than
    that rank, it ends in IndexError, the cursor having moved. *)
Theorem grouped_short_group q n decr fuel :
  grouped q ->
  _paused q = false -> _source q = None -> _delay_samples q <= 0 ->
  _ordering q <> [] -> 0 < n ->
  (_group_size q = 0 ->
   pop_buffer (S fuel) n decr q = Some (Raise ZeroDivisionError, q)) /\
  (0 < _group_size q ->
   len (_ordering q) <= (_i q + 1) mod _group_size q ->
   pop_buffer (S fuel) n decr q
     = Some (Raise IndexError, with_i ((_i q + 1) mod _group_size q) q)).
Proof.
  intros Hg Hp Hs Hd Ho Hn.
  assert (Hlen : (len (_ordering q) =? 0) = false).
  { destruct (_ordering q); [contradiction|]. reflexivity. }
  assert (Hrun : next_key q =
    (i' <- py_mod (_i q + 1) (_group_size q) ;;
     modify (with_i i') ;;;
     lift (py_index (_ordering q) i')) q).
  { unfold next_key. mrun. destruct Hg as [-> | ->]; mrun; rewrite Hlen; reflexivity. }
  split.
  - intros Hz. apply pop_buffer_next_key_raises; try assumption; [|discriminate].
    rewrite Hrun, Hz. reflexivity.
  - intros Hgs Hshort.
    apply pop_buffer_next_key_raises; try assumption; [|discriminate].
    rewrite Hrun. unfold py_mod.
    destruct (Z.eqb_spec (_group_size q) 0); [lia|]. mrun.
    unfold lift, py_index. fold (len (_ordering q)).
    pose proof (Z.mod_pos_bound (_i q + 1) (_group_size q) Hgs).
    destruct (Z.ltb_spec ((_i q + 1) mod _group_size q) 0); [lia|].
    destruct (Z.leb_spec (len (_ordering q)) ((_i q + 1) mod _group_size q));
      [|lia].
    rewrite orb_true_r. reflexivity.
Qed.

Lemma grouped_short_group_witness :
  _ordering blocked_reused = [1%N] /\ _group_size blocked_reused = 2 /\
  _i blocked_reused = 0 /\
  pop_buffer 1 2 true blocked_reused
    = Some (Raise IndexError, with_i 1 blocked_reused).
Proof.
  split; [reflexivity|]. split; [reflexivity|]. split; [reflexivity|].
  apply (proj2 (grouped_short_group blocked_reused 2 true 0
                  (or_intror eq_refl) eq_refl eq_refl
                  ltac:(vm_compute; discriminate) ltac:(discriminate) eq_refl)).
  - reflexivity.
  - vm_compute. discriminate.
Defined.

(** *** The longest source *)

Lemma py_max_spec l m :
  py_max l = Ok m ->
  Forall (fun x => (x <= m)%Q) l /\ m ∈ l.
Proof.
  destruct l as [|x rest]; [discriminate|]. simpl. intros [= <-].
  assert (H : forall acc seen,
    Forall (fun y => (y <= acc)%Q) seen -> acc ∈ seen ->
    Forall (fun y => (y <= fold_left (fun m y => if Qle_bool y m then m else y)
                                      rest acc)%Q) (seen ++ rest) /\
    fold_left (fun m y => if Qle_bool y m then m else y) rest acc ∈ seen ++ rest).
  { induction rest as [|y rest IH]; intros acc seen Hle Hin; simpl.
    - rewrite app_nil_r. auto.
    - replace (seen ++ y :: rest) with ((seen ++ [y]) ++ rest)
        by (rewrite <- app_assoc; reflexivity).
      destruct (Qle_bool y acc) eqn:E.
      + apply IH.
        * apply Forall_app. split; [exact Hle|].
          constructor; [apply Qle_bool_iff; exact E|constructor].
        * apply elem_of_app. auto.
      + apply Qle_bool_false in E. apply IH.
        * apply Forall_app. split.
          -- eapply Forall_impl; [exact Hle|]. intros z Hz. simpl in Hz.
             apply Qlt_le_weak. eapply Qle_lt_trans; eassumption.
          -- constructor; [apply Qle_refl|constructor].
        * apply elem_of_app. right. apply list_elem_of_singleton. reflexivity. }
  apply (H x [x]).
  - constructor; [apply Qle_refl|constructor].
  - apply list_elem_of_singleton. reflexivity.
Qed.

Lemma for_all_durations f toks : forall q,
  _fs q = Some f -> ~ (f == 0)%Q ->
  for_all toks (fun tok => get_duration_of (source tok)) q
    = (Ok (map (source_duration f) toks), q).
Proof.
  intros q Hf Hz. induction toks as [|tok toks IH]; simpl; [reflexivity|].
  assert (H : get_duration_of (source tok) q = (Ok (source_duration f tok), q)).
  { unfold get_duration_of, source_duration. destruct (source tok) as [w|g];
      [|reflexivity].
    unfold the_fs, py_div. mrun. rewrite Hf. mrun.
    rewrite Qeq_bool_false by exact Hz. reflexivity. }
  rewrite (bind_run _ _ _ _ _ H), (bind_run _ _ _ _ _ IH). reflexivity.
Qed.

(** X13: [get_max_duration()] on a queue whose sampling rate is set and
    not zero.  With no token it raises ValueError.  With tokens it returns
    the duration of the source of one of them, which no source exceeds: the
    duration that a generator gives, the number of samples over the sampling
    rate for an array, whatever duration was given to [append].  The queue
    is not changed. *)
Theorem get_max_duration_is_longest q f :
  _fs q = Some f -> ~ (f == 0)%Q ->
  (_data q = ∅ ->
   get_max_duration q
     = (Raise (ValueError "max() arg is an empty sequence"), q)) /\
  (_data q <> ∅ ->
   exists m,
     get_max_duration q = (Ok m, q) /\
     (forall k tok, _data q !! k = Some tok -> (source_duration f tok <= m)%Q) /\
     exists k tok, _data q !! k = Some tok /\ m = source_duration f tok).
Proof.
  intros Hf Hz. unfold get_max_duration. mrun.
  rewrite (bind_run _ _ _ _ _ (for_all_durations f _ q Hf Hz)).
  split.
  - intros ->. rewrite map_to_list_empty. reflexivity.
  - intros Hne.
    destruct (py_max (map (source_duration f) (map snd (map_to_list (_data q)))))
      as [m|e] eqn:E.
    2:{ exfalso. apply Hne, map_to_list_empty_iff.
        destruct (map_to_list (_data q)); [reflexivity|discriminate]. }
    exists m. split; [reflexivity|].
    apply py_max_spec in E as [Hle Hin]. split.
    + intros k tok Hk. rewrite Forall_forall in Hle. apply Hle.
      apply list_elem_of_fmap. exists tok. split; [reflexivity|].
      apply list_elem_of_fmap. exists (k, tok). split; [reflexivity|].
      apply elem_of_map_to_list. exact Hk.
    + apply list_elem_of_fmap in Hin as (tok & -> & Hin).
      apply list_elem_of_fmap in Hin as ([k tok'] & -> & Hin).
      apply elem_of_map_to_list in Hin. exists k, tok'. auto.
Qed.

Lemma get_max_duration_is_longest_witness :
  get_max_duration fifo_100Hz
    = (Raise (ValueError "max() arg is an empty sequence"), fifo_100Hz) /\
  exists m,
    get_max_duration one_ramp = (Ok m, one_ramp) /\
    exists k tok, _data one_ramp !! k = Some tok /\ m = source_duration 100 tok.
Proof.
  split.
  - apply (proj1 (get_max_duration_is_longest fifo_100Hz 100 eq_refl
                    ltac:(discriminate))).
    reflexivity.
  - destruct (proj2 (get_max_duration_is_longest one_ramp 100 eq_refl
                       ltac:(discriminate))) as (m & Hm & _ & Hex).
    + intros H. apply (f_equal (fun d => d !! 0%N)) in H. vm_compute in H.
      discriminate.
    + exists m. auto.
Defined.

(** *** A trial and its delay *)







(** *** What every session keeps *)

Lemma yields_bind {A B} (m : M A) (f : A -> M B) q P Q :
  yields (m q) P ->
  (forall a q1, P a q1 -> yields (f a q1) Q) ->
  yields (bind m f q) Q.
Proof.
  intros Hm Hf. unfold bind. destruct (m q) as [[a|e] q1].
  - apply Hf, Hm.
  - exact Hm.
Qed.

Lemma yields_weaken {A} (r : outcome A * queue) (P Q : A -> queue -> Prop) :
  yields r P -> (forall a q, P a q -> Q a q) -> yields r Q.
Proof. unfold yields. destruct r as [[a|e] q]; auto. Qed.

(** The books do not depend on the other attributes. *)
Lemma consistent_same q q' :
  consistent q ->
  _ordering q' = _ordering q -> _data q' = _data q ->
  _generated q' = _generated q -> notified q' = notified q ->
  consistent q'.
Proof.
  intros [H1 H2 H3] Ho Hd Hg Hn. split; rewrite ?Ho, ?Hd, ?Hg, ?Hn; assumption.
Qed.

Lemma is_Some_insert (d : gmap uuid token) (k k' : uuid) tok :
  is_Some (d !! k') -> is_Some (<[k := tok]> d !! k').
Proof.
  intros H. destruct (decide (k = k')) as [->|Hne].
  - rewrite lookup_insert_eq. eauto.
  - rewrite lookup_insert_ne by exact Hne. exact H.
Qed.

(** A token replaced or added leaves the books in order. *)
Lemma consistent_insert q k tok :
  consistent q -> consistent (with_data (<[k := tok]> (_data q)) q).
Proof.
  intros [H1 H2 H3]. split; qsimpl; [| |exact H3].
  - intros k' Hk'. apply is_Some_insert, H1, Hk'.
  - intros info Hi. apply is_Some_insert, H2, Hi.
Qed.

(** Keys taken out of the ordering leave the books in order. *)
Lemma consistent_ordering q o :
  consistent q -> (forall k, k ∈ o -> is_Some (_data q !! k)) ->
  consistent (with_ordering o q).
Proof. intros [H1 H2 H3] Ho. split; qsimpl; assumption. Qed.

Lemma added_records_app l1 l2 :
  added_records (l1 ++ l2) = added_records l1 ++ added_records l2.
Proof. unfold added_records. apply flat_map_app. Qed.

(** A call to other listeners leaves the books in order. *)
Lemma consistent_notify q e :
  consistent q -> added_records [e] = [] ->
  consistent (with_notified (notified q ++ [e]) q).
Proof.
  intros [H1 H2 H3] He. split; qsimpl; try assumption.
  rewrite added_records_app, He, app_nil_r. exact H3.
Qed.

Lemma list_remove_sub `{EqDecision A} (x : A) l l' :
  list_remove x l = Some l' -> forall y, y ∈ l' -> y ∈ l.
Proof.
  revert l'. induction l as [|a l IH]; intros l'; simpl; [discriminate|].
  destruct (decide (x = a)) as [->|Hne].
  - intros [= <-] y Hy. right. exact Hy.
  - destruct (list_remove x l) as [r|]; [|discriminate].
    intros [= <-] y Hy. apply elem_of_cons in Hy as [->|Hy]; [left|].
    right. eapply IH; [reflexivity|exact Hy].
Qed.

Lemma py_index_elem {A} (l : list A) i x : py_index l i = Ok x -> x ∈ l.
Proof.
  unfold py_index. destruct (_ || _); [discriminate|].
  destruct (nth_error l _) eqn:E; [|discriminate].
  intros [= <-]. apply list_elem_of_In. eapply nth_error_In. exact E.
Qed.

Lemma py_prefix_sub {A} (l : list A) n x : x ∈ py_prefix l n -> x ∈ l.
Proof.
  destruct (py_prefix_take l n) as [m ->]. apply subseteq_take.
Qed.

(** **** The methods one by one *)

Lemma add_trials_yields k n q :
  consistent q -> is_Some (_data q !! k) ->
  yields (add_trials k n q) (fun _ q' =>
    consistent q' /\ _ordering q' = _ordering q /\
    forall k', is_Some (_data q !! k') -> is_Some (_data q' !! k')).
Proof.
  intros Hc [tok Hk]. rewrite (add_trials_Some k n tok q Hk). simpl.
  split; [apply consistent_insert; exact Hc|]. split; [reflexivity|].
  intros k'. qsimpl. apply is_Some_insert.
Qed.

Lemma next_key_yields q :
  consistent q ->
  yields (next_key q) (fun k q' => consistent q' /\ k ∈ _ordering q').
Proof.
  intros Hc.
  assert (Hidx : forall i v,
    yields (lift (py_index (_ordering q) i) (with_i v q))
      (fun k q' => consistent q' /\ k ∈ _ordering q')).
  { intros i v. unfold lift. destruct (py_index (_ordering q) i) as [k|e] eqn:E.
    - split; [apply (consistent_same q); auto|]. qsimpl.
      eapply py_index_elem. exact E.
    - split; [apply (consistent_same q); auto|].
      unfold py_index in E. destruct (_ || _); [injection E as <-; discriminate|].
      destruct (nth_error _ _); [discriminate|]. injection E as <-. discriminate. }
  unfold next_key. mrun. destruct (kind q); mrun.
  - destruct (len (_ordering q) =? 0); mrun.
    + split; [exact Hc|discriminate].
    + unfold lift. destruct (py_index (_ordering q) 0) as [k|e] eqn:E.
      * split; [exact Hc|]. eapply py_index_elem. exact E.
      * split; [exact Hc|].
        unfold py_index in E. destruct (_ || _); [injection E as <-; discriminate|].
        destruct (nth_error _ _); [discriminate|]. injection E as <-. discriminate.
  - destruct (_complete q); mrun; [split; [exact Hc|discriminate]|].
    unfold py_mod. destruct (_ =? 0); mrun; [split; [exact Hc|discriminate]|].
    apply Hidx.
  - destruct (len (_ordering q) =? 0); mrun; [split; [exact Hc|discriminate]|].
    unfold py_mod. destruct (_ =? 0); mrun; [split; [exact Hc|discriminate]|].
    apply Hidx.
  - destruct (len (_ordering q) =? 0); mrun; [split; [exact Hc|discriminate]|].
    unfold py_mod. destruct (_ =? 0); mrun; [split; [exact Hc|discriminate]|].
    apply Hidx.
Qed.

Lemma remove_key_yields k q :
  consistent q ->
  yields (remove_key k q) (fun _ q' =>
    consistent q' /\ _data q' = _data q /\
    forall k', k' ∈ _ordering q' -> k' ∈ _ordering q).
Proof.
  intros Hc. unfold remove_key. mrun.
  destruct (list_remove k (_ordering q)) as [o'|] eqn:E.
  - simpl. pose proof (list_remove_sub _ _ _ E) as Hsub.
    split; [|split; [reflexivity|exact Hsub]].
    apply consistent_ordering; [exact Hc|].
    intros k' Hk'. apply Hc, Hsub, Hk'.
  - split; [exact Hc|discriminate].
Qed.

Lemma remove_keys_yields keys : forall q,
  consistent q ->
  yields (for_each keys remove_key q) (fun _ q' => consistent q' /\ _data q' = _data q).
Proof.
  induction keys as [|k keys IH]; intros q Hc; simpl.
  - auto.
  - eapply yields_bind; [apply remove_key_yields; exact Hc|].
    intros _ q1 (Hc1 & Hd1 & _). simpl.
    eapply yields_weaken; [apply IH; exact Hc1|].
    intros _ q2 [Hc2 Hd2]. split; [exact Hc2|congruence].
Qed.

Lemma any_trials_left_yields keys : forall q,
  consistent q -> (forall k, k ∈ keys -> is_Some (_data q !! k)) ->
  yields (any_trials_left keys q) (fun _ q' => q' = q).
Proof.
  induction keys as [|k keys IH]; intros q Hc Hk; simpl; [reflexivity|].
  destruct (Hk k) as [tok Htok]; [left|].
  rewrite (bind_run _ _ _ _ _ (data_at_Some _ _ _ Htok)).
  destruct (trials tok >? 0); [reflexivity|].
  apply IH; [exact Hc|]. intros k' Hk'. apply Hk. right. exact Hk'.
Qed.

(** [decrement_key] of a queued key: the tokens that were there are
    there. *)
Lemma decrement_key_yields k n q :
  consistent q -> k ∈ _ordering q ->
  yields (decrement_key k n q) (fun _ q' =>
    consistent q' /\
    forall k', is_Some (_data q !! k') -> is_Some (_data q' !! k')).
Proof.
  intros Hc Hin. pose proof (keys_queued q Hc k Hin) as [tok Htok].
  set (d' := <[k := with_trials (trials tok + - n) tok]> (_data q)).
  assert (Hc' : consistent (with_data d' q)) by (apply consistent_insert; exact Hc).
  assert (Hdom : forall k', is_Some (_data q !! k') -> is_Some (d' !! k'))
    by (intros k'; apply is_Some_insert).
  unfold decrement_key, key_in_queue. mrun.
  destruct (kind q); mrun; rewrite bool_decide_eq_true_2 by exact Hin; mrun;
    rewrite (bind_run _ _ _ _ _ (add_trials_Some k (- n) tok q Htok)); fold d';
    mrun.
  - unfold remaining_trials. mrun.
    assert (Hk' : _data (with_data d' q) !! k = Some (with_trials (trials tok + - n) tok))
      by apply lookup_insert_eq.
    rewrite (bind_run _ _ _ _ _ (data_at_Some _ _ _ Hk')). mrun.
    destruct (_ <=? 0); mrun.
    + eapply yields_bind; [apply remove_key_yields; exact Hc'|].
      intros _ q1 (Hc1 & Hd1 & _). simpl. split; [exact Hc1|].
      rewrite Hd1. exact Hdom.
    + unfold _notify. mrun. simpl. split; [|exact Hdom].
      apply (consistent_notify (with_data d' q)); [exact Hc'|reflexivity].
  - case_bool_decide; mrun; simpl.
    + split; [apply (consistent_same (with_data d' q)); auto|exact Hdom].
    + split; [exact Hc'|exact Hdom].
  - eapply yields_bind.
    { apply any_trials_left_yields; [exact Hc'|].
      intros k' Hk'. apply Hdom, (keys_queued q Hc). eapply py_prefix_sub.
      exact Hk'. }
    intros b q1 ->. destruct b; mrun; simpl; [split; [exact Hc'|exact Hdom]|].
    eapply yields_bind; [apply remove_keys_yields; exact Hc'|].
    intros _ q2 [Hc2 Hd2]. simpl. split; [exact Hc2|]. rewrite Hd2. exact Hdom.
  - eapply yields_bind.
    { apply any_trials_left_yields; [exact Hc'|].
      intros k' Hk'. apply Hdom, (keys_queued q Hc). eapply py_prefix_sub.
      exact Hk'. }
    intros b q1 ->. destruct b; mrun; simpl; [split; [exact Hc'|exact Hdom]|].
    eapply yields_bind; [apply remove_keys_yields; exact Hc'|].
    intros _ q2 [Hc2 Hd2]. simpl. split; [exact Hc2|]. rewrite Hd2. exact Hdom.
Qed.

Lemma pop_next_yields decr q :
  consistent q ->
  yields (pop_next decr q) (fun kd q' =>
    consistent q' /\ is_Some (_data q' !! kd.1)).
Proof.
  intros Hc. unfold pop_next.
  eapply yields_bind; [apply next_key_yields; exact Hc|].
  intros k q1 [Hc1 Hin]. simpl. unfold pop_key. mrun.
  pose proof (keys_queued q1 Hc1 k Hin) as [tok Htok].
  rewrite (bind_run _ _ _ _ _ (data_at_Some _ _ _ Htok)).
  destruct decr; mrun.
  - eapply yields_bind; [apply decrement_key_yields; assumption|].
    intros _ q2 [Hc2 Hdom]. simpl. split; [exact Hc2|]. apply Hdom. eauto.
  - simpl. split; [exact Hc1|eauto].
Qed.

Lemma next_delay_yields k q :
  consistent q -> is_Some (_data q !! k) ->
  yields (next_delay k q) (fun _ q' =>
    consistent q' /\ is_Some (_data q' !! k) /\
    _generated q' = _generated q /\ notified q' = notified q).
Proof.
  intros Hc [tok Htok]. unfold next_delay.
  rewrite (bind_run _ _ _ _ _ (data_at_Some _ _ _ Htok)).
  destruct (delays tok) as [x|[|x rest]]; simpl.
  - eauto.
  - split; [exact Hc|discriminate].
  - mrun. simpl. split; [apply consistent_insert; exact Hc|].
    split; [rewrite lookup_insert_eq; eauto|]. auto.
Qed.

(** The trial started is recorded and announced. *)
Lemma consistent_generated q info :
  consistent q -> is_Some (_data q !! key info) ->
  consistent (with_notified (notified q ++ [added info])
                (with_generated (_generated q ++ [info]) q)).
Proof.
  intros [H1 H2 H3] Hk. split; qsimpl.
  - exact H1.
  - intros i Hi. apply elem_of_app in Hi as [Hi|Hi]; [apply H2, Hi|].
    apply list_elem_of_singleton in Hi as ->. exact Hk.
  - rewrite added_records_app, H3. reflexivity.
Qed.

Lemma next_trial_yields decr q :
  consistent q -> yields (next_trial decr q) (fun _ q' => consistent q').
Proof.
  intros Hc. unfold next_trial.
  eapply yields_bind; [apply pop_next_yields; exact Hc|].
  intros [k data] q1 [Hc1 Hk1]. simpl in Hk1. mrun.
  eapply yields_bind.
  { apply next_delay_yields; [|exact Hk1].
    apply (consistent_same q1); auto. }
  intros delay q2 (Hc2 & Hk2 & _). simpl.
  unfold the_fs. mrun. destruct (_fs q2) as [f|]; mrun;
    [|split; [exact Hc2|discriminate]].
  destruct (_ <? 0); mrun.
  { split; [apply (consistent_same q2); auto|discriminate]. }
  unfold py_div. destruct (Qeq_bool f 0); mrun.
  { split; [apply (consistent_same q2); auto|discriminate]. }
  unfold _notify. mrun. simpl.
  apply (consistent_generated (with_delay_samples _ q2)
           {| t0 := _; info_duration := _; key := k; info_metadata := _;
              decrement := decr |}).
  - apply (consistent_same q2); auto.
  - exact Hk2.
Qed.

Lemma _pop_buffer_yields samples decr q :
  consistent q -> yields (_pop_buffer samples decr q) (fun _ q' => consistent q').
Proof.
  intros Hc. unfold _pop_buffer. mrun.
  destruct (_paused q); mrun.
  { unfold lift, np_zeros. destruct (_ <? 0); simpl; [|exact Hc].
    split; [exact Hc|discriminate]. }
  destruct (_source q) as [[w|g]|]; mrun.
  - unfold _get_samples, _get_samples_waveform.
    destruct (_ >? _); mrun; simpl; apply (consistent_same q); auto.
  - unfold _get_samples, _get_samples_generator.
    destruct (next g _) as [w g']. destruct (is_complete g'); mrun; simpl;
      apply (consistent_same q); auto.
  - destruct (_ >? 0); mrun.
    + unfold lift, np_zeros. destruct (_ <? 0); simpl.
      * split; [apply (consistent_same q); auto|discriminate].
      * apply (consistent_same q); auto.
    + eapply yields_bind; [apply next_trial_yields; exact Hc|]. auto.
Qed.

Lemma pop_buffer_loop_yields fuel : forall samples decr ws q,
  consistent q ->
  match pop_buffer_loop fuel samples decr ws q with
  | Some (Ok _, q') => consistent q'
  | Some (Raise e, q') => lawful e q'
  | None => True
  end.
Proof.
  induction fuel as [|fuel IH]; intros samples decr ws q Hc; simpl.
  - destruct (samples >? 0); [exact I|exact Hc].
  - destruct (samples >? 0); [|exact Hc].
    pose proof (_pop_buffer_yields samples decr q Hc) as Hy.
    destruct (_pop_buffer samples decr q) as [[w|e] q1]; simpl in Hy.
    + apply IH. apply (consistent_same q1); auto.
    + destruct Hy as [Hc1 He].
      destruct e; try (split; [exact Hc1|exact He]).
      unfold np_zeros. destruct (samples <? 0).
      * split; [exact Hc1|discriminate].
      * apply IH. apply (consistent_same q1); auto.
Qed.

Lemma pop_buffer_yields fuel samples decr q :
  consistent q ->
  match pop_buffer fuel samples decr q with
  | Some (Ok _, q') => consistent q'
  | Some (Raise e, q') => lawful e q'
  | None => True
  end.
Proof.
  intros Hc. unfold pop_buffer.
  pose proof (pop_buffer_loop_yields fuel samples decr [] q Hc) as Hy.
  destruct (pop_buffer_loop fuel samples decr [] q) as [[[ws|e] q1]|];
    [|exact Hy|exact I].
  unfold np_concatenate. destruct ws; [split; [exact Hy|discriminate]|exact Hy].
Qed.

Lemma consistent_counted q : consistent q -> consistent (counted q).
Proof.
  intros Hc. apply (consistent_same q); auto; unfold counted;
    destruct (kind q); reflexivity.
Qed.

Lemma append_yields src n dl dur md q :
  consistent q ->
  yields (append src n dl dur md q) (fun _ q' => consistent q').
Proof.
  intros Hc. rewrite append_run. apply consistent_counted in Hc.
  assert (Hn : uuid_next (counted q) = uuid_next q)
    by (unfold counted; destruct (kind q); reflexivity).
  assert (Hd : _data (counted q) = _data q)
    by (unfold counted; destruct (kind q); reflexivity).
  assert (Ho : _ordering (counted q) = _ordering q)
    by (unfold counted; destruct (kind q); reflexivity).
  destruct (stored_duration src dur (_fs q)) as [d|]; simpl.
  - rewrite <- Hd, <- Ho.
    set (q1 := with_uuid_next (N.succ (uuid_next q)) (counted q)).
    assert (Hc1 : consistent q1) by (apply (consistent_same (counted q)); auto).
    pose proof (consistent_insert q1 (uuid_next q) (new_token src n dl d md) Hc1)
      as Hc2.
    apply (consistent_ordering _ (_ordering (counted q) ++ [uuid_next q])) in Hc2.
    + exact Hc2.
    + intros k Hk. qsimpl. apply elem_of_app in Hk as [Hk|Hk].
      * apply is_Some_insert, Hc, Hk.
      * apply list_elem_of_singleton in Hk as ->. rewrite lookup_insert_eq. eauto.
  - split; [apply (consistent_same (counted q)); auto|].
    destruct (_fs q); discriminate.
Qed.

Lemma added_records_removed l : added_records (map removed l) = [].
Proof. induction l as [|i l IH]; simpl; [reflexivity|exact IH]. Qed.

Lemma cancel_yields t delay q :
  consistent q -> yields (cancel t delay q) (fun _ q' => consistent q').
Proof.
  intros Hc. unfold cancel. mrun.
  rewrite (bind_run _ _ _ _ _ (cancel_notifies t _ q)). mrun.
  set (q1 := with_notified _ q).
  assert (Hc1 : consistent q1).
  { destruct Hc as [H1 H2 H3]. split; subst q1; qsimpl; try assumption.
    rewrite added_records_app, added_records_removed, app_nil_r. exact H3. }
  assert (Hfs : forall q2, consistent q2 ->
    yields (bind the_fs (fun fs => modify (with_delay_samples (py_round (delay * fs)))) q2)
      (fun _ q' => consistent q')).
  { intros q2 Hc2. unfold the_fs. mrun. destruct (_fs q2); mrun; simpl.
    - apply (consistent_same q2); auto.
    - split; [exact Hc2|discriminate]. }
  destruct (_source q) as [src|]; mrun; [|apply Hfs; exact Hc1].
  change (_generated q1) with (_generated q).
  rewrite py_index_last. destruct (last (_generated q)) as [info|] eqn:El; mrun.
  2:{ cbv [bind lift yields]. split; [exact Hc1|discriminate]. }
  assert (Hin : info ∈ _generated q).
  { apply last_Some in El as [l' ->]. apply elem_of_app. right. left. }
  destruct (decrement info); mrun.
  - eapply yields_bind.
    { apply add_trials_yields; [exact Hc1|].
      exact (keys_generated q Hc info Hin). }
    intros _ q2 (Hc2 & _). mrun. apply Hfs. apply (consistent_same q2); auto.
  - apply Hfs. apply (consistent_same q1); auto.
Qed.

Lemma to_requeue_known t q :
  consistent q ->
  Forall (fun k => is_Some (_data q !! k)) (to_requeue t (_generated q)).
Proof.
  intros Hc. apply Forall_forall. intros k Hk. unfold to_requeue in Hk.
  apply list_elem_of_fmap in Hk as (info & -> & Hi).
  apply (keys_generated q Hc). apply list_elem_of_In in Hi.
  apply filter_In in Hi as [Hi _]. apply filter_In in Hi as [Hi _].
  apply list_elem_of_In. apply in_rev. exact Hi.
Qed.

Lemma requeue_yields t q :
  consistent q -> yields (requeue t q) (fun _ q' => consistent q').
Proof.
  intros Hc. pose proof (to_requeue_known t q Hc) as Hk.
  rewrite (requeue_run t q Hk). simpl.
  assert (Hdom : forall k : uuid, is_Some (_data q !! k) ->
    is_Some (fold_left give_back (Counter (to_requeue t (_generated q))) (_data q) !! k)).
  { intros k [tok Htok]. rewrite give_back_all_lookup, Htok. simpl. eauto. }
  destruct Hc as [H1 H2 H3]. split; qsimpl; [| |exact H3].
  - intros k Hin.
    apply (proj1 (proj2 (put_back_spec _ _))) in Hin as [Hin|Hin].
    + apply Hdom, H1, Hin.
    + apply Hdom. rewrite Forall_forall in Hk. apply Hk, Hin.
  - intros info Hi. apply Hdom, H2, Hi.
Qed.

Lemma rewind_samples_yields t q :
  consistent q -> yields (rewind_samples t q) (fun _ q' => consistent q').
Proof.
  intros Hc. unfold rewind_samples, get_ts, the_fs, py_div. mrun.
  destruct (_fs q) as [f|] eqn:Hf; mrun; [|split; [exact Hc|discriminate]].
  destruct (Qeq_bool f 0); mrun; [split; [exact Hc|discriminate]|].
  rewrite Hf. mrun. destruct (_ >? _); simpl.
  - split; [exact Hc|discriminate].
  - apply (consistent_same q); auto.
Qed.

Lemma pause_yields t q :
  consistent q -> yields (pause t q) (fun _ q' => consistent q').
Proof.
  intros Hc. unfold pause. mrun.
  assert (Hc1 : consistent (with_paused true q)) by (apply (consistent_same q); auto).
  destruct t as [t|]; [|exact Hc1].
  eapply yields_bind; [apply cancel_yields; exact Hc1|].
  intros u1 q1 Hq1. simpl.
  eapply yields_bind; [apply requeue_yields; exact Hq1|].
  intros u2 q2 Hq2. simpl. apply rewind_samples_yields. exact Hq2.
Qed.

Lemma resume_yields t q :
  consistent q -> yields (resume t q) (fun _ q' => consistent q').
Proof.
  intros Hc. unfold resume.
  eapply yields_bind with (P := fun _ q' => consistent q').
  { unfold get_ts, the_fs, py_div. mrun.
    destruct (_fs q) as [f|]; mrun; [|split; [exact Hc|discriminate]].
    destruct (Qeq_bool f 0); mrun; [split; [exact Hc|discriminate]|exact Hc]. }
  intros u1 q1 Hq1. simpl.
  eapply yields_bind with (P := fun _ q' => consistent q').
  { destruct t as [t|]; [apply rewind_samples_yields; exact Hq1|exact Hq1]. }
  intros u2 q2 Hq2. simpl. apply (consistent_same q2); auto.
Qed.

(** Every call leaves the books in order and raises no KeyError. *)
Lemma call_consistent c q :
  consistent q ->
  consistent (run_call c q) /\ forall s, call_raises c q <> Some (KeyError s).
Proof.
  intros Hc.
  assert (Hm : forall A (m : M A),
    yields (m q) (fun _ q' => consistent q') ->
    consistent (after m q) /\
    forall s, match result m q with
              | Raise e => Some e
              | Ok _ => None
              end <> Some (KeyError s)).
  { intros A m Hy. unfold after, result. destruct (m q) as [[a|e] q1]; simpl in *.
    - split; [exact Hy|discriminate].
    - destruct Hy as [Hc1 He]. split; [exact Hc1|]. intros s [= ->]. eapply He.
      reflexivity. }
  destruct c; simpl.
  - pose proof (pop_buffer_yields fuel samples decr q Hc) as Hy.
    destruct (pop_buffer fuel samples decr q) as [[[w|e] q1]|]; simpl.
    + split; [exact Hy|discriminate].
    + destruct Hy as [Hc1 He]. split; [exact Hc1|]. intros s [= ->]. eapply He.
      reflexivity.
    + split; [exact Hc|discriminate].
  - apply Hm, append_yields, Hc.
  - apply Hm, cancel_yields, Hc.
  - apply Hm, requeue_yields, Hc.
  - apply Hm, pause_yields, Hc.
  - apply Hm, resume_yields, Hc.
  - apply Hm, rewind_samples_yields, Hc.
Qed.

Lemma session_consistent cs : forall q,
  consistent q ->
  consistent (run_session cs q) /\
  forall s, KeyError s ∉ session_raises cs q.
Proof.
  induction cs as [|c cs IH]; intros q Hc; simpl.
  - split; [exact Hc|]. intros s Hs. inversion Hs.
  - destruct (call_consistent c q Hc) as [Hc1 Hr].
    destruct (IH _ Hc1) as [Hc2 Hrs]. split; [exact Hc2|].
    intros s. destruct (call_raises c q) as [e|] eqn:E; [|apply Hrs].
    intros Hs. apply elem_of_cons in Hs as [<-|Hs]; [exact (Hr s eq_refl)|].
    exact (Hrs s Hs).
Qed.

Lemma init_consistent cls fs gs : consistent (init cls fs gs).
Proof.
  split; simpl.
  - intros k Hk. inversion Hk.
  - intros i Hi. inversion Hi.
  - reflexivity.
Qed.

(** X15: the trials generated are the trials announced.  After any
    session of calls ([pop_buffer], [append], [cancel], [requeue], [pause],
    [resume], [rewind_samples], whether they return or raise) on a queue in
    which this was so, and so on a new queue of any class, the listeners of
    'added' have received the records of [_generated], each once and in
    order, and every key in the ordering or in those records has a
    token. *)
Theorem generated_is_announced cs q :
  consistent q ->
  added_records (notified (run_session cs q)) = _generated (run_session cs q) /\
  (forall k, k ∈ _ordering (run_session cs q) ->
             is_Some (_data (run_session cs q) !! k)) /\
  (forall info, info ∈ _generated (run_session cs q) ->
                is_Some (_data (run_session cs q) !! key info)).
Proof.
  intros Hc. destruct (session_consistent cs q Hc) as [[H1 H2 H3] _]. auto.
Qed.

Lemma generated_is_announced_witness :
  consistent fifo_10Hz /\
  added_records (notified (run_session forward_session fifo_10Hz))
    = _generated (run_session forward_session fifo_10Hz).
Proof.
  split; [apply init_consistent|].
  apply (generated_is_announced forward_session fifo_10Hz (init_consistent _ _ _)).
Defined.

(** X16: no KeyError.  In a session of such calls on a queue whose books
    are in order, and so on a new queue of any class, no call raises
    KeyError: the lookups [self._data[key]] of [pop_key], [decrement_key],
    [cancel], [requeue] and [next_trial] find their token. *)
Theorem sessions_raise_no_KeyError cs q s :
  consistent q -> KeyError s ∉ session_raises cs q.
Proof.
  intros Hc. apply (proj2 (session_consistent cs q Hc)).
Qed.

Lemma sessions_raise_no_KeyError_witness :
  consistent fifo_10Hz /\
  session_raises rewound_session fifo_10Hz = [] /\
  forall s, KeyError s ∉ session_raises rewound_session fifo_10Hz.
Proof.
  split; [apply init_consistent|]. split; [vm_compute; reflexivity|].
  intros s.
  apply (sessions_raise_no_KeyError rewound_session fifo_10Hz s
           (init_consistent _ _ _)).
Defined.

(** *** A trial whose delay cannot be played *)

#[local] Instance same_log_preorder : PreOrder same_log.
Proof.
  split.
  - intros q. split; reflexivity.
  - intros q1 q2 q3 [H1 H2] [H3 H4]. split; congruence.
Qed.

Ltac same_log_solve :=
  unfold same_log; qsimpl; rewrite ?added_records_app; simpl;
  rewrite ?app_nil_r; auto.


Lemma next_delay_log k : keeps same_log (next_delay k).
Proof. keeps_methods; same_log_solve. Qed.



End QueueProofs.

(** ** Properties of pipeline.py *)

Module PipelineProofs.

Import Queue QueueSpec PyProofs QueueProofs Pipeline PipelineSpec.

(** *** capture_epoch *)

(** C2: one chunk [(tlb, data)] sent to a capture that has not ended.  If
    the start is before the chunk, the capture delivers a missed epoch and
    ends.  If the start is in the chunk or at its end, it takes the slice
    [data[i:i+d]], moves its start and its count by [d] and, exactly when
    the count reaches 0, delivers the concatenation of what it has taken
    and ends.  If the start is after the chunk, nothing changes.  When the
    start is exactly the end of the chunk the slice is empty, and while
    samples remain to be captured the next chunk is read from its
    offset 0. *)
Theorem capture_send_cases c tlb data :
  let samples := len data in
  let i := epoch_t0 c - tlb in
  let d := Z.min (epoch_samples c) (samples - i) in
  let taken := py_slice data i (i + d) in
  (epoch_t0 c < tlb -> capture_send c tlb data = Stop (missed c)) /\
  (tlb <= epoch_t0 c <= tlb + samples ->
   (epoch_samples c - d = 0 ->
    capture_send c tlb data = Stop (completed c taken)) /\
   (epoch_samples c - d <> 0 ->
    capture_send c tlb data = Yield (took c d taken))) /\
  (tlb + samples < epoch_t0 c -> capture_send c tlb data = Yield c) /\
  (epoch_t0 c = tlb + samples ->
   taken = [] /\
   (0 < epoch_samples c ->
    capture_send c tlb data = Yield (took c 0 []) /\
    forall data',
      let d' := Z.min (epoch_samples c) (len data') in
      capture_send (took c 0 []) (tlb + samples) data'
        = if epoch_samples c - d' =? 0
          then Stop (completed (took c 0 []) (firstn (Z.to_nat d') data'))
          else Yield (took (took c 0 []) d' (firstn (Z.to_nat d') data')))).
Proof.
  intros samples i d taken. unfold capture_send. fold samples i d taken.
  split; [|split; [|split]].
  - intros H. destruct (epoch_t0 c <? tlb) eqn:E; [reflexivity|lia].
  - intros H. destruct (epoch_t0 c <? tlb) eqn:E; [lia|].
    destruct (epoch_t0 c <=? tlb + samples) eqn:E1; [|lia].
    split; intros Hd.
    + destruct (epoch_samples c - d =? 0) eqn:E2; [reflexivity|lia].
    + destruct (epoch_samples c - d =? 0) eqn:E2; [lia|reflexivity].
  - intros H. destruct (epoch_t0 c <? tlb) eqn:E; [pose proof (len_nonneg data); lia|].
    destruct (epoch_t0 c <=? tlb + samples) eqn:E1; [lia|reflexivity].
  - intros H.
    assert (Hi : i = samples) by lia.
    assert (Htaken : taken = []).
    { subst taken. unfold py_slice, py_clamp. fold (len data). fold samples.
      rewrite Hi. pose proof (len_nonneg data). fold samples in H0.
      destruct (samples <? 0) eqn:E; [lia|].
      rewrite (Z.min_l samples samples) by lia.
      rewrite skipn_all2 by (unfold samples, len; lia). apply firstn_nil. }
    split; [exact Htaken|]. intros Hpos.
    pose proof (len_nonneg data) as Hl. fold samples in Hl.
    assert (Hd : d = 0) by lia.
    destruct (epoch_t0 c <? tlb) eqn:E; [lia|].
    destruct (epoch_t0 c <=? tlb + samples) eqn:E1; [|lia].
    rewrite Htaken, Hd. rewrite Z.sub_0_r.
    destruct (epoch_samples c =? 0) eqn:E2; [lia|].
    split.
    { unfold took. rewrite Z.sub_0_r. reflexivity. }
    intros data'. cbv zeta. set (d' := Z.min (epoch_samples c) (len data')).
    cbn [took epoch_t0 epoch_samples capture_info accumulated_data].
    rewrite Z.add_0_r, Z.sub_0_r.
    pose proof (len_nonneg data') as Hl'.
    destruct (epoch_t0 c <? tlb + samples) eqn:E3; [lia|].
    destruct (epoch_t0 c <=? tlb + samples + len data') eqn:E4; [|lia].
    replace (epoch_t0 c - (tlb + samples)) with 0 by lia.
    rewrite Z.sub_0_r. fold d'.
    rewrite py_slice_firstn_skipn by lia. simpl skipn.
    replace (0 + d' - 0) with d' by lia.
    unfold took, completed.
    cbn [epoch_t0 epoch_samples capture_info accumulated_data].
    rewrite Z.sub_0_r, Z.add_0_r. reflexivity.
Qed.

(** The four cases and the boundary, for an epoch of 2 samples starting at
    sample 3. *)
Lemma capture_send_cases_witness :
  capture_send waiting_at_3 4 [14; 15] = Stop (missed waiting_at_3) /\
  capture_send waiting_at_3 2 [12; 13; 14; 15]
    = Stop (completed waiting_at_3 [13; 14]) /\
  capture_send waiting_at_3 2 [12; 13] = Yield (took waiting_at_3 1 [13]) /\
  capture_send waiting_at_3 0 [10; 11] = Yield waiting_at_3 /\
  capture_send waiting_at_3 0 [10; 11; 12] = Yield (took waiting_at_3 0 []) /\
  capture_send (took waiting_at_3 0 []) 3 [13; 14; 15]
    = Stop (completed (took waiting_at_3 0 []) [13; 14]).
Proof.
  split; [|split; [|split; [|split; [|split]]]].
  - apply (proj1 (capture_send_cases waiting_at_3 4 [14; 15])). reflexivity.
  - apply (proj1 (proj2 (capture_send_cases waiting_at_3 2 [12; 13; 14; 15]))).
    + split; discriminate.
    + reflexivity.
  - apply (proj1 (proj2 (capture_send_cases waiting_at_3 2 [12; 13]))).
    + split; discriminate.
    + discriminate.
  - apply (proj1 (proj2 (proj2 (capture_send_cases waiting_at_3 0 [10; 11])))).
    reflexivity.
  - exact (proj1 (proj2 (proj2 (proj2 (proj2
             (capture_send_cases waiting_at_3 0 [10; 11; 12]))) eq_refl) eq_refl)).
  - exact (proj2 (proj2 (proj2 (proj2 (proj2
             (capture_send_cases waiting_at_3 0 [10; 11; 12]))) eq_refl) eq_refl)
             [13; 14; 15]).
Defined.

(** *** The lookback buffer *)

Lemma discard_old_suffix prior t bs kept :
  discard_old prior t bs = Ok kept ->
  exists dropped, prior = dropped ++ kept /\
    match kept with
    | [] => False
    | c :: _ => t - bs <= tub c
    end.
Proof.
  induction prior as [|[lb data] prior IH]; simpl; [discriminate|].
  destruct (lb + len data <? t - bs) eqn:E.
  - intros H. destruct (IH H) as (dropped & -> & Hk).
    exists ((lb, data) :: dropped). auto.
  - intros [= <-]. exists []. split; [reflexivity|]. unfold tub. simpl. lia.
Qed.

Lemma extract_step_cache cfg x data removed queue x' eff :
  extract_step cfg x data removed queue = Ok (x', eff) ->
  exists dropped,
    prior_samples x ++ [(tlb x, data)] = dropped ++ prior_samples x' /\
    tlb x' = tlb x + len data /\
    match prior_samples x' with
    | [] => False
    | c :: _ => tlb x' - buffer_samples cfg <= tub c
    end.
Proof.
  unfold extract_step.
  destruct (process_removed removed (epoch_coroutines x) []) as [cos skip].
  destruct (send_each cos (tlb x) data) as [cos1 epochs].
  destruct (process_queue cfg queue _ skip cos1 epochs) as [[cos2 epochs2]|e];
    [|discriminate].
  destruct (discard_old _ _ _) as [kept|e] eqn:E; [|discriminate].
  intros [= <- _]. simpl.
  apply discard_old_suffix in E as (dropped & Hd & Hk). eauto.
Qed.

Lemma extract_step_lookback cfg x data removed queue x' eff :
  cache_ordered x ->
  extract_step cfg x data removed queue = Ok (x', eff) ->
  cache_ordered x' /\ within_lookback cfg x'.
Proof.
  intros [Hs Hle] H.
  apply extract_step_cache in H as (dropped & Happ & Htlb & Hhead).
  pose proof (len_nonneg data) as Hl.
  assert (Hs' : StronglySorted Z.le (map tub (prior_samples x ++ [(tlb x, data)]))).
  { rewrite map_app. simpl. clear -Hs Hle Hl.
    induction (prior_samples x) as [|c l IH]; simpl.
    - repeat constructor.
    - apply StronglySorted_inv in Hs as [Hs Hc].
      apply Forall_cons in Hle as [Hc' Hle].
      constructor; [apply IH; assumption|].
      apply Forall_app. split; [exact Hc|].
      constructor; [unfold tub at 2; simpl; lia | constructor]. }
  assert (Hle' : Forall (fun c => tub c <= tlb x')
                   (prior_samples x ++ [(tlb x, data)])).
  { apply Forall_app. split.
    - eapply Forall_impl; [exact Hle|]. intros c Hc. simpl in Hc. lia.
    - constructor; [unfold tub; simpl; lia | constructor]. }
  rewrite Happ in Hs', Hle'.
  rewrite map_app in Hs'.
  assert (Hs2 : StronglySorted Z.le (map tub (prior_samples x'))).
  { clear -Hs'. induction (map tub dropped) as [|t l IH]; simpl in Hs'; [exact Hs'|].
    apply StronglySorted_inv in Hs' as [Hs' _]. auto. }
  apply Forall_app in Hle' as [_ Hle'].
  split; [split; assumption|].
  unfold within_lookback.
  destruct (prior_samples x') as [|c l]; [contradiction|].
  simpl in Hs2. apply StronglySorted_inv in Hs2 as [_ Hc].
  constructor; [exact Hhead|].
  rewrite Forall_map in Hc. eapply Forall_impl; [exact Hc|].
  intros c' Hc'. simpl in Hc'. lia.
Qed.

Lemma extract_run_lookback cfg ds : forall x x' effs,
  cache_ordered x -> within_lookback cfg x ->
  extract_run cfg x ds = Ok (x', effs) ->
  cache_ordered x' /\ within_lookback cfg x'.
Proof.
  induction ds as [|d ds IH]; intros x x' effs Hc Hw; simpl.
  - intros [= <- _]. auto.
  - destruct (extract_step cfg x (chunk d) (removals d) (requests d))
      as [[x1 eff]|e] eqn:E; [|discriminate].
    apply extract_step_lookback in E as [Hc1 Hw1]; [|exact Hc].
    destruct (extract_run cfg x1 ds) as [[x2 effs2]|e] eqn:E2; [|discriminate].
    intros [= <- _]. eapply IH; eassumption.
Qed.

(** C4: after every chunk that the extractor has finished processing, no
    chunk of the lookback buffer ends before [tlb - buffer_samples]. *)
Theorem lookback_pruned cfg cb ds x effs :
  extract_run cfg (start cb) ds = Ok (x, effs) ->
  Forall (fun c => tlb x - buffer_samples cfg <= fst c + len (snd c))
    (prior_samples x).
Proof.
  intros H. eapply (extract_run_lookback cfg ds (start cb)); [| |exact H].
  - split; simpl; constructor.
  - constructor.
Qed.

(** With 2 samples of lookback, only the last of three chunks of 3 samples
    is kept. *)
Lemma lookback_pruned_witness :
  exists x effs,
    extract_run cfg_short (start false) three_chunks = Ok (x, effs) /\
    prior_samples x = [(6, [7; 8; 9])] /\
    Forall (fun c => tlb x - buffer_samples cfg_short <= fst c + len (snd c))
      (prior_samples x).
Proof.
  eexists _, _. split; [vm_compute; reflexivity|].
  split; [reflexivity|].
  eapply (lookback_pruned cfg_short false three_chunks).
  vm_compute. reflexivity.
Defined.

(** *** Epochs and chunk boundaries *)


Lemma tagged_app t cs1 cs2 :
  tagged t (cs1 ++ cs2) = tagged t cs1 ++ tagged (t + len (concat cs1)) cs2.
Proof.
  revert t. induction cs1 as [|c cs1 IH]; intros t; simpl.
  - unfold len. simpl. rewrite Z.add_0_r. reflexivity.
  - rewrite IH.
    replace (t + len (c ++ concat cs1)) with (t + len c + len (concat cs1));
      [reflexivity|].
    unfold len. rewrite length_app. lia.
Qed.


Lemma discard_old_last bs t lb d : 0 <= bs -> lb + len d = t ->
  forall l, exists kept, discard_old (l ++ [(lb, d)]) t bs = Ok kept.
Proof.
  intros Hbs Ht l. induction l as [|[lb' d'] l IH]; simpl.
  - destruct (lb + len d <? t - bs) eqn:E; [lia|]. eauto.
  - destruct (lb' + len d' <? t - bs); [exact IH | eauto].
Qed.


Section Chunking.

Context (cfg : settings) (Hbs : 0 <= buffer_samples cfg).


Context (s : list sample) (a n : Z) (i : epoch_info).


End Chunking.


Section Request.

Context (cfg : settings) (Hbs : 0 <= buffer_samples cfg).
Context (r : trial_info) (s : list sample).
Let a := request_start cfg r.
Let n := request_samples cfg r.
Context (Ha : 0 <= a) (Hn : 0 <= n) (Hend : a + n <= len s).




End Request.



(** *** One turn of the loop, step by step *)

Lemma extract_step_Ok cfg x data removed queue x' eff :
  extract_step cfg x data removed queue = Ok (x', eff) ->
  exists cos skip cos1 es cos2 es2,
    process_removed removed (epoch_coroutines x) [] = (cos, skip) /\
    send_each cos (tlb x) data = (cos1, es) /\
    process_queue cfg queue (prior_samples x ++ [(tlb x, data)]) skip cos1 es
      = Ok (cos2, es2) /\
    discard_old (prior_samples x ++ [(tlb x, data)]) (tlb x + len data)
      (buffer_samples cfg) = Ok (prior_samples x') /\
    tlb x' = tlb x + len data /\
    epoch_coroutines x' = cos2 /\
    target eff = match es2 with [] => None | _ => Some es2 end /\
    empty_queue_called eff
      = match cos2 with [] => empty_queue_cb x | _ => false end /\
    empty_queue_cb x'
      = (if empty_queue_called eff then false else empty_queue_cb x).
Proof.
  unfold extract_step.
  destruct (process_removed removed (epoch_coroutines x) []) as [cos skip].
  destruct (send_each cos (tlb x) data) as [cos1 es] eqn:Es.
  destruct (process_queue cfg queue _ skip cos1 es) as [[cos2 es2]|e] eqn:Eq;
    [|discriminate].
  destruct (discard_old _ _ _) as [kept|e] eqn:Ed; [|discriminate].
  intros [= <- <-]. simpl.
  exists cos, skip, cos1, es, cos2, es2.
  split; [reflexivity|]. split; [exact Es|]. split; [exact Eq|].
  repeat split; reflexivity.
Qed.

Lemma extract_run_app cfg ds1 : forall ds2 x,
  extract_run cfg x (ds1 ++ ds2)
  = match extract_run cfg x ds1 with
    | Raise e => Raise e
    | Ok (x1, effs1) =>
        match extract_run cfg x1 ds2 with
        | Raise e => Raise e
        | Ok (x2, effs2) => Ok (x2, effs1 ++ effs2)
        end
    end.
Proof.
  induction ds1 as [|d ds1 IH]; intros ds2 x; simpl.
  - destruct (extract_run cfg x ds2) as [[x2 effs2]|e]; reflexivity.
  - destruct (extract_step cfg x (chunk d) (removals d) (requests d))
      as [[x1 eff]|e]; [|reflexivity].
    rewrite IH.
    destruct (extract_run cfg x1 ds1) as [[x2 effs1]|e]; [|reflexivity].
    destruct (extract_run cfg x2 ds2) as [[x3 effs2]|e]; reflexivity.
Qed.

(** *** The cache is the tail of the stream *)

Lemma discard_old_tagged_Ok bs T : forall cs t kept,
  discard_old (tagged t cs) T bs = Ok kept ->
  exists dropped cs',
    cs = dropped ++ cs' /\ cs' <> [] /\
    kept = tagged (t + len (concat dropped)) cs' /\
    (dropped = [] \/ t + len (concat dropped) < T - bs).
Proof.
  induction cs as [|c cs IH]; intros t kept; simpl; [discriminate|].
  destruct (t + len c <? T - bs) eqn:E.
  - intros H. destruct (IH _ _ H) as (dropped & cs' & -> & Hne & -> & Hlt).
    exists (c :: dropped), cs'. simpl. rewrite len_app, Z.add_assoc.
    split; [reflexivity|]. split; [exact Hne|]. split; [reflexivity|].
    right. destruct Hlt as [->|Hlt]; [|exact Hlt].
    unfold len at 2. simpl. lia.
  - intros [= <-]. exists [], (c :: cs). simpl.
    unfold len at 1. simpl. rewrite Z.add_0_r.
    split; [reflexivity|]. split; [discriminate|]. split; [reflexivity|].
    left. reflexivity.
Qed.

Lemma extract_step_cache_tail cfg chunks x data removed queue x' eff :
  cache_tail cfg chunks x ->
  extract_step cfg x data removed queue = Ok (x', eff) ->
  cache_tail cfg (chunks ++ [data]) x'.
Proof.
  intros (Htlb & old & kept & Hch & Hp & _ & Hold) Hstep.
  apply extract_step_Ok in Hstep
    as (cos & skip & cos1 & es & cos2 & es2 & _ & _ & _ & Hd & Ht & _).
  assert (Hk : tlb x = len (concat old) + len (concat kept)).
  { rewrite Htlb, Hch, concat_app, len_app. reflexivity. }
  rewrite Hp in Hd.
  replace (tagged (len (concat old)) kept ++ [(tlb x, data)])
    with (tagged (len (concat old)) (kept ++ [data])) in Hd.
  2:{ rewrite tagged_app. simpl. rewrite <- Hk. reflexivity. }
  apply discard_old_tagged_Ok in Hd as (dropped & cs' & Hcs & Hne & Hkept & Hlt).
  pose proof (len_nonneg data) as Hl.
  split.
  { rewrite Ht, Htlb, concat_app, len_app. simpl. rewrite app_nil_r.
    reflexivity. }
  exists (old ++ dropped), cs'.
  split; [rewrite Hch, <- !app_assoc, Hcs; reflexivity|].
  split; [rewrite Hkept, concat_app, len_app; reflexivity|].
  split; [intros _; exact Hne|].
  rewrite concat_app, len_app.
  destruct Hlt as [->|Hlt].
  - rewrite app_nil_r. unfold len at 2. simpl. rewrite Z.add_0_r.
    destruct Hold as [->|Hold]; [left; reflexivity | right; lia].
  - right. lia.
Qed.

Lemma extract_run_cache_tail cfg ds : forall hist x x' effs,
  cache_tail cfg (chunks_of hist) x ->
  extract_run cfg x ds = Ok (x', effs) ->
  cache_tail cfg (chunks_of (hist ++ ds)) x'.
Proof.
  induction ds as [|d ds IH]; intros hist x x' effs Hc; simpl.
  - intros [= <- _]. rewrite app_nil_r. exact Hc.
  - destruct (extract_step cfg x (chunk d) (removals d) (requests d))
      as [[x1 eff]|e] eqn:E; [|discriminate].
    destruct (extract_run cfg x1 ds) as [[x2 effs2]|e] eqn:E2; [|discriminate].
    intros [= <- _].
    replace (hist ++ d :: ds) with ((hist ++ [d]) ++ ds)
      by (rewrite <- app_assoc; reflexivity).
    apply (IH _ x1 _ effs2); [|exact E2].
    unfold chunks_of. rewrite map_app.
    eapply extract_step_cache_tail; eassumption.
Qed.

Lemma start_cache_tail cfg cb : cache_tail cfg (chunks_of []) (start cb).
Proof.
  split; [reflexivity|]. exists [], []. simpl.
  split; [reflexivity|]. split; [reflexivity|]. split; [congruence|].
  left. reflexivity.
Qed.

(** X18: after any deliveries that the extractor has processed, [tlb] is
    the number of samples received, and the cache holds the last chunks
    received, at least one, each with the index of its first sample in
    the stream; the chunks no longer cached all end before
    [tlb - buffer_samples]. *)
Theorem cache_is_the_tail_of_the_stream cfg cb d ds x effs :
  extract_run cfg (start cb) (d :: ds) = Ok (x, effs) ->
  tlb x = len (concat (chunks_of (d :: ds))) /\
  exists old kept,
    chunks_of (d :: ds) = old ++ kept /\ kept <> [] /\
    prior_samples x = tagged (len (concat old)) kept /\
    (old = [] \/ len (concat old) < tlb x - buffer_samples cfg).
Proof.
  intros Hrun.
  destruct (extract_run_cache_tail cfg (d :: ds) [] (start cb) x effs
              (start_cache_tail cfg cb) Hrun)
    as (Htlb & old & kept & Hch & Hp & Hne & Hold).
  split; [exact Htlb|]. exists old, kept.
  split; [exact Hch|]. split; [apply Hne; discriminate|].
  split; [exact Hp | exact Hold].
Qed.

(** Three chunks of three samples with 2 samples of lookback: the first
    two chunks are dropped. *)
Lemma cache_is_the_tail_of_the_stream_witness :
  exists x effs,
    extract_run cfg_short (start false) three_chunks = Ok (x, effs) /\
    tlb x = 9 /\ prior_samples x = [(6, [7; 8; 9])].
Proof.
  destruct (extract_run cfg_short (start false) three_chunks)
    as [[x effs]|e] eqn:E; [|discriminate].
  exists x, effs. split; [reflexivity|].
  destruct (cache_is_the_tail_of_the_stream cfg_short false
              (plain [1; 2; 3]) (map plain [[4; 5; 6]; [7; 8; 9]]) x effs E)
    as (Htlb & _).
  split; [exact Htlb|].
  injection E as <- _. reflexivity.
Defined.

(** *** The callback of the empty queue *)

Lemma extract_step_calls cfg x data removed queue x' eff :
  extract_step cfg x data removed queue = Ok (x', eff) ->
  (calls [eff] + pending x' = pending x)%nat /\
  (empty_queue_cb x' = true -> epoch_coroutines x' <> []).
Proof.
  intros Hstep.
  apply extract_step_Ok in Hstep
    as (cos & skip & cos1 & es & cos2 & es2 & _ & _ & _ & _ & _ & Hcos & _
        & Hcall & Hcb).
  unfold calls, pending. simpl. rewrite Hcb, Hcall, Hcos.
  destruct cos2 as [|kc cos2].
  - destruct (empty_queue_cb x); simpl; split; congruence.
  - simpl. split; [reflexivity | discriminate].
Qed.

(** X19: [empty_queue_cb] is called at most once: the calls made and the
    callback still to be called add up to what there was.  When the
    callback is still there after a delivery, an epoch is being captured:
    the callback is called with the first chunk that leaves no capture in
    progress. *)
Theorem empty_queue_cb_called_once cfg ds : forall x x' effs,
  extract_run cfg x ds = Ok (x', effs) ->
  (calls effs + pending x' = pending x)%nat /\
  (ds <> [] -> empty_queue_cb x' = true -> epoch_coroutines x' <> []).
Proof.
  induction ds as [|d ds IH]; intros x x' effs; simpl.
  - intros [= <- <-]. split; [reflexivity | congruence].
  - destruct (extract_step cfg x (chunk d) (removals d) (requests d))
      as [[x1 eff]|e] eqn:E; [|discriminate].
    destruct (extract_run cfg x1 ds) as [[x2 effs2]|e] eqn:E2; [|discriminate].
    intros [= <- <-].
    apply extract_step_calls in E as [Hn Hcos].
    destruct (IH _ _ _ E2) as [Hn2 Hcos2].
    split.
    + unfold calls in *. simpl in *.
      destruct (empty_queue_called eff); simpl in *; lia.
    + intros _ Hcb. destruct ds as [|d' ds].
      * injection E2 as <- _. apply Hcos, Hcb.
      * apply Hcos2; [discriminate | exact Hcb].
Qed.

(** The request of 2 samples comes with the third of four chunks: the
    callback is called with the first chunk, and not again. *)
Lemma empty_queue_cb_called_once_witness :
  exists x effs,
    extract_run cfg_1Hz (start true)
      (map plain [[10]; [11]] ++ asking request_1s [12; 13] :: map plain [[14]])
      = Ok (x, effs) /\
    (calls effs + pending x = 1)%nat /\
    map empty_queue_called effs = [true; false; false; false].
Proof.
  destruct (extract_run cfg_1Hz (start true)
      (map plain [[10]; [11]] ++ asking request_1s [12; 13] :: map plain [[14]]))
    as [[x effs]|e] eqn:E; [|discriminate].
  exists x, effs. split; [reflexivity|].
  split; [exact (proj1 (empty_queue_cb_called_once cfg_1Hz _ _ _ _ E))|].
  injection E as <- <-. reflexivity.
Defined.

(** *** The errors of a turn of the loop *)

Lemma process_queue_raises cfg queue : forall prior skip cos es e,
  process_queue cfg queue prior skip cos es = Raise e ->
  e = ValueError "Duplicate epochs not supported".
Proof.
  induction queue as [|i queue IH]; intros prior skip cos es e; simpl;
    [discriminate|].
  destruct (existsb _ skip); [apply IH|].
  destruct (send_all _ prior) as [c|ep]; [|apply IH].
  destruct (has_key (key_of i) cos); [congruence | apply IH].
Qed.

(** X20: with a lookback that is not negative, the only error of a turn
    of the loop is the [ValueError] of a duplicate request; the cache is
    never found empty, since the chunk just received is not dropped. *)
Theorem extract_step_raises_only_duplicates cfg x data removed queue e :
  0 <= buffer_samples cfg ->
  extract_step cfg x data removed queue = Raise e ->
  e = ValueError "Duplicate epochs not supported".
Proof.
  intros Hbs. unfold extract_step.
  destruct (process_removed removed (epoch_coroutines x) []) as [cos skip].
  destruct (send_each cos (tlb x) data) as [cos1 es].
  destruct (process_queue cfg queue _ skip cos1 es) as [[cos2 es2]|e'] eqn:E.
  - destruct (discard_old_last (buffer_samples cfg) (tlb x + len data) (tlb x)
                data Hbs eq_refl (prior_samples x)) as [kept ->].
    discriminate.
  - intros [= <-]. eapply process_queue_raises, E.
Qed.

(** Two requests with the same key come with the first chunk, which does
    not complete the epoch. *)
Lemma extract_step_raises_only_duplicates_witness :
  0 <= buffer_samples cfg_1Hz /\
  extract_step cfg_1Hz (start false) (chunk asked_twice) (removals asked_twice)
    (requests asked_twice)
  = Raise (ValueError "Duplicate epochs not supported").
Proof.
  split; [discriminate|].
  destruct (extract_step cfg_1Hz (start false) (chunk asked_twice)
              (removals asked_twice) (requests asked_twice))
    as [[x eff]|e] eqn:E; [discriminate|].
  f_equal.
  exact (extract_step_raises_only_duplicates cfg_1Hz (start false) _ _ _ e
           ltac:(discriminate) E).
Defined.

Lemma discard_old_all bs T : forall prior,
  Forall (fun c => tub c < T - bs) prior ->
  discard_old prior T bs = Raise IndexError.
Proof.
  induction prior as [|[lb d] prior IH]; intros H; simpl; [reflexivity|].
  apply Forall_cons in H as [Hc H]. unfold tub in Hc. simpl in Hc.
  destruct (lb + len d <? T - bs) eqn:E; [apply IH, H | lia].
Qed.

(** X21: with a negative lookback, the first chunk already ends the
    extractor with an error: every cached chunk is dropped, the chunk
    just received too, and the oldest chunk of the empty cache is asked
    for.  Without requests the error is [IndexError]. *)
Theorem negative_lookback_raises cfg cb d ds :
  buffer_samples cfg < 0 ->
  exists e,
    extract_run cfg (start cb) (d :: ds) = Raise e /\
    (requests d = [] -> e = IndexError).
Proof.
  intros Hbs. simpl. unfold extract_step.
  destruct (process_removed (removals d) (epoch_coroutines (start cb)) [])
    as [cos skip] eqn:Er.
  destruct (send_each cos (tlb (start cb)) (chunk d)) as [cos1 es] eqn:Es.
  assert (Hall : discard_old (prior_samples (start cb) ++ [(tlb (start cb), chunk d)])
                   (tlb (start cb) + len (chunk d)) (buffer_samples cfg)
                 = Raise IndexError).
  { apply discard_old_all. simpl. constructor; [|constructor].
    unfold tub. simpl. lia. }
  destruct (process_queue cfg (requests d) _ skip cos1 es)
    as [[cos2 es2]|e'] eqn:E.
  - rewrite Hall. exists IndexError. auto.
  - exists e'. split; [reflexivity|]. intros Hq. rewrite Hq in E.
    simpl in E. discriminate.
Qed.

Lemma negative_lookback_raises_witness :
  buffer_samples cfg_negative < 0 /\
  extract_run cfg_negative (start false) three_chunks = Raise IndexError.
Proof.
  split; [reflexivity|].
  destruct (negative_lookback_raises cfg_negative false (plain [1; 2; 3])
              (map plain [[4; 5; 6]; [7; 8; 9]]) eq_refl) as (e & Hrun & He).
  rewrite (He eq_refl) in Hrun. exact Hrun.
Defined.

(** *** The captures in progress *)

Lemma in_progress_more cfg reqs reqs' t c :
  (forall r, In r reqs -> In r reqs') ->
  in_progress cfg reqs t c -> in_progress cfg reqs' t c.
Proof.
  intros Hsub [(r & Hin & Hr) Ha Hl].
  split; [exists r; split; [apply Hsub, Hin | exact Hr] | exact Ha | exact Hl].
Qed.

Lemma answers_more cfg reqs reqs' e :
  (forall r, In r reqs -> In r reqs') ->
  answers cfg reqs e -> answers cfg reqs' e.
Proof.
  intros Hsub (r & Hin & Hr). exists r. split; [apply Hsub, Hin | exact Hr].
Qed.

(** A capture in progress that is sent the next chunk takes what the chunk
    has of its epoch, and is never found to have missed its start. *)
Lemma capture_send_in_progress cfg reqs t data c :
  in_progress cfg reqs t c ->
  match capture_send c t data with
  | Yield c' => in_progress cfg reqs (t + len data) c'
  | Stop e => answers cfg reqs e /\ signal e <> None
  end.
Proof.
  intros [(r & Hin & Hinfo & Hhave) Ha Hl].
  pose proof (len_nonneg data) as Hd.
  unfold capture_send.
  destruct (Z.ltb_spec (epoch_t0 c) t) as [Hlt|_]; [lia|].
  destruct (Z.leb_spec (epoch_t0 c) (t + len data)) as [Hle|Hgt].
  - remember (epoch_t0 c - t) as i eqn:Hi.
    remember (Z.min (epoch_samples c) (len data - i)) as d eqn:Hdd.
    assert (Hslice : len (py_slice data i (i + d)) = d).
    { apply py_slice_length; lia. }
    assert (Hacc : len (concat (accumulated_data c ++ [py_slice data i (i + d)]))
                   = len (concat (accumulated_data c)) + d).
    { rewrite concat_app, len_app. simpl. rewrite app_nil_r, Hslice.
      reflexivity. }
    destruct (Z.eqb_spec (epoch_samples c - d) 0) as [Hz|Hnz].
    + split; [|discriminate]. exists r. simpl.
      split; [exact Hin|]. split; [exact Hinfo|].
      intros sig [= <-]. rewrite Hacc. lia.
    + split; simpl; [|lia|lia].
      exists r. split; [exact Hin|]. split; [exact Hinfo|].
      rewrite Hacc. lia.
  - split; [exists r; auto | lia | exact Hl].
Qed.

Lemma send_each_in_progress cfg reqs t data : forall cos cos1 es,
  Forall (fun kc => in_progress cfg reqs t (snd kc)) cos ->
  send_each cos t data = (cos1, es) ->
  Forall (fun kc => in_progress cfg reqs (t + len data) (snd kc)) cos1 /\
  Forall (fun e => answers cfg reqs e /\ signal e <> None) es.
Proof.
  induction cos as [|[k c] cos IH]; intros cos1 es Hall; simpl.
  - intros [= <- <-]. split; constructor.
  - apply Forall_cons in Hall as [Hc Hall]. simpl in Hc.
    destruct (send_each cos t data) as [cos' es'].
    destruct (IH _ _ Hall eq_refl) as [Hcos Hes].
    pose proof (capture_send_in_progress cfg reqs t data c Hc) as Hsend.
    destruct (capture_send c t data) as [c'|e]; intros [= <- <-].
    + split; [constructor; assumption | exact Hes].
    + split; [exact Hcos | constructor; assumption].
Qed.

Lemma send_all_in_progress cfg reqs : forall cs t c,
  in_progress cfg reqs t c ->
  match send_all c (tagged t cs) with
  | Yield c' => in_progress cfg reqs (t + len (concat cs)) c'
  | Stop e => answers cfg reqs e /\ signal e <> None
  end.
Proof.
  induction cs as [|d cs IH]; intros t c Hc; simpl.
  - unfold len. simpl. rewrite Z.add_0_r. exact Hc.
  - pose proof (capture_send_in_progress cfg reqs t d c Hc) as Hsend.
    destruct (capture_send c t d) as [c'|e]; [|exact Hsend].
    specialize (IH _ _ Hsend). rewrite len_app, Z.add_assoc. exact IH.
Qed.

Lemma send_all_late c t d cs :
  epoch_t0 c < t -> send_all c (tagged t (d :: cs)) = Stop (missed c).
Proof.
  intros Hlt. simpl. unfold capture_send.
  destruct (Z.ltb_spec (epoch_t0 c) t) as [_|Hge]; [reflexivity | lia].
Qed.

Lemma dict_pop_Forall (P : epoch_key * capture -> Prop) k cos :
  Forall P cos -> Forall P (dict_pop k cos).
Proof.
  unfold dict_pop. induction 1 as [|kc cos Hkc _ IH]; simpl; [constructor|].
  destruct (negb (key_eqb (fst kc) k)); [constructor; assumption | exact IH].
Qed.

Lemma process_removed_Forall (P : epoch_key * capture -> Prop) removed :
  forall cos skip cos' skip',
  Forall P cos ->
  process_removed removed cos skip = (cos', skip') -> Forall P cos'.
Proof.
  induction removed as [|i removed IH]; intros cos skip cos' skip' Hall; simpl.
  - intros [= <- _]. exact Hall.
  - destruct (has_key (key_of i) cos); eapply IH; auto using dict_pop_Forall.
Qed.

Section Turn.

Context (cfg : settings) (reqs all : list trial_info).
Context (t : Z) (d0 : list sample) (cs : list (list sample)).
Let T := t + len (concat (d0 :: cs)).

(** The loop over the queue, with the cache [tagged t (d0 :: cs)]. *)
Lemma process_queue_in_progress : forall requested skip cos es cos' es',
  (forall r, In r requested ->
     In r reqs /\ In r all /\ 0 <= request_samples cfg r) ->
  Forall (fun kc => in_progress cfg reqs T (snd kc)) cos ->
  Forall (fun e => answers cfg reqs e /\ missed_late cfg all t e) es ->
  process_queue cfg requested (tagged t (d0 :: cs)) skip cos es
  = Ok (cos', es') ->
  Forall (fun kc => in_progress cfg reqs T (snd kc)) cos' /\
  Forall (fun e => answers cfg reqs e /\ missed_late cfg all t e) es'.
Proof.
  induction requested as [|i requested IH];
    intros skip cos es cos' es' Hq Hcos Hes.
  - cbn [process_queue]. intros [= <- <-]. auto.
  - cbn [process_queue].
    assert (Hq' : forall r, In r requested ->
              In r reqs /\ In r all /\ 0 <= request_samples cfg r).
    { intros r Hr. apply Hq. right. exact Hr. }
    destruct (Hq i (or_introl eq_refl)) as (Hin & Hall & Hn).
    destruct (existsb _ skip); [apply IH; assumption|].
    fold (request_size cfg i). fold (request_info cfg i).
    fold (request_start cfg i) (request_samples cfg i).
    destruct (Z.lt_ge_cases (request_start cfg i) t) as [Hlate|Hok].
    + rewrite send_all_late by exact Hlate.
      apply IH; [exact Hq' | exact Hcos |].
      apply Forall_app. split; [exact Hes|].
      constructor; [|constructor]. split.
      * exists i. split; [exact Hin|]. split; [reflexivity|]. discriminate.
      * intros _. exists i. auto.
    + pose proof (send_all_in_progress cfg reqs (d0 :: cs) t
                    (capture_epoch (request_start cfg i)
                       (request_samples cfg i) (request_info cfg i))) as Hsend.
      destruct (send_all _ _) as [c|e].
      * destruct (has_key (key_of i) cos); [discriminate|].
        apply IH; [exact Hq' | | exact Hes].
        apply Forall_app. split; [exact Hcos|].
        constructor; [|constructor]. apply Hsend.
        split; simpl; [|exact Hok|exact Hn].
        exists i. split; [exact Hin|]. split; [reflexivity|].
        unfold len. simpl. lia.
      * apply IH; [exact Hq' | exact Hcos |].
        apply Forall_app. split; [exact Hes|].
        constructor; [|constructor].
        destruct Hsend as [Ha Hs].
        { split; simpl; [|exact Hok|exact Hn].
          exists i. split; [exact Hin|]. split; [reflexivity|].
          unfold len. simpl. lia. }
        split; [exact Ha|]. intros Hnone. contradiction.
Qed.

End Turn.

(** One turn of the loop keeps the captures in progress, and what it gives
    to [target] answers requests. *)
Lemma extract_step_in_progress cfg chunks reqs x data removed queue x' eff :
  cache_tail cfg chunks x ->
  Forall (fun kc => in_progress cfg reqs (tlb x) (snd kc)) (epoch_coroutines x) ->
  (forall r, In r queue -> 0 <= request_samples cfg r) ->
  extract_step cfg x data removed queue = Ok (x', eff) ->
  Forall (fun kc => in_progress cfg (reqs ++ queue) (tlb x') (snd kc))
    (epoch_coroutines x') /\
  forall es, target eff = Some es ->
    Forall (fun e => answers cfg (reqs ++ queue) e /\
                     missed_late cfg queue (cache_start x) e) es.
Proof.
  intros (Htlb & old & kept & Hch & Hp & _ & _) Hcos Hq Hstep.
  apply extract_step_Ok in Hstep
    as (cos & skip & cos1 & es & cos2 & es2 & Hr & Hs & Hpq & _ & Ht & Hc2
        & Htarget & _).
  assert (Hk : tlb x = len (concat old) + len (concat kept)).
  { rewrite Htlb, Hch, concat_app, len_app. reflexivity. }
  assert (Hstart : cache_start x = len (concat old)).
  { unfold cache_start. rewrite Hp. destruct kept as [|c kept]; simpl.
    - rewrite Hk. unfold len at 2. simpl. lia.
    - reflexivity. }
  assert (Hprior : exists d0 cs,
            prior_samples x ++ [(tlb x, data)]
            = tagged (len (concat old)) (d0 :: cs) /\
            len (concat old) + len (concat (d0 :: cs)) = tlb x + len data).
  { destruct kept as [|c kept].
    - assert (Hk0 : tlb x = len (concat old)).
      { rewrite Hk. unfold len at 2. simpl. lia. }
      exists data, []. rewrite Hp, Hk0. simpl. rewrite app_nil_r.
      split; reflexivity.
    - exists c, (kept ++ [data]). rewrite Hp.
      change (c :: kept ++ [data]) with ((c :: kept) ++ [data]). split.
      + rewrite tagged_app. cbn [tagged]. rewrite <- Hk. reflexivity.
      + rewrite concat_app, len_app, Z.add_assoc, <- Hk. simpl.
        rewrite app_nil_r. reflexivity. }
  destruct Hprior as (d0 & cs & Hprior & Hend).
  rewrite Hprior in Hpq.
  eapply process_removed_Forall in Hr; [|exact Hcos].
  destruct (send_each_in_progress cfg reqs _ _ _ _ _ Hr Hs) as [Hcos1 Hes].
  destruct (process_queue_in_progress cfg (reqs ++ queue) queue
              (len (concat old)) d0 cs queue skip cos1 es cos2 es2)
    as [Hcos2 Hes2].
  - intros r Hin. split; [apply in_or_app; right; exact Hin|].
    split; [exact Hin | apply Hq, Hin].
  - rewrite Hend. eapply Forall_impl; [exact Hcos1|].
    intros kc. apply in_progress_more. intros r Hin.
    apply in_or_app. left. exact Hin.
  - eapply Forall_impl; [exact Hes|]. intros e [Ha Hsome].
    split; [|intros Hnone; contradiction].
    revert Ha. apply answers_more. intros r Hin.
    apply in_or_app. left. exact Hin.
  - exact Hpq.
  - split.
    + rewrite Hc2, Ht, <- Hend. exact Hcos2.
    + intros es' Hes'. rewrite Htarget in Hes'. rewrite Hstart.
      destruct es2; [discriminate|]. injection Hes' as <-. exact Hes2.
Qed.

Lemma start_running cfg cb : running cfg [] (start cb).
Proof.
  split; [apply start_cache_tail | constructor].
Qed.

Lemma requests_of_app ds1 ds2 :
  requests_of (ds1 ++ ds2) = requests_of ds1 ++ requests_of ds2.
Proof.
  unfold requests_of. apply flat_map_app.
Qed.

Lemma extract_step_running cfg hist x d x' eff :
  running cfg hist x ->
  (forall r, In r (requests d) -> 0 <= request_samples cfg r) ->
  extract_step cfg x (chunk d) (removals d) (requests d) = Ok (x', eff) ->
  running cfg (hist ++ [d]) x'.
Proof.
  intros [Hc Hcos] Hq Hstep. split.
  - unfold chunks_of. rewrite map_app.
    eapply extract_step_cache_tail; eassumption.
  - rewrite requests_of_app. simpl. rewrite app_nil_r.
    eapply extract_step_in_progress; eassumption.
Qed.

Lemma extract_run_running cfg ds : forall hist x x' effs,
  running cfg hist x ->
  (forall r, In r (requests_of ds) -> 0 <= request_samples cfg r) ->
  extract_run cfg x ds = Ok (x', effs) ->
  running cfg (hist ++ ds) x' /\
  Forall (answers cfg (requests_of (hist ++ ds))) (emitted effs).
Proof.
  induction ds as [|d ds IH]; intros hist x x' effs Hrun Hq; simpl.
  - intros [= <- <-]. rewrite app_nil_r. split; [exact Hrun | constructor].
  - destruct (extract_step cfg x (chunk d) (removals d) (requests d))
      as [[x1 eff]|e] eqn:E; [|discriminate].
    destruct (extract_run cfg x1 ds) as [[x2 effs2]|e] eqn:E2; [|discriminate].
    intros [= <- <-].
    assert (Hqd : forall r, In r (requests d) -> 0 <= request_samples cfg r).
    { intros r Hr. apply Hq. simpl. apply in_or_app. left. exact Hr. }
    assert (Hqs : forall r, In r (requests_of ds) -> 0 <= request_samples cfg r).
    { intros r Hr. apply Hq. simpl. apply in_or_app. right. exact Hr. }
    pose proof (extract_step_running cfg hist x d x1 eff Hrun Hqd E) as Hrun1.
    destruct (IH (hist ++ [d]) x1 x2 effs2 Hrun1 Hqs E2) as [Hrun2 Hes2].
    rewrite <- app_assoc in Hrun2, Hes2. simpl in Hrun2, Hes2.
    split; [exact Hrun2|].
    cbn [emitted flat_map]. apply Forall_app. split; [|exact Hes2].
    destruct Hrun as [Hc Hcos].
    destruct (extract_step_in_progress cfg _ _ x _ _ _ x1 eff Hc Hcos Hqd E)
      as [_ Hes].
    destruct (target eff) as [es|]; [|constructor].
    eapply Forall_impl; [exact (Hes es eq_refl)|].
    intros e [Ha _]. revert Ha. apply answers_more. intros r Hin.
    rewrite requests_of_app. apply in_app_or in Hin as [Hin|Hin].
    + apply in_or_app. left. exact Hin.
    + apply in_or_app. right. simpl. apply in_or_app. left. exact Hin.
Qed.



(** X23: when no request asks for a negative number of samples, a
    capture in progress never misses its start: an epoch without signal
    is given to [target] only with the chunk that brought its request,
    and only when the request asked for samples older than the cache. *)
Theorem missed_only_when_requested_late cfg cb ds d x effs x' eff es e :
  (forall r, In r (requests_of (ds ++ [d])) -> 0 <= request_samples cfg r) ->
  extract_run cfg (start cb) ds = Ok (x, effs) ->
  extract_step cfg x (chunk d) (removals d) (requests d) = Ok (x', eff) ->
  target eff = Some es -> In e es -> signal e = None ->
  exists r, In r (requests d) /\ info e = request_info cfg r /\
    request_start cfg r < cache_start x.
Proof.
  intros Hq Hrun Hstep Htarget Hin Hnone.
  rewrite requests_of_app in Hq.
  destruct (extract_run_running cfg ds [] (start cb) x effs
              (start_running cfg cb)) as [[Hc Hcos] _]; [|exact Hrun|].
  { intros r Hr. apply Hq, in_or_app. left. exact Hr. }
  assert (Hqd : forall r, In r (requests d) -> 0 <= request_samples cfg r).
  { intros r Hr. apply Hq, in_or_app. right. simpl. rewrite app_nil_r.
    exact Hr. }
  destruct (extract_step_in_progress cfg _ _ x _ _ _ x' eff Hc Hcos Hqd Hstep)
    as [_ Hes].
  specialize (Hes es Htarget). rewrite Forall_forall in Hes.
  destruct (Hes e (proj2 (list_elem_of_In _ _) Hin)) as [_ Hlate].
  exact (Hlate Hnone).
Qed.

(** With 2 samples of lookback, the request for the samples from sample 1
    comes with the third chunk of 3 samples: the cache begins at
    sample 3. *)
Lemma missed_only_when_requested_late_witness :
  exists x effs x' eff e,
    extract_run cfg_short (start false) (map plain [[1; 2; 3]; [4; 5; 6]])
      = Ok (x, effs) /\
    extract_step cfg_short x (chunk asked_late) (removals asked_late)
      (requests asked_late) = Ok (x', eff) /\
    target eff = Some [e] /\ signal e = None /\ cache_start x = 3 /\
    exists r, In r (requests asked_late) /\
      info e = request_info cfg_short r /\
      request_start cfg_short r < cache_start x.
Proof.
  destruct (extract_run cfg_short (start false)
              (map plain [[1; 2; 3]; [4; 5; 6]])) as [[x effs]|e0] eqn:E;
    [|discriminate].
  destruct (extract_step cfg_short x (chunk asked_late) (removals asked_late)
              (requests asked_late)) as [[x' eff]|e0] eqn:E1;
    [|injection E as <- _; discriminate].
  destruct (target eff) as [[|e [|e2 l]]|] eqn:Et;
    try (exfalso; injection E as <- _; injection E1 as _ <-; discriminate).
  assert (Hnone : signal e = None).
  { injection E as <- _. injection E1 as _ <-. injection Et as <-.
    reflexivity. }
  exists x, effs, x', eff, e.
  split; [reflexivity|]. split; [exact E1|]. split; [exact Et|].
  split; [exact Hnone|].
  split; [injection E as <- _; reflexivity|].
  apply (missed_only_when_requested_late cfg_short false
           (map plain [[1; 2; 3]; [4; 5; 6]]) asked_late x effs x' eff [e] e).
  - intros r [<-|[]]. discriminate.
  - exact E.
  - exact E1.
  - exact Et.
  - left. reflexivity.
  - exact Hnone.
Defined.

(** X24: a request that asks for samples older than the cache is answered
    at once with an epoch without signal, given to [target] after the
    epochs that the chunk has completed; no capture is started for it,
    and no duplicate is reported. *)
Theorem late_request_is_missed cfg x data r :
  0 <= buffer_samples cfg ->
  request_start cfg r < cache_start x ->
  exists x' eff,
    extract_step cfg x data [] [r] = Ok (x', eff) /\
    target eff
    = Some (snd (send_each (epoch_coroutines x) (tlb x) data)
            ++ [{| signal := None; info := request_info cfg r |}]) /\
    epoch_coroutines x' = fst (send_each (epoch_coroutines x) (tlb x) data).
Proof.
  intros Hbs Hlate. unfold extract_step. cbn [process_removed].
  destruct (send_each (epoch_coroutines x) (tlb x) data) as [cos1 es].
  cbn [process_queue existsb].
  fold (request_size cfg r). fold (request_info cfg r).
  fold (request_start cfg r) (request_samples cfg r).
  assert (Hsend : send_all (capture_epoch (request_start cfg r)
                    (request_samples cfg r) (request_info cfg r))
                    (prior_samples x ++ [(tlb x, data)])
                  = Stop {| signal := None; info := request_info cfg r |}).
  { unfold cache_start in Hlate.
    destruct (prior_samples x) as [|[lb d0] prior]; simpl in *; unfold capture_send;
      simpl.
    - destruct (Z.ltb_spec (request_start cfg r) (tlb x)); [reflexivity | lia].
    - destruct (Z.ltb_spec (request_start cfg r) lb); [reflexivity | lia]. }
  rewrite Hsend.
  destruct (discard_old_last (buffer_samples cfg) (tlb x + len data) (tlb x)
              data Hbs eq_refl (prior_samples x)) as [kept ->].
  eexists _, _. split; [reflexivity|]. simpl.
  split; [|reflexivity]. destruct es; reflexivity.
Qed.

Lemma late_request_is_missed_witness :
  exists x' eff,
    extract_step cfg_short
      {| tlb := 6; epoch_coroutines := []; prior_samples := [(3, [4; 5; 6])];
         empty_queue_cb := false |} [7; 8; 9] [] [request_1s] = Ok (x', eff) /\
    target eff
    = Some [{| signal := None; info := request_info cfg_short request_1s |}] /\
    epoch_coroutines x' = [].
Proof.
  apply (late_request_is_missed cfg_short
           {| tlb := 6; epoch_coroutines := [];
              prior_samples := [(3, [4; 5; 6])]; empty_queue_cb := false |}
           [7; 8; 9] request_1s); [discriminate | reflexivity].
Defined.

(** *** Removals *)

Lemma process_queue_skipped cfg k prior : forall q1 r q2 cos es,
  (forall r1, In r1 q1 -> key_eqb k (key_of r1) = false) ->
  key_eqb k (key_of r) = true ->
  process_queue cfg (q1 ++ r :: q2) prior [k] cos es
  = process_queue cfg (q1 ++ q2) prior [] cos es.
Proof.
  induction q1 as [|i q1 IH]; intros r q2 cos es Hq1 Hr.
  - cbn [app process_queue existsb skip_remove]. rewrite Hr. reflexivity.
  - cbn [app process_queue existsb].
    rewrite (Hq1 i (or_introl eq_refl)). cbn [orb].
    assert (Hq1' : forall r1, In r1 q1 -> key_eqb k (key_of r1) = false).
    { intros r1 H1. apply Hq1. right. exact H1. }
    destruct (send_all _ prior) as [c|e]; [|apply IH; assumption].
    destruct (has_key (key_of i) cos); [reflexivity | apply IH; assumption].
Qed.

Lemma process_queue_not_skipped cfg k prior : forall requested cos es,
  (forall r1, In r1 requested -> key_eqb k (key_of r1) = false) ->
  process_queue cfg requested prior [k] cos es
  = process_queue cfg requested prior [] cos es.
Proof.
  induction requested as [|i requested IH]; intros cos es Hq; [reflexivity|].
  cbn [process_queue existsb].
  rewrite (Hq i (or_introl eq_refl)). cbn [orb].
  assert (Hq' : forall r1, In r1 requested -> key_eqb k (key_of r1) = false).
  { intros r1 H1. apply Hq. right. exact H1. }
  destruct (send_all _ prior) as [c|e]; [|apply IH; assumption].
  destruct (has_key (key_of i) cos); [reflexivity | apply IH; assumption].
Qed.

(** X25: a removal that comes with a chunk.  When its epoch is being
    captured, the capture is dropped before the chunk is sent, and gives
    nothing.  When it is not, the first request of the same key and start
    in the queue is dropped, and only that one.  When there is none, the
    removal has no effect, also on a request that comes with a later
    chunk. *)
Theorem removal_cases cfg x data r queue :
  (has_key (key_of r) (epoch_coroutines x) = true ->
   extract_step cfg x data [r] queue
   = extract_step cfg (forget (key_of r) x) data [] queue) /\
  (has_key (key_of r) (epoch_coroutines x) = false ->
   (forall q1 r' q2,
      queue = q1 ++ r' :: q2 ->
      (forall r1, In r1 q1 -> key_eqb (key_of r) (key_of r1) = false) ->
      key_eqb (key_of r) (key_of r') = true ->
      extract_step cfg x data [r] queue
      = extract_step cfg x data [] (q1 ++ q2)) /\
   ((forall r1, In r1 queue -> key_eqb (key_of r) (key_of r1) = false) ->
    extract_step cfg x data [r] queue = extract_step cfg x data [] queue)).
Proof.
  split; [|intros Hk; split].
  - intros Hk. unfold extract_step. cbn [process_removed]. rewrite Hk.
    reflexivity.
  - intros q1 r' q2 -> Hq1 Hr'. unfold extract_step. cbn [process_removed].
    rewrite Hk. cbn [app].
    destruct (send_each (epoch_coroutines x) (tlb x) data) as [cos1 es].
    rewrite process_queue_skipped by assumption. reflexivity.
  - intros Hq. unfold extract_step. cbn [process_removed].
    rewrite Hk. cbn [app].
    destruct (send_each (epoch_coroutines x) (tlb x) data) as [cos1 es].
    rewrite process_queue_not_skipped by assumption. reflexivity.
Qed.

(** The removal of the epoch being captured, with the chunk that would
    complete it; the removal of a request that comes with the same chunk;
    and the removal that comes one chunk before its request. *)
Lemma removal_cases_witness :
  (exists x' eff,
     extract_step cfg_1Hz one_capture [12] [request_1s] [] = Ok (x', eff) /\
     target eff = None /\ epoch_coroutines x' = []) /\
  extract_step cfg_1Hz (start false) [10; 11; 12] [request_1s] [request_1s]
  = extract_step cfg_1Hz (start false) [10; 11; 12] [] [] /\
  extract_step cfg_1Hz (start false) [10] [request_1s] []
  = extract_step cfg_1Hz (start false) [10] [] [].
Proof.
  split; [|split].
  - rewrite (proj1 (removal_cases cfg_1Hz one_capture [12] request_1s []) eq_refl).
    eexists _, _. split; [reflexivity|]. split; reflexivity.
  - exact (proj1 (proj2 (removal_cases cfg_1Hz (start false) [10; 11; 12]
                           request_1s [request_1s]) eq_refl)
             [] request_1s [] eq_refl
             (fun r1 (H : In r1 []) => match H with end) eq_refl).
  - exact (proj2 (proj2 (removal_cases cfg_1Hz (start false) [10]
                           request_1s []) eq_refl)
             (fun r1 (H : In r1 []) => match H with end)).
Defined.

End PipelineProofs.
